(** * OKLCH colour utilities (features/Preferences/data/themeColors.ts)

    A shallow embedding of [parseOklch], [formatOklch] and the four
    derivation functions, together with the JavaScript built-ins they call:
    IEEE 754 binary64 arithmetic, [Math.min], [Math.max], [parseFloat],
    [Number.prototype.toFixed], number-to-string conversion and the
    regular expression of [parseOklch]. *)

From Stdlib Require Import ZArith QArith Qround Qpower Qabs Lia Lqa Bool List
  Ascii String SpecFloat.
Import ListNotations.

Local Open Scope Z_scope.

(** ** JavaScript numbers

    A JavaScript number is an IEEE 754 binary64 value.  The carrier is the
    Standard Library's [spec_float]: a signed zero, a signed infinity, NaN,
    or [S754_finite s m e], which stands for (-1)^s * m * 2^e.  Arithmetic
    is the IEEE definition itself: the exact rational result, rounded to
    the nearest binary64 value, ties to even. *)

Module Number.

Definition number := spec_float.

Abbreviation NaN := S754_nan.
Abbreviation Inf := S754_infinity.
Abbreviation Zero := S754_zero.
Abbreviation Fin := S754_finite.

(** 53 bits of precision; a finite mantissa is scaled by 2^e with
    -1074 <= e <= 971. *)
Definition prec : Z := 53.
Definition emin : Z := -1074.
Definition emax : Z := 971.

(** [x] is a binary64 value in canonical form: the mantissa has exactly 53
    bits, or the exponent is the least one. *)
Definition is_double (x : number) : bool :=
  match x with
  | Fin _ m e =>
      (emin <=? e) && (e <=? emax) && (Z.pos m <? 2 ^ prec)
      && ((e =? emin) || (2 ^ (prec - 1) <=? Z.pos m))
  | _ => true
  end.

Definition is_nan (x : number) : bool :=
  match x with NaN => true | _ => false end.

Definition is_finite (x : number) : bool :=
  match x with Zero _ | Fin _ _ _ => true | _ => false end.

(** The exact value of a finite number (0 for the others). *)
Definition toQ (x : number) : Q :=
  match x with
  | Fin s m e =>
      let a := (inject_Z (Z.pos m) * 2 ^ e)%Q in
      if s then (- a)%Q else a
  | _ => 0%Q
  end.

Definition sign_of (x : number) : bool :=
  match x with
  | Zero s | Inf s | Fin s _ _ => s
  | NaN => false
  end.

(** floor (log2 q) for q > 0. *)
Definition Qlog2 (q : Q) : Z :=
  let k := Z.log2 (Qnum q) - Z.log2 (Z.pos (Qden q)) in
  if Qle_bool (2 ^ k) q then k else k - 1.

(** The integer nearest to [q], ties to the even one. *)
Definition round_half_even (q : Q) : Z :=
  let f := Qfloor q in
  match (q - inject_Z f ?= 1 # 2)%Q with
  | Lt => f
  | Gt => f + 1
  | Eq => if Z.even f then f else f + 1
  end.

(** Round-to-nearest-even of the positive rational [q], with sign [s]. *)
Definition RN (s : bool) (q : Q) : number :=
  let e := Z.max emin (Qlog2 q - (prec - 1)) in
  let m := round_half_even (q / 2 ^ e) in
  let e' := if m =? 2 ^ prec then e + 1 else e in
  let m' := if m =? 2 ^ prec then 2 ^ (prec - 1) else m in
  if m' =? 0 then Zero s
  else if emax <? e' then Inf s
  else Fin s (Z.to_pos m') e'.

(** Rounding of any rational; an exact zero result is +0. *)
Definition roundQ (q : Q) : number :=
  match (q ?= 0)%Q with
  | Eq => Zero false
  | Gt => RN false q
  | Lt => RN true (- q)
  end.

Definition fopp (x : number) : number :=
  match x with
  | NaN => NaN
  | Zero s => Zero (negb s)
  | Inf s => Inf (negb s)
  | Fin s m e => Fin (negb s) m e
  end.

Definition fabs (x : number) : number :=
  match x with
  | NaN => NaN
  | Zero _ => Zero false
  | Inf _ => Inf false
  | Fin _ m e => Fin false m e
  end.

(** [x + y] *)
Definition fadd (x y : number) : number :=
  match x, y with
  | NaN, _ | _, NaN => NaN
  | Inf s1, Inf s2 => if Bool.eqb s1 s2 then Inf s1 else NaN
  | Inf s, _ | _, Inf s => Inf s
  | Zero s1, Zero s2 => Zero (s1 && s2)
  | Zero _, f | f, Zero _ => f
  | Fin _ _ _, Fin _ _ _ => roundQ (toQ x + toQ y)
  end.

(** [x - y] *)
Definition fsub (x y : number) : number := fadd x (fopp y).

(** [x * y] *)
Definition fmul (x y : number) : number :=
  match x, y with
  | NaN, _ | _, NaN => NaN
  | Inf _, Zero _ | Zero _, Inf _ => NaN
  | Inf s1, (Inf s2 | Fin s2 _ _) | Fin s1 _ _, Inf s2 => Inf (xorb s1 s2)
  | Zero s1, (Zero s2 | Fin s2 _ _) | Fin s1 _ _, Zero s2 => Zero (xorb s1 s2)
  | Fin s1 _ _, Fin s2 _ _ => RN (xorb s1 s2) (Qabs (toQ x) * Qabs (toQ y))
  end.

(** [x / y] *)
Definition fdiv (x y : number) : number :=
  match x, y with
  | NaN, _ | _, NaN => NaN
  | Inf _, Inf _ | Zero _, Zero _ => NaN
  | Inf s1, (Zero s2 | Fin s2 _ _) | Fin s1 _ _, Zero s2 => Inf (xorb s1 s2)
  | Zero s1, (Inf s2 | Fin s2 _ _) | Fin s1 _ _, Inf s2 => Zero (xorb s1 s2)
  | Fin s1 _ _, Fin s2 _ _ => RN (xorb s1 s2) (Qabs (toQ x) / Qabs (toQ y))
  end.

(** Comparison of two numbers; [None] when one of them is NaN. *)
Definition fcompare (x y : number) : option comparison :=
  match x, y with
  | NaN, _ | _, NaN => None
  | Inf s1, Inf s2 =>
      Some (if s1 then (if s2 then Eq else Lt) else (if s2 then Gt else Eq))
  | Inf s, _ => Some (if s then Lt else Gt)
  | _, Inf s => Some (if s then Gt else Lt)
  | _, _ => Some (toQ x ?= toQ y)%Q
  end.

(** [x < y], [x > y], [x <= y], [x >= y]: false when one side is NaN. *)
Definition flt (x y : number) : bool :=
  match fcompare x y with Some Lt => true | _ => false end.
Definition fgt (x y : number) : bool := flt y x.
Definition fle (x y : number) : bool :=
  match fcompare x y with Some Lt | Some Eq => true | _ => false end.

(** [Math.max(x, y)]: NaN when an argument is NaN; +0 is larger than -0. *)
Definition Math_max (x y : number) : number :=
  match fcompare x y with
  | None => NaN
  | Some Lt => y
  | Some Gt => x
  | Some Eq => if sign_of x then y else x
  end.

(** [Math.min(x, y)]: NaN when an argument is NaN; -0 is smaller than +0. *)
Definition Math_min (x y : number) : number :=
  match fcompare x y with
  | None => NaN
  | Some Lt => x
  | Some Gt => y
  | Some Eq => if sign_of x then x else y
  end.

(** The number nearest to the integer [z]. *)
Definition of_Z (z : Z) : number := roundQ (inject_Z z).

End Number.

(** ** Strings

    A string is a sequence of code units; the development covers the code
    units below 256. *)

Module Text.

Local Open Scope string_scope.
Local Open Scope Z_scope.

Definition code (c : ascii) : Z := Z.of_N (N_of_ascii c).

(** [\d] *)
Definition is_digit (c : ascii) : bool :=
  (48 <=? code c) && (code c <=? 57).

(** [\s], and the white space that [parseFloat] skips: tab, line feed,
    vertical tab, form feed, carriage return, space, no-break space. *)
Definition is_space (c : ascii) : bool :=
  let n := code c in
  ((9 <=? n) && (n <=? 13)) || (n =? 32) || (n =? 160).

(** [[\d.]] *)
Definition is_digit_or_dot (c : ascii) : bool :=
  is_digit c || Ascii.eqb c ".".

Definition digit_val (c : ascii) : Z := code c - 48.

Definition digit_char (d : Z) : ascii :=
  ascii_of_N (Z.to_N (48 + d)).

(** Every character of [s] satisfies [p]. *)
Fixpoint all (p : ascii -> bool) (s : string) : bool :=
  match s with
  | EmptyString => true
  | String c s' => p c && all p s'
  end.

(** The first character of [s], if any, does not satisfy [p]. *)
Definition stops (p : ascii -> bool) (s : string) : bool :=
  match s with
  | EmptyString => true
  | String c _ => negb (p c)
  end.

(** The longest prefix of [s] whose characters satisfy [p], and the rest. *)
Fixpoint span (p : ascii -> bool) (s : string) : string * string :=
  match s with
  | EmptyString => (EmptyString, EmptyString)
  | String c s' =>
      if p c then let (a, b) := span p s' in (String c a, b)
      else (EmptyString, s)
  end.

(** [s] without the prefix [t], when [t] is a prefix of [s]. *)
Fixpoint strip_prefix (t s : string) : option string :=
  match t, s with
  | EmptyString, _ => Some s
  | String a t', String b s' =>
      if Ascii.eqb a b then strip_prefix t' s' else None
  | String _ _, EmptyString => None
  end.

(** The value of a string of decimal digits read after [acc]. *)
Fixpoint digits_val_acc (acc : Z) (s : string) : Z :=
  match s with
  | EmptyString => acc
  | String c s' => digits_val_acc (10 * acc + digit_val c) s'
  end.

Definition digits_val (s : string) : Z := digits_val_acc 0 s.

(** The decimal digits of [n >= 0], most significant first, in front of
    [acc]; [fuel] bounds the number of digits. *)
Fixpoint digits_fuel (fuel : nat) (n : Z) (acc : string) : string :=
  match fuel with
  | O => acc
  | S fuel' =>
      let acc' := String (digit_char (n mod 10)) acc in
      if n / 10 =? 0 then acc' else digits_fuel fuel' (n / 10) acc'
  end.

Definition Z_to_digits (n : Z) : string :=
  digits_fuel (S (Z.to_nat (Z.log2 n))) n EmptyString.

(** [n] copies of the character [c]. *)
Fixpoint repeat (c : ascii) (n : nat) : string :=
  match n with
  | O => EmptyString
  | S n' => String c (repeat c n')
  end.

Definition zeros (n : Z) : string := repeat "0" (Z.to_nat n).

Definition len (s : string) : Z := Z.of_nat (String.length s).

(** The first [n] characters of [s], and the others. *)
Definition take (n : Z) (s : string) : string :=
  substring 0 (Z.to_nat n) s.
Definition drop (n : Z) (s : string) : string :=
  substring (Z.to_nat n) (String.length s - Z.to_nat n) s.

End Text.

(** ** Built-in functions on numbers and strings *)

Module Builtin.

Import Number Text.
Local Open Scope string_scope.
Local Open Scope Z_scope.

(** How an evaluation completes: with a value, or by throwing. *)
Inductive error : Type := RangeError.

Inductive completion (A : Type) : Type :=
| Normal (a : A)
| Throw (e : error).
Arguments Normal {A} a.
Arguments Throw {A} e.

(** *** [parseFloat]

    White space is skipped, then the longest prefix that is a decimal
    literal is read: a sign, then [Infinity] or digits with an optional
    fraction and an optional exponent.  No such prefix gives NaN. *)

Definition read_sign (s : string) : bool * string :=
  match s with
  | String "-" r => (true, r)
  | String "+" r => (false, r)
  | _ => (false, s)
  end.

Definition read_fraction (s : string) : string * string :=
  match s with
  | String "." r => span is_digit r
  | _ => (EmptyString, s)
  end.

(** The exponent part counts only when a digit follows. *)
Definition read_exponent (s : string) : Z :=
  match s with
  | String c r =>
      if Ascii.eqb c "e" || Ascii.eqb c "E" then
        let (neg, r1) := read_sign r in
        let (ds, _) := span is_digit r1 in
        match ds with
        | EmptyString => 0
        | _ => if neg then - digits_val ds else digits_val ds
        end
      else 0
  | EmptyString => 0
  end.

Definition parseFloat (input : string) : number :=
  let (_, s) := span is_space input in
  let (neg, s1) := read_sign s in
  if prefix "Infinity" s1 then Inf neg
  else
    let (ip, s2) := span is_digit s1 in
    let (fp, s3) := read_fraction s2 in
    match ip ++ fp with
    | EmptyString => NaN
    | ds =>
        let ex := read_exponent s3 in
        let d := digits_val ds in
        if d =? 0 then Zero neg
        else RN neg (inject_Z d * 10 ^ (ex - len fp))%Q
    end.

(** *** Number to string

    The text of [x] is the shortest decimal s * 10^(n-k), with k digits,
    that rounds to [x]; of two such the nearer, and the even one when they
    are equally near. *)

(** floor (log10 q) for q > 0: from an estimate, count up to the least
    power of ten above [q], then down to the greatest one not above it. *)
Fixpoint scan_up (fuel : nat) (k : Z) (q : Q) : Z :=
  match fuel with
  | O => k
  | S fuel' => if Qle_bool (10 ^ k) q then scan_up fuel' (k + 1) q else k
  end.

Fixpoint scan_down (fuel : nat) (k : Z) (q : Q) : Z :=
  match fuel with
  | O => k
  | S fuel' => if Qle_bool (10 ^ k) q then k else scan_down fuel' (k - 1) q
  end.

Definition Qlog10 (q : Q) : Z :=
  let k0 := Qlog2 q * 1233 / 4096 in
  scan_down 700 (scan_up 700 k0 q - 1) q.

Definition same_value (x y : number) : bool :=
  match fcompare x y with Some Eq => true | _ => false end.

(** The decimals with [k] digits next to [q] (below and above), for
    10^(n-1) <= q < 10^n. *)
Definition digits_below (q : Q) (n k : Z) : Z := Qfloor (q / 10 ^ (n - k)).
Definition digits_above (q : Q) (n k : Z) : Z := digits_below q n k + 1.

(** The one of the two nearer to [q]; the even one on a tie. *)
Definition nearer (q : Q) (n k : Z) : Z :=
  let lo := digits_below q n k in
  match (q / 10 ^ (n - k) - inject_Z lo ?= 1 # 2)%Q with
  | Lt => lo
  | Gt => lo + 1
  | Eq => if Z.even lo then lo else lo + 1
  end.

(** The digits with [k] places that round to [x], if any. *)
Definition candidate (x : number) (n k : Z) : option Z :=
  let q := toQ x in
  let g := (10 ^ (n - k))%Q in
  let lo := digits_below q n k in
  let hi := digits_above q n k in
  let ok_lo := (0 <? lo) && same_value (RN false (inject_Z lo * g)) x in
  let ok_hi := same_value (RN false (inject_Z hi * g)) x in
  match ok_lo, ok_hi with
  | true, true => Some (nearer q n k)
  | true, false => Some lo
  | false, true => Some hi
  | false, false => None
  end.

(** Try 1, 2, ... digits; with 17 digits the nearest decimal is taken. *)
Fixpoint shortest_from (fuel : nat) (x : number) (n k : Z) : Z * Z :=
  match fuel with
  | O => (nearer (toQ x) n k, k)
  | S fuel' =>
      match candidate x n k with
      | Some s => (s, k)
      | None => shortest_from fuel' x n (k + 1)
      end
  end.

(** The digits s, their number k, and the position n of the decimal
    point, for a positive finite [x].  Digits that carry to 10^k are the
    single digit 1, one place higher. *)
Definition shortest (x : number) : Z * Z * Z :=
  let n := Qlog10 (toQ x) + 1 in
  let (s, k) := shortest_from 16 x n 1 in
  if s =? 10 ^ k then (1, 1, n + 1) else (s, k, n).

Definition render (s k n : Z) : string :=
  let ds := Z_to_digits s in
  if (k <=? n) && (n <=? 21) then ds ++ zeros (n - k)
  else if (0 <? n) && (n <=? 21) then take n ds ++ "." ++ drop n ds
  else if (-6 <? n) && (n <=? 0) then "0." ++ zeros (- n) ++ ds
  else
    let e := n - 1 in
    let es := (if e <? 0 then "-" else "+") ++ Z_to_digits (Z.abs e) in
    if k =? 1 then ds ++ "e" ++ es
    else take 1 ds ++ "." ++ drop 1 ds ++ "e" ++ es.

Definition ToString (x : number) : string :=
  match x with
  | NaN => "NaN"
  | Zero _ => "0"
  | Inf s => if s then "-Infinity" else "Infinity"
  | Fin sg _ _ =>
      let '(s, k, n) := shortest (fabs x) in
      (if sg then "-" else "") ++ render s k n
  end.

(** *** [Number.prototype.toFixed] *)

(** The integer nearest to [q], the larger one on a tie. *)
Definition round_half_up (q : Q) : Z := Qfloor (q + (1 # 2)).

Definition toFixed (x : number) (fractionDigits : Z) : completion string :=
  let f := fractionDigits in
  if (f <? 0) || (100 <? f) then Throw RangeError
  else if negb (is_finite x) then Normal (ToString x)
  else
    let q := Qabs (toQ x) in
    let s := if Qlt_le_dec (toQ x) 0 then "-" else "" in
    if Qle_bool (10 ^ 21) q then Normal (s ++ ToString (fabs x))
    else
      let n := round_half_up (q * 10 ^ f) in
      let m := if n =? 0 then "0" else Z_to_digits n in
      let m :=
        if f =? 0 then m
        else
          let k := len m in
          let m := if k <=? f then zeros (f + 1 - k) ++ m else m in
          let k := if k <=? f then f + 1 else k in
          take (k - f) m ++ "." ++ drop (k - f) m in
      Normal (s ++ m).

(** A numeric literal of the source denotes the number nearest to it. *)
Definition num (q : Q) : number := roundQ q.

End Builtin.

(** ** Regular expressions

    The fragment of the pattern language that [parseOklch] uses: literal
    text, greedy repetition of a character class, an optional group and
    numbered capturing groups, matched by backtracking. *)

Module Regex.

Import Text.
Local Open Scope string_scope.

Inductive regex : Type :=
| Str (t : string)                 (* literal text *)
| Star (p : ascii -> bool)         (* p*, greedy *)
| Plus (p : ascii -> bool)         (* p+, greedy *)
| Opt (r : regex)                  (* (?:r)?, greedy *)
| Seq (r1 r2 : regex)              (* r1 r2 *)
| Cap (i : nat) (r : regex).       (* (r), capturing group i *)

(** The captures of a match: group number and captured text, the latest
    first.  A group that took no part in the match has no entry. *)
Definition captures := list (nat * string).

Fixpoint group (m : captures) (i : nat) : option string :=
  match m with
  | [] => None
  | (j, t) :: m' => if Nat.eqb i j then Some t else group m' i
  end.

Section Matcher.

Context {R : Type}.

(** As many [p] as possible, then the continuation; one fewer when the
    continuation fails. *)
Fixpoint star (p : ascii -> bool) (s : string) (k : string -> option R)
  : option R :=
  match s with
  | String c s' =>
      if p c then
        match star p s' k with
        | Some r => Some r
        | None => k s
        end
      else k s
  | EmptyString => k s
  end.

Definition plus (p : ascii -> bool) (s : string) (k : string -> option R)
  : option R :=
  match s with
  | String c s' => if p c then star p s' k else None
  | EmptyString => None
  end.

End Matcher.

(** The text that was consumed between [s] and its suffix [s']. *)
Definition consumed (s s' : string) : string :=
  substring 0 (String.length s - String.length s') s.

(** [exec r s m k]: match [r] at the start of [s], then continue with
    [k] on the rest of [s]. *)
Fixpoint exec (r : regex) (s : string) (m : captures)
  (k : string -> captures -> option captures) : option captures :=
  match r with
  | Str t =>
      match strip_prefix t s with
      | Some s' => k s' m
      | None => None
      end
  | Star p => star p s (fun s' => k s' m)
  | Plus p => plus p s (fun s' => k s' m)
  | Opt r1 =>
      match exec r1 s m k with
      | Some m' => Some m'
      | None => k s m
      end
  | Seq r1 r2 => exec r1 s m (fun s' m' => exec r2 s' m' k)
  | Cap i r1 => exec r1 s m (fun s' m' => k s' ((i, consumed s s') :: m'))
  end.

(** [s.match(r)] for a pattern without the global flag: the match at the
    leftmost position where there is one. *)
Fixpoint search (r : regex) (s : string) : option captures :=
  match exec r s [] (fun _ m => Some m) with
  | Some m => Some m
  | None =>
      match s with
      | EmptyString => None
      | String _ s' => search r s'
      end
  end.

End Regex.

(** ** The colour utilities *)

Module ThemeColors.

Import Number Text Builtin Regex.
Local Open Scope string_scope.

(** *** Effects: a call completes normally or throws, and may write
    warnings to the console. *)

Definition warning : Type := string * string.

Definition Js (T : Type) : Type := completion T * list warning.

Definition ret {T} (v : T) : Js T := (Normal v, []).

Definition bind {T U} (c : Js T) (f : T -> Js U) : Js U :=
  match c with
  | (Normal v, w) => let (r, w') := f v in (r, (w ++ w')%list)
  | (Throw e, w) => (Throw e, w)
  end.

Definition console_warn (message value : string) : Js unit :=
  (Normal tt, [(message, value)]).

Definition lift {T} (c : completion T) : Js T := (c, []).

Notation "x <- c ;; k" := (bind c (fun x => k))
  (at level 61, c at next level, right associativity).
Notation "c ;;; k" := (bind c (fun _ => k))
  (at level 61, right associativity).

(** The value a call returned, if it did not throw. *)
Definition returned {T} (c : Js T) : option T :=
  match fst c with
  | Normal v => Some v
  | Throw _ => None
  end.

Record oklch : Type := { L : number; C : number; H : number; A : number }.

(** /oklch\(\s*([\d.]+)%?\s+([\d.]+)\s+([\d.]+)\s*(?:\/\s*([\d.]+))?\s*\)/ *)
Definition oklch_pattern : regex :=
  Seq (Str "oklch(")
  (Seq (Star is_space)
  (Seq (Cap 1 (Plus is_digit_or_dot))
  (Seq (Opt (Str "%"))
  (Seq (Plus is_space)
  (Seq (Cap 2 (Plus is_digit_or_dot))
  (Seq (Plus is_space)
  (Seq (Cap 3 (Plus is_digit_or_dot))
  (Seq (Star is_space)
  (Seq (Opt (Seq (Str "/") (Seq (Star is_space)
                                (Cap 4 (Plus is_digit_or_dot)))))
  (Seq (Star is_space)
       (Str ")"))))))))))).

(** [parseFloat(match[i])]; a group that is undefined reads as NaN. *)
Definition parseFloat_group (m : captures) (i : nat) : number :=
  match group m i with
  | Some t => parseFloat t
  | None => NaN
  end.

(** A captured text is truthy when it is defined and not empty. *)
Definition truthy (t : option string) : bool :=
  match t with
  | Some (String _ _) => true
  | _ => false
  end.

Definition parseOklch (oklchColor : string) : option oklch :=
  match search oklch_pattern oklchColor with
  | None => None
  | Some m =>
      let L0 := parseFloat_group m 1 in
      let L1 := if fgt L0 (num 1) then fdiv L0 (num 100) else L0 in
      Some {| L := L1;
              C := parseFloat_group m 2;
              H := parseFloat_group m 3;
              A := if truthy (group m 4) then parseFloat_group m 4
                   else num 1 |}
  end.

Definition formatOklch (L C H A : number) : completion string :=
  match toFixed (fmul L (num 100)) 2 with
  | Throw e => Throw e
  | Normal l =>
      match toFixed C 4 with
      | Throw e => Throw e
      | Normal c =>
          match toFixed H 2 with
          | Throw e => Throw e
          | Normal h =>
              Normal ("oklch(" ++ l ++ "% " ++ c ++ " " ++ h ++ " / "
                      ++ ToString A ++ ")")
          end
      end
  end.

(** An optional parameter with a default value. *)
Definition default (d : Q) (arg : option number) : number :=
  match arg with
  | Some v => v
  | None => num d
  end.

(** The components that [generateCardColor] passes to [formatOklch]. *)
Definition cardComponents (parsed : oklch) (isLight : bool)
  (lightnessBoost chromaMultiplier : number) : oklch :=
  let '{| L := L; C := C; H := H; A := A |} := parsed in
  if isLight then
    {| L := Math_max (num 0)
              (fsub L (fmul (fmul (fadd (fsub (num 1) L) (num 0.12))
                                  lightnessBoost) (num 5)));
       C := Math_min (num 0.37) (fmul C chromaMultiplier);
       H := H; A := A |}
  else
    {| L := Math_min (num 1) (fadd L (fmul L lightnessBoost));
       C := Math_min (num 0.37) (fmul C chromaMultiplier);
       H := H; A := A |}.

Definition generateCardColor (backgroundColor : string) (isLight : bool)
  (lightnessBoost chromaMultiplier : option number) : Js string :=
  let lightnessBoost := default 0.2 lightnessBoost in
  let chromaMultiplier := default 1.2 chromaMultiplier in
  match parseOklch backgroundColor with
  | None =>
      console_warn "Could not parse OKLCH color for card:" backgroundColor ;;;
      ret backgroundColor
  | Some parsed =>
      let c := cardComponents parsed isLight lightnessBoost chromaMultiplier in
      lift (formatOklch (L c) (C c) (H c) (A c))
  end.

(** The components that [generateBorderColor] passes to [formatOklch]. *)
Definition borderComponents (parsed : oklch) (isLight : bool)
  (lightnessBoost chromaMultiplier : number) : oklch :=
  let '{| L := L; C := C; H := H; A := A |} := parsed in
  if isLight then
    {| L := Math_max (num 0)
              (fsub L (fmul (fmul (fadd (fsub (num 1) L) (num 0.15))
                                  lightnessBoost) (num 2)));
       C := Math_min (num 0.37) (fmul C chromaMultiplier);
       H := H; A := A |}
  else
    {| L := Math_min (num 1) (fadd L (fmul L lightnessBoost));
       C := Math_min (num 0.37) (fmul C chromaMultiplier);
       H := H; A := A |}.

Definition generateBorderColor (backgroundColor : string) (isLight : bool)
  (lightnessBoost chromaMultiplier : option number) : Js string :=
  let lightnessBoost := default 0.75 lightnessBoost in
  let chromaMultiplier := default 1.85 chromaMultiplier in
  match parseOklch backgroundColor with
  | None =>
      console_warn "Could not parse OKLCH color for border:"
        backgroundColor ;;;
      ret backgroundColor
  | Some parsed =>
      let c :=
        borderComponents parsed isLight lightnessBoost chromaMultiplier in
      lift (formatOklch (L c) (C c) (H c) (A c))
  end.

(** The components that [generateAccentColor] passes to [formatOklch]. *)
Definition accentComponents (parsed : oklch)
  (lightnessReduction chromaBoost : number) : oklch :=
  let '{| L := L; C := C; H := H; A := A |} := parsed in
  {| L := Math_max (num 0.05) (fsub L (fmul lightnessReduction L));
     C := Math_min (num 0.37) (fadd C chromaBoost);
     H := H; A := A |}.

Definition generateAccentColor (color : string)
  (lightnessReduction chromaBoost : option number) : Js string :=
  let lightnessReduction := default 0.25 lightnessReduction in
  let chromaBoost := default 0.05 chromaBoost in
  match parseOklch color with
  | None =>
      console_warn "Could not parse OKLCH color for accent:" color ;;;
      ret color
  | Some parsed =>
      let c := accentComponents parsed lightnessReduction chromaBoost in
      lift (formatOklch (L c) (C c) (H c) (A c))
  end.

(** The components that [generateButtonBorderColor] passes to
    [formatOklch]. *)
Definition buttonBorderComponents (parsed : oklch)
  (lightnessReduction chromaBoost : number) : oklch :=
  let '{| L := L; C := C; H := H; A := A |} := parsed in
  {| L := Math_max (num 0.05) (fsub L (fmul lightnessReduction L));
     C := Math_min (num 0.37) (fadd C chromaBoost);
     H := H; A := A |}.

Definition generateButtonBorderColor (oklchColor : string)
  (lightnessReduction chromaBoost : option number) : Js string :=
  let lightnessReduction := default 0.25 lightnessReduction in
  let chromaBoost := default 0.05 chromaBoost in
  match parseOklch oklchColor with
  | None =>
      console_warn "Could not parse OKLCH color:" oklchColor ;;;
      ret oklchColor
  | Some parsed =>
      let c :=
        buttonBorderComponents parsed lightnessReduction chromaBoost in
      lift (formatOklch (L c) (C c) (H c) (A c))
  end.

End ThemeColors.

(** ** The conjugation history (components/ConjugationHistory)

    [formatTimestamp] turns the time of a history entry into a relative
    label.  The clock is an argument: [now] is what [Date.now()] returns. *)

Module ConjugationHistory.

Import Number Text Builtin.
Local Open Scope string_scope.

(** [Math.floor(x)]: the greatest integer that is not above [x].  The
    floor of a finite binary64 number is a binary64 number, so nothing is
    lost when it is rounded; NaN, the infinities and the zeros are returned
    as they are. *)
Definition Math_floor (x : number) : number :=
  match x with
  | Fin _ _ _ => roundQ (inject_Z (Qfloor (toQ x)))
  | _ => x
  end.

Section FormatTimestamp.

(** [new Date(t).toLocaleDateString()], which depends on the locale and on
    the time zone of the host. *)
Variable toLocaleDateString : number -> string.

(** [formatTimestamp(timestamp)], with the value [now] that [Date.now()]
    returns. *)
Definition formatTimestamp (now timestamp : number) : string :=
  let diffMs := fsub now timestamp in
  let diffMins := Math_floor (fdiv diffMs (num 60000)) in
  let diffHours := Math_floor (fdiv diffMs (num 3600000)) in
  let diffDays := Math_floor (fdiv diffMs (num 86400000)) in
  if flt diffMins (num 1) then "now"
  else if flt diffMins (num 60) then ToString diffMins ++ "m"
  else if flt diffHours (num 24) then ToString diffHours ++ "h"
  else if flt diffDays (num 7) then ToString diffDays ++ "d"
  else toLocaleDateString timestamp.

End FormatTimestamp.

End ConjugationHistory.

(** ** The model of the built-ins on sample values *)

Module Samples.

Import Number Text Builtin.
Local Open Scope string_scope.

Definition samples : list number :=
  map parseFloat
    ["0"; "-0"; "1"; "0.1"; "0.2"; "0.37"; "100"; "0.7461"; "-0.3"; "1e21";
     "5e-324"; "1.7976931348623157e308"; "9007199254740993"; "Infinity";
     "x"].

Definition same (a b : number) : bool :=
  match a, b with
  | NaN, NaN => true
  | Zero s, Zero t | Inf s, Inf t => Bool.eqb s t
  | Fin s m e, Fin t n f => Bool.eqb s t && Pos.eqb m n && Z.eqb e f
  | _, _ => false
  end.

Definition agree (f g : number -> number -> number) : bool :=
  forallb (fun a => forallb (fun b => same (f a b) (g a b)) samples) samples.

(** Sums, differences, products and quotients are those of the Standard
    Library's IEEE 754 binary64 operations. *)
Example arithmetic_agrees :
  agree fadd (SFadd 53 1024) = true
  /\ agree fsub (SFsub 53 1024) = true
  /\ agree fmul (SFmul 53 1024) = true
  /\ agree fdiv (SFdiv 53 1024) = true.
Proof. split; [| split; [| split]]; vm_compute; reflexivity. Qed.

Example samples_are_binary64 : forallb is_double samples = true.
Proof. vm_compute. reflexivity. Qed.

Example sum_of_tenths :
  ToString (fadd (num 0.1) (num 0.2)) = "0.30000000000000004".
Proof. vm_compute. reflexivity. Qed.

Example toString_samples :
  map ToString samples
  = ["0"; "0"; "1"; "0.1"; "0.2"; "0.37"; "100"; "0.7461"; "-0.3"; "1e+21";
     "5e-324"; "1.7976931348623157e+308"; "9007199254740992"; "Infinity";
     "NaN"].
Proof. vm_compute. reflexivity. Qed.

(** Numbers that lie halfway between two decimals of the shortest length:
    the text ends in the even digit. *)
Example toString_ties :
  map (fun q => ToString (num q))
    [0.75000762939453125%Q; 0.125003814697265625%Q]
  = ["0.7500076293945312"; "0.12500381469726562"].
Proof. vm_compute. reflexivity. Qed.

Example parseFloat_prefix :
  map (fun t => ToString (parseFloat t))
    ["1.2.3"; "."; ".5"; "5."; "  42px"; "-12.5e3"; "1e"; "..5"]
  = ["1.2"; "NaN"; "0.5"; "5"; "42"; "-12500"; "1"; "NaN"].
Proof. vm_compute. reflexivity. Qed.

Example toFixed_samples :
  map (fun x => toFixed (num (fst x)) (snd x))
    [(1.005%Q, 2%Z); (8.345%Q, 2%Z); (2.5%Q, 0%Z); ((-1.5)%Q, 0%Z);
     ((-0.001)%Q, 2%Z); (0.00005%Q, 4%Z); (999.995%Q, 2%Z); (1%Q, 101%Z)]
  = [Normal "1.00"; Normal "8.35"; Normal "3"; Normal "-2"; Normal "-0.00";
     Normal "0.0001"; Normal "1000.00"; Throw RangeError].
Proof. vm_compute. reflexivity. Qed.

End Samples.

(** * Vocabulary of the properties *)

Module Spec.

Import Number Text Builtin Regex ThemeColors.
Local Open Scope string_scope.

(** The exponent and the mantissa that [RN] gives to [q]. *)
Definition exponent_of (q : Q) : Z := Z.max emin (Qlog2 q - (prec - 1))%Z.
Definition mantissa_of (q : Q) : Z := round_half_even (q / 2 ^ exponent_of q)%Q.

(** The decimal s * 10^(n-k). *)
Definition value (s n k : Z) : Q := (inject_Z s * 10 ^ (n - k))%Q.

(** The number that a decimal numeral denotes: its digits as an integer,
    scaled by the number of fraction digits. *)
Definition decimal (d f : Z) : number :=
  if (d =? 0)%Z then Zero false else RN false (inject_Z d * 10 ^ (0 - f))%Q.

(** [matches r t m m']: the pattern [r] matches exactly the text [t], and
    turns the captures [m] into [m']. *)
Inductive matches : regex -> string -> captures -> captures -> Prop :=
| m_str t m : matches (Str t) t m m
| m_star p t m : all p t = true -> matches (Star p) t m m
| m_plus p t m : all p t = true -> t <> "" -> matches (Plus p) t m m
| m_opt_some r t m m' : matches r t m m' -> matches (Opt r) t m m'
| m_opt_none r m : matches (Opt r) "" m m
| m_seq r1 r2 t1 t2 m m1 m2 :
    matches r1 t1 m m1 -> matches r2 t2 m1 m2 ->
    matches (Seq r1 r2) (t1 ++ t2) m m2
| m_cap i r t m m' : matches r t m m' -> matches (Cap i r) t m ((i, t) :: m').

(** The characters that the pattern admits between "oklch(" and ")". *)
Definition pattern_char (c : ascii) : bool :=
  is_space c || is_digit_or_dot c || Ascii.eqb c "%" || Ascii.eqb c "/".

(** The captures of a match: groups 1 to 3, and group 4 when the alpha
    part took part in the match. *)
Definition oklch_captures (l c h : string) (a : option string) : captures :=
  match a with
  | Some t => [(4%nat, t); (3%nat, h); (2%nat, c); (1%nat, l)]
  | None => [(3%nat, h); (2%nat, c); (1%nat, l)]
  end.

(** The text between the parentheses of a single "oklch(...)" term has no
    closing parenthesis and no letter o. *)
Definition inner_char (c : ascii) : bool :=
  negb (Ascii.eqb c ")") && negb (Ascii.eqb c "o").

Definition has_minus (t : string) : bool :=
  negb (all (fun c => negb (Ascii.eqb c "-")) t).



(** [x] is finite and below 10^21 in magnitude. *)
Definition below_1e21 (x : number) : Prop :=
  is_finite x = true /\ (Qabs (toQ x) < 10 ^ 21)%Q.

Definition unsigned (t : string) : string :=
  match t with
  | String "-" r => r
  | _ => t
  end.

(** [t] is a decimal numeral with exactly [f] digits after the point:
    an optional minus sign, at least one digit, a point, [f] digits. *)
Definition is_fixed (f : Z) (t : string) : bool :=
  let (ip, r) := span is_digit (unsigned t) in
  match ip, r with
  | String _ _, String "." fp => all is_digit fp && (len fp =? f)%Z
  | _, _ => false
  end.

(** The formatter writes L * 100 with two decimals and a percent sign,
    C with four decimals, H with two decimals, and A as it is. *)
Definition rendered_fixed (L C H A : number) : Prop :=
  exists l c h : string,
    toFixed (fmul L (num 100)) 2 = Normal l
    /\ toFixed C 4 = Normal c
    /\ toFixed H 2 = Normal h
    /\ is_fixed 2 l = true /\ is_fixed 4 c = true /\ is_fixed 2 h = true
    /\ formatOklch L C H A
       = Normal ("oklch(" ++ l ++ "% " ++ c ++ " " ++ h ++ " / "
                 ++ ToString A ++ ")").

(** [a] is a finite number within [tol] of [b]. *)
Definition within (tol : Q) (a b : number) : Prop :=
  is_finite a = true /\ (Qabs (toQ a - toQ b) <= tol)%Q.

(** Parsing what the formatter wrote for L, C, H, A succeeds and gives
    each component back within 1e-2. *)
Definition round_trips (L C H A : number) : Prop :=
  exists (s : string) (p : oklch),
    formatOklch L C H A = Normal s
    /\ parseOklch s = Some p
    /\ within (1 # 100) (ThemeColors.L p) L
    /\ within (1 # 100) (ThemeColors.C p) C
    /\ within (1 # 100) (ThemeColors.H p) H
    /\ within (1 # 100) (ThemeColors.A p) A.

(** A finite binary64 number. *)
Definition binary64 (x : number) : Prop :=
  is_double x = true /\ is_finite x = true.

End Spec.

(** ** Vocabulary of the further properties *)

(** *** The terms that [parseOklch] accepts *)

Module Grammar.

Import Number Text Builtin Regex ThemeColors Spec.
Local Open Scope string_scope.

(** The parts of a term that the pattern of [parseOklch] matches. *)
Record oklch_term : Type := {
  lead : string;                     (* white space after "oklch(" *)
  lightness : string;                (* the lightness literal *)
  percent : bool;                    (* a percent sign follows it *)
  gap1 : string;                     (* white space before the chroma *)
  chroma : string;
  gap2 : string;                     (* white space before the hue *)
  hue : string;
  gap3 : string;                     (* white space after the hue *)
  alpha : option (string * string);  (* after "/": white space, literal *)
  trail : string                     (* white space before ")" *)
}.

(** A literal of the pattern: digits and dots, at least one. *)
Definition literal (t : string) : Prop :=
  all is_digit_or_dot t = true /\ t <> "".

(** White space, possibly none. *)
Definition blank (t : string) : Prop := all is_space t = true.

(** The parts of [t] are as the pattern requires: literals where numbers
    stand, white space between them, at least one white space before the
    chroma and before the hue. *)
Definition well_formed (t : oklch_term) : Prop :=
  blank (lead t) /\ literal (lightness t)
  /\ blank (gap1 t) /\ gap1 t <> "" /\ literal (chroma t)
  /\ blank (gap2 t) /\ gap2 t <> "" /\ literal (hue t)
  /\ blank (gap3 t)
  /\ match alpha t with
     | Some (w, a) => blank w /\ literal a
     | None => True
     end
  /\ blank (trail t).

(** The text of the optional alpha part. *)
Definition alpha_text (a : option (string * string)) : string :=
  match a with
  | Some (w, t) => "/" ++ w ++ t
  | None => ""
  end.

(** The text of a term. *)
Definition term_text (t : oklch_term) : string :=
  "oklch(" ++ lead t ++ lightness t ++ (if percent t then "%" else "")
  ++ gap1 t ++ chroma t ++ gap2 t ++ hue t ++ gap3 t
  ++ alpha_text (alpha t) ++ trail t ++ ")".

(** What the literals of a term read as: each one through [parseFloat],
    the lightness divided by 100 when it exceeds 1, and 1 for a missing
    alpha. *)
Definition reading (t : oklch_term) : oklch :=
  let v := parseFloat (lightness t) in
  {| L := if fgt v (num 1) then fdiv v (num 100) else v;
     C := parseFloat (chroma t);
     H := parseFloat (hue t);
     A := match alpha t with
          | Some (_, a) => parseFloat a
          | None => num 1
          end |}.

(** [needle] occurs somewhere in [s]. *)
Fixpoint occurs (needle s : string) : bool :=
  match strip_prefix needle s with
  | Some _ => true
  | None =>
      match s with
      | EmptyString => false
      | String _ s' => occurs needle s'
      end
  end.

(** [t] holds no closing parenthesis. *)
Definition unclosed (t : string) : Prop :=
  all (fun c => negb (Ascii.eqb c ")")) t = true.

(** The captures of a match of the term [t]. *)
Definition captures_of (t : oklch_term) : captures :=
  oklch_captures (lightness t) (chroma t) (hue t) (option_map snd (alpha t)).

(** The term [t] with or without the percent sign. *)
Definition with_percent (b : bool) (t : oklch_term) : oklch_term :=
  {| lead := lead t; lightness := lightness t; percent := b; gap1 := gap1 t;
     chroma := chroma t; gap2 := gap2 t; hue := hue t; gap3 := gap3 t;
     alpha := alpha t; trail := trail t |}.

(** The digits of a literal before its first point, and those between
    the first point and the second. *)
Definition literal_digits (t : string) : string * string :=
  let (ip, r) := span is_digit t in
  let (fp, _) := read_fraction r in
  (ip, fp).

(** The number that a literal denotes: these digits as a decimal, and
    NaN when there is none. *)
Definition literal_value (t : string) : number :=
  let (ip, fp) := literal_digits t in
  match ip ++ fp with
  | EmptyString => NaN
  | ds => decimal (digits_val ds) (len fp)
  end.

(** A binary64 value that is NaN or at least 0, and is not -0. *)
Definition not_negative (x : number) : Prop :=
  is_double x = true /\ sign_of x = false
  /\ (is_nan x = true \/ fle (num 0) x = true).


End Grammar.

(** *** Ranges of coefficients and of derived components *)

Module Ranges.

Import Number Builtin Spec.
Local Open Scope Q_scope.

(** The number 2^e. *)
Definition pow2 (e : Z) : number := Fin false 4503599627370496 (e - 52).

(** An optional coefficient that, when it is given, is a finite binary64
    number between [lo] and [hi]. *)
Definition coefficient (lo hi : Q) (arg : option number) : Prop :=
  match arg with
  | Some v => binary64 v /\ lo <= toQ v <= hi
  | None => True
  end.

(** [l'] is finite and at least 0.05, and is at most [l] unless it is
    0.05. *)
Definition floored_below (l l' : number) : Prop :=
  is_finite l' = true
  /\ toQ (num 0.05) <= toQ l'
  /\ (toQ l' <= toQ l \/ l' = num 0.05).

(** [c'] is finite and at most 0.37, and is at least [c] unless it is
    0.37. *)
Definition capped_above (c c' : number) : Prop :=
  is_finite c' = true
  /\ toQ c' <= toQ (num 0.37)
  /\ (toQ c <= toQ c' \/ c' = num 0.37).

End Ranges.

(** *** Ages of history entries *)

Module Elapsed.

Import Number Text Builtin ConjugationHistory.
Local Open Scope string_scope.
Local Open Scope Z_scope.

(** A time in milliseconds since the epoch, as [Date.now()] returns it. *)
Definition time_value (t : Z) : Prop := 0 < t < 2 ^ 53.

(** The label of an age of [d] milliseconds, in whole minutes, hours or
    days; [date] stands for the date of the entry. *)
Definition age_label (d : Z) (date : string) : string :=
  if d <? 60000 then "now"
  else if d <? 3600000 then Z_to_digits (d / 60000) ++ "m"
  else if d <? 86400000 then Z_to_digits (d / 3600000) ++ "h"
  else if d <? 604800000 then Z_to_digits (d / 86400000) ++ "d"
  else date.

End Elapsed.

(** * Properties *)

(** ** Numbers *)

Module NumberFacts.

Import Number.








End NumberFacts.

(** ** Rounding *)

Module RoundingFacts.

Import Number Spec.
Local Open Scope Q_scope.

Lemma pow_pos (b : Q) (e : Z) : 0 < b -> 0 < b ^ e.
Proof. apply Qpower_0_lt. Qed.

Lemma pow_add (b : Q) (a c : Z) : 0 < b -> b ^ (a + c) == b ^ a * b ^ c.
Proof. intros Hb. apply Qpower_plus. lra. Qed.

Lemma pow_succ (b : Q) (a : Z) : 0 < b -> b ^ (a + 1) == b ^ a * b.
Proof. intros Hb. rewrite pow_add by assumption. now rewrite Qpower_1_r. Qed.

Lemma pow_pred (b : Q) (a : Z) : 0 < b -> b ^ (a - 1) * b == b ^ a.
Proof.
  intros Hb. rewrite <- (pow_succ b (a - 1)) by assumption.
  now replace (a - 1 + 1)%Z with a by lia.
Qed.

Lemma pow_le (b : Q) (a c : Z) : 1 <= b -> (a <= c)%Z -> b ^ a <= b ^ c.
Proof. intros Hb Hac. now apply Qpower_le_compat_l. Qed.

Lemma pow_lt (b : Q) (a c : Z) : 1 < b -> (a < c)%Z -> b ^ a < b ^ c.
Proof. intros Hb Hac. now apply Qpower_lt_compat_l. Qed.

(** An exponent is determined by the power interval it puts [q] in. *)
Lemma pow_interval_unique (b q : Q) (j k : Z) :
  1 < b -> b ^ j <= q < b ^ (j + 1) -> b ^ k <= q < b ^ (k + 1) -> j = k.
Proof.
  intros Hb [Hj1 Hj2] [Hk1 Hk2].
  assert (j < k + 1)%Z.
  { apply (Qpower_lt_compat_l_inv b); [| assumption]. lra. }
  assert (k < j + 1)%Z.
  { apply (Qpower_lt_compat_l_inv b); [| assumption]. lra. }
  lia.
Qed.

Lemma inject_pow (a n : Z) : (0 <= n)%Z -> inject_Z (a ^ n) == inject_Z a ^ n.
Proof. apply Zpower_Qpower. Qed.

Lemma inject_le (a b : Z) : (a <= b)%Z -> inject_Z a <= inject_Z b.
Proof. intros H. unfold Qle. simpl. lia. Qed.

Lemma inject_lt (a b : Z) : (a < b)%Z -> inject_Z a < inject_Z b.
Proof. intros H. unfold Qlt. simpl. lia. Qed.

Lemma Qlog2_spec (q : Q) : 0 < q -> 2 ^ Qlog2 q <= q < 2 ^ (Qlog2 q + 1).
Proof.
  intros Hq. unfold Qlog2.
  destruct q as [n d]. simpl Qnum. simpl Qden.
  assert (Hn : (0 < n)%Z).
  { unfold Qlt in Hq. simpl in Hq. lia. }
  set (a := Z.log2 n). set (b := Z.log2 (Z.pos d)).
  destruct (Z.log2_spec n Hn) as [Ha1 Ha2]. fold a in Ha1, Ha2.
  destruct (Z.log2_spec (Z.pos d) ltac:(lia)) as [Hb1 Hb2]. fold b in Hb1, Hb2.
  assert (Ha0 : (0 <= a)%Z) by apply Z.log2_nonneg.
  assert (Hb0 : (0 <= b)%Z) by apply Z.log2_nonneg.
  assert (HA : inject_Z (2 ^ a) == 2 ^ a) by now apply inject_pow.
  assert (HB : inject_Z (2 ^ b) == 2 ^ b) by now apply inject_pow.
  assert (HA' : inject_Z (2 ^ Z.succ a) == 2 ^ a * 2).
  { rewrite inject_pow by lia. apply pow_succ. lra. }
  assert (HB' : inject_Z (2 ^ Z.succ b) == 2 ^ b * 2).
  { rewrite inject_pow by lia. apply pow_succ. lra. }
  assert (Ha1q : 2 ^ a <= inject_Z n).
  { rewrite <- HA. now apply inject_le. }
  assert (Ha2q : inject_Z n < 2 ^ a * 2).
  { rewrite <- HA'. now apply inject_lt. }
  assert (Hb1q : 2 ^ b <= inject_Z (Z.pos d)).
  { rewrite <- HB. now apply inject_le. }
  assert (Hb2q : inject_Z (Z.pos d) < 2 ^ b * 2).
  { rewrite <- HB'. now apply inject_lt. }
  clear Ha1 Ha2 Hb1 Hb2 HA HB HA' HB'.
  assert (Hqd : (n # d) * inject_Z (Z.pos d) == inject_Z n).
  { rewrite Qmake_Qdiv. field. intros H.
    assert (0 < inject_Z (Z.pos d)) by reflexivity. lra. }
  set (q := n # d) in *.
  set (N := inject_Z n) in *. set (D := inject_Z (Z.pos d)) in *.
  assert (Hk : 2 ^ (a - b) * 2 ^ b == 2 ^ a).
  { rewrite <- pow_add by lra. now replace (a - b + b)%Z with a by lia. }
  assert (HpA := pow_pos 2 a ltac:(lra)).
  assert (HpB := pow_pos 2 b ltac:(lra)).
  assert (HpK := pow_pos 2 (a - b) ltac:(lra)).
  assert (Hlo : 2 ^ (a - b - 1) < q).
  { assert (E := pow_pred 2 (a - b) ltac:(lra)).
    assert (HpK' := pow_pos 2 (a - b - 1) ltac:(lra)).
    nra. }
  assert (Hhi : q < 2 ^ (a - b + 1)).
  { rewrite pow_succ by lra. nra. }
  destruct (Qle_bool (2 ^ (a - b)) q) eqn:Hc.
  - apply Qle_bool_iff in Hc. split; assumption.
  - assert (Hlt : q < 2 ^ (a - b)).
    { apply Qnot_le_lt. intros H. apply Qle_bool_iff in H. congruence. }
    replace (a - b - 1 + 1)%Z with (a - b)%Z by lia.
    split; [lra | assumption].
Qed.

(** *** Rounding to an integer *)

Lemma round_half_even_cases (x : Q) :
  let f := Qfloor x in
  (round_half_even x = f /\ x - inject_Z f <= 1 # 2)
  \/ (round_half_even x = (f + 1)%Z /\ 1 # 2 <= x - inject_Z f).
Proof.
  intros f. unfold round_half_even. fold f.
  destruct (x - inject_Z f ?= 1 # 2) eqn:Hc.
  - apply Qeq_alt in Hc. destruct (Z.even f); [left | right]; split; auto; lra.
  - apply Qlt_alt in Hc. left. split; auto; lra.
  - apply Qgt_alt in Hc. right. split; auto; lra.
Qed.

Lemma floor_bounds (x : Q) :
  inject_Z (Qfloor x) <= x < inject_Z (Qfloor x) + 1.
Proof.
  split; [apply Qfloor_le |].
  generalize (Qlt_floor x). rewrite inject_Z_plus. auto.
Qed.

(** No integer is nearer to [x] than [round_half_even x]. *)
Lemma round_half_even_nearest (x : Q) (k : Z) :
  Qabs (inject_Z (round_half_even x) - x) <= Qabs (inject_Z k - x).
Proof.
  destruct (floor_bounds x) as [Hf1 Hf2].
  assert (Hk : (k <= Qfloor x)%Z \/ (Qfloor x + 1 <= k)%Z) by lia.
  assert (Hk' : inject_Z k <= inject_Z (Qfloor x)
                \/ inject_Z (Qfloor x) + 1 <= inject_Z k).
  { destruct Hk as [Hk | Hk]; [left | right].
    - now apply inject_le.
    - change 1 with (inject_Z 1). rewrite <- inject_Z_plus.
      now apply inject_le. }
  destruct (round_half_even_cases x) as [[-> Hr] | [-> Hr]];
    try rewrite inject_Z_plus; change (inject_Z 1) with 1;
    apply Qabs_case; intros; apply Qabs_case; intros; lra.
Qed.

Lemma round_half_even_error (x : Q) :
  Qabs (inject_Z (round_half_even x) - x) <= 1 # 2.
Proof.
  destruct (floor_bounds x) as [Hf1 Hf2].
  destruct (round_half_even_cases x) as [[-> Hr] | [-> Hr]];
    try rewrite inject_Z_plus; change (inject_Z 1) with 1;
    apply Qabs_case; intros; lra.
Qed.

Lemma round_half_even_between (x : Q) (a b : Z) :
  inject_Z a <= x -> x <= inject_Z b ->
  (a <= round_half_even x <= b)%Z.
Proof.
  intros Ha Hb.
  destruct (floor_bounds x) as [Hf1 Hf2].
  assert (Hfa : (a <= Qfloor x)%Z).
  { rewrite <- (Qfloor_Z a). now apply Qfloor_resp_le. }
  assert (Hfb : (Qfloor x <= b)%Z).
  { rewrite <- (Qfloor_Z b). now apply Qfloor_resp_le. }
  destruct (round_half_even_cases x) as [[-> Hr] | [-> Hr]]; [lia |].
  split; [lia |].
  destruct (Z.eq_dec (Qfloor x) b) as [E | NE]; [| lia].
  rewrite E in Hr. lra.
Qed.

Lemma round_half_even_compat (x y : Q) :
  x == y -> round_half_even x = round_half_even y.
Proof.
  intros E. unfold round_half_even. rewrite (Qfloor_comp x y E).
  assert (E' : x - inject_Z (Qfloor y) == y - inject_Z (Qfloor y)) by lra.
  now rewrite (Qcompare_comp _ _ E' _ _ (Qeq_refl (1 # 2))).
Qed.

Lemma abs_scale (a b x p : Q) :
  0 < p -> Qabs (a - x) <= Qabs (b - x) ->
  Qabs (a * p - x * p) <= Qabs (b * p - x * p).
Proof.
  intros Hp H.
  setoid_replace (a * p - x * p) with ((a - x) * p) by ring.
  setoid_replace (b * p - x * p) with ((b - x) * p) by ring.
  rewrite !Qabs_Qmult. rewrite (Qabs_pos p) by lra.
  apply Qmult_le_compat_r; lra.
Qed.

(** *** Rounding to a binary64 number *)

Lemma mantissa_bounds (q : Q) :
  0 < q -> (0 <= mantissa_of q <= 2 ^ prec)%Z.
Proof.
  intros Hq. unfold mantissa_of.
  set (e := exponent_of q).
  assert (Hp := pow_pos 2 e ltac:(lra)).
  destruct (Qlog2_spec q Hq) as [_ Hhi].
  assert (He : (Qlog2 q + 1 <= e + prec)%Z) by (unfold e, exponent_of, prec; lia).
  assert (Hle := pow_le 2 _ _ ltac:(lra) He).
  rewrite (pow_add 2 e prec) in Hle by lra.
  assert (Hx : q / 2 ^ e <= 2 ^ prec).
  { apply Qle_shift_div_r; [assumption |]. lra. }
  apply round_half_even_between.
  - apply Qle_shift_div_l; [assumption |]. change (inject_Z 0) with 0. lra.
  - now rewrite inject_pow by (unfold prec; lia).
Qed.

Lemma exponent_small (q : Q) :
  0 < q -> q < 2 ^ 1023 -> (emin <= exponent_of q <= emax - 1)%Z.
Proof.
  intros Hq Hlt. unfold exponent_of.
  destruct (Qlog2_spec q Hq) as [Hlo _].
  assert (Qlog2 q < 1023)%Z.
  { apply (Qpower_lt_compat_l_inv 2); lra. }
  unfold emin, emax, prec. lia.
Qed.

Lemma mantissa_normal (q : Q) :
  0 < q -> exponent_of q <> emin -> (2 ^ (prec - 1) <= mantissa_of q)%Z.
Proof.
  intros Hq He. unfold mantissa_of.
  assert (E : exponent_of q = (Qlog2 q - (prec - 1))%Z)
    by (unfold exponent_of in *; lia).
  set (e := exponent_of q) in *.
  assert (Hp := pow_pos 2 e ltac:(lra)).
  destruct (Qlog2_spec q Hq) as [Hlo _].
  replace (Qlog2 q) with (prec - 1 + e)%Z in Hlo by lia.
  rewrite pow_add in Hlo by lra.
  apply (round_half_even_between _ _ (2 ^ prec)).
  - rewrite inject_pow by (unfold prec; lia). change (inject_Z 2) with 2.
    apply Qle_shift_div_l; [assumption |]. exact Hlo.
  - destruct (Qlog2_spec q Hq) as [_ Hhi].
    replace (Qlog2 q + 1)%Z with (prec + e)%Z in Hhi by lia.
    rewrite pow_add in Hhi by lra.
    rewrite inject_pow by (unfold prec; lia). change (inject_Z 2) with 2.
    apply Qle_shift_div_r; [assumption |]. lra.
Qed.

Lemma is_double_intro (s : bool) (m e : Z) :
  (0 < m < 2 ^ prec)%Z -> (emin <= e <= emax)%Z ->
  (e = emin \/ 2 ^ (prec - 1) <= m)%Z ->
  is_double (Fin s (Z.to_pos m) e) = true.
Proof.
  intros Hm He Hn. unfold is_double. rewrite Z2Pos.id by lia.
  repeat (apply andb_true_intro; split).
  - apply Z.leb_le. lia.
  - apply Z.leb_le. lia.
  - apply Z.ltb_lt. lia.
  - apply orb_true_iff. destruct Hn as [-> | Hn].
    + left. apply Z.eqb_refl.
    + right. now apply Z.leb_le.
Qed.

(** The value of [RN s q]: the rounded mantissa, scaled. *)
Lemma RN_value (s : bool) (q : Q) :
  0 < q -> q < 2 ^ 1023 ->
  is_finite (RN s q) = true
  /\ is_double (RN s q) = true
  /\ sign_of (RN s q) = s
  /\ toQ (fabs (RN s q)) == inject_Z (mantissa_of q) * 2 ^ exponent_of q.
Proof.
  intros Hq Hlt. unfold RN. fold (exponent_of q). fold (mantissa_of q).
  destruct (mantissa_bounds q Hq) as [Hm0 Hm1].
  destruct (exponent_small q Hq Hlt) as [He0 He1].
  assert (Hn := mantissa_normal q Hq).
  set (e := exponent_of q) in *. set (m := mantissa_of q) in *.
  destruct (Z.eqb_spec m (2 ^ prec)) as [E | NE].
  - change (2 ^ (prec - 1) =? 0)%Z with false. cbv iota.
    destruct (Z.ltb_spec emax (e + 1)); [lia |].
    repeat split.
    + apply is_double_intro; [unfold prec | | right]; lia.
    + rewrite E.
      change (toQ (fabs (Fin s (Z.to_pos (2 ^ (prec - 1))) (e + 1))))
        with (2 ^ 52 * 2 ^ (e + 1)).
      rewrite pow_succ by lra.
      change (inject_Z (2 ^ prec)) with (2 ^ 52 * 2). ring.
  - destruct (Z.eqb_spec m 0) as [E0 | NE0].
    + repeat split; simpl. rewrite E0. ring.
    + destruct (Z.ltb_spec emax e); [lia |].
      repeat split.
      * apply is_double_intro; [lia | lia |].
        destruct (Z.eq_dec e emin); [now left | right; auto].
      * simpl. rewrite Z2Pos.id by lia. reflexivity.
Qed.

Lemma fabs_positive (x : number) :
  is_finite x = true -> sign_of x = false -> fabs x = x.
Proof. destruct x as [s | s | | s m e]; simpl; try discriminate; now intros _ ->. Qed.

Lemma RN_toQ (q : Q) :
  0 < q -> q < 2 ^ 1023 ->
  toQ (RN false q) == inject_Z (mantissa_of q) * 2 ^ exponent_of q.
Proof.
  intros Hq Hlt. destruct (RN_value false q Hq Hlt) as (Hf & _ & Hs & Hv).
  now rewrite fabs_positive in Hv.
Qed.

Lemma scaled_back (q : Q) (e : Z) : q / 2 ^ e * 2 ^ e == q.
Proof. field. assert (H := pow_pos 2 e ltac:(lra)). lra. Qed.

(** The rounding error is at most half a unit in the last place. *)
Lemma RN_error (q : Q) :
  0 < q -> q < 2 ^ 1023 ->
  Qabs (toQ (RN false q) - q) <= (1 # 2) * 2 ^ exponent_of q.
Proof.
  intros Hq Hlt. rewrite (RN_toQ q Hq Hlt). unfold mantissa_of.
  set (e := exponent_of q). assert (Hp := pow_pos 2 e ltac:(lra)).
  assert (H := round_half_even_error (q / 2 ^ e)).
  setoid_replace (inject_Z (round_half_even (q / 2 ^ e)) * 2 ^ e - q)
    with ((inject_Z (round_half_even (q / 2 ^ e)) - q / 2 ^ e) * 2 ^ e)
    by (field; lra).
  rewrite Qabs_Qmult, (Qabs_pos (2 ^ e)) by lra.
  apply Qmult_le_compat_r; lra.
Qed.

(** The relative rounding error of a result in the normal range is at
    most 2^-53. *)
Lemma RN_relative_error (q : Q) :
  2 ^ (-1022) <= q -> q < 2 ^ 1023 ->
  Qabs (toQ (RN false q) - q) <= q * 2 ^ (-53).
Proof.
  intros Hlo Hhi.
  assert (Hq : 0 < q).
  { assert (H := pow_pos 2 (-1022) ltac:(lra)). lra. }
  eapply Qle_trans; [apply RN_error; assumption |].
  destruct (Qlog2_spec q Hq) as [Hl1 Hl2].
  assert (Hk : (-1022 <= Qlog2 q)%Z).
  { assert (-1022 < Qlog2 q + 1)%Z; [| lia].
    apply (Qpower_lt_compat_l_inv 2); lra. }
  assert (E : exponent_of q = (Qlog2 q + - 52)%Z)
    by (unfold exponent_of, emin, prec; lia).
  rewrite E, pow_add by lra.
  change (2 ^ (-53)) with ((1 # 2) * 2 ^ (-52)).
  assert (Hp := pow_pos 2 (-52) ltac:(lra)).
  nra.
Qed.

(** No binary64 number is nearer to [q] than [RN false q]. *)
Lemma RN_nearest (q : Q) (y : number) :
  0 < q -> q < 2 ^ 1023 ->
  is_double y = true ->
  Qabs (toQ (RN false q) - q) <= Qabs (toQ y - q).
Proof.
  intros Hq Hlt Hy. rewrite (RN_toQ q Hq Hlt). unfold mantissa_of.
  set (e := exponent_of q). assert (Hp := pow_pos 2 e ltac:(lra)).
  set (x := q / 2 ^ e).
  assert (Hx : x * 2 ^ e == q) by apply scaled_back.
  assert (Hint : forall k : Z,
             Qabs (inject_Z (round_half_even x) * 2 ^ e - q)
             <= Qabs (inject_Z k * 2 ^ e - q)).
  { intros k. rewrite <- Hx. apply abs_scale; [assumption |].
    apply round_half_even_nearest. }
  assert (Hzero : Qabs (inject_Z (round_half_even x) * 2 ^ e - q) <= q).
  { eapply Qle_trans; [apply (Hint 0%Z) |].
    apply Qabs_case; intros; change (inject_Z 0) with 0 in *; lra. }
  assert (Hneg : forall v, v <= 0 ->
             Qabs (inject_Z (round_half_even x) * 2 ^ e - q) <= Qabs (v - q)).
  { intros v Hv. eapply Qle_trans; [exact Hzero |].
    apply Qabs_case; intros; lra. }
  destruct y as [sy | sy | | sy my ey]; simpl toQ; try (apply Hneg; lra).
  assert (Hmy : 0 < inject_Z (Z.pos my)) by reflexivity.
  assert (Hpy := pow_pos 2 ey ltac:(lra)).
  destruct sy.
  { apply Hneg. nra. }
  destruct (Z_le_gt_dec e ey) as [Hle | Hgt].
  - (* y is a multiple of 2^e *)
    assert (E : inject_Z (Z.pos my) * 2 ^ ey
                == inject_Z (Z.pos my * 2 ^ (ey - e)) * 2 ^ e).
    { rewrite inject_Z_mult, inject_pow by lia. change (inject_Z 2) with 2.
      rewrite <- Qmult_assoc, <- pow_add by lra.
      now replace (ey - e + e)%Z with ey by lia. }
    rewrite E. apply Hint.
  - (* y is below the binade of q *)
    unfold is_double in Hy.
    apply andb_prop in Hy as [Hy _]. apply andb_prop in Hy as [Hy Hm].
    apply andb_prop in Hy as [He _].
    apply Z.leb_le in He. apply Z.ltb_lt in Hm.
    assert (Eq : e = (Qlog2 q - (prec - 1))%Z)
      by (unfold e, exponent_of in *; lia).
    destruct (Qlog2_spec q Hq) as [Hlo _].
    replace (Qlog2 q) with (prec - 1 + e)%Z in Hlo by lia.
    rewrite pow_add in Hlo by lra.
    assert (Hyv : inject_Z (Z.pos my) * 2 ^ ey <= 2 ^ (prec - 1) * 2 ^ e).
    { assert (Hm' : inject_Z (Z.pos my) <= 2 ^ prec).
      { rewrite <- (inject_pow 2 prec) by (unfold prec; lia).
        apply inject_le. lia. }
      assert (Hey : 2 ^ ey <= 2 ^ (e - 1)) by (apply pow_le; [lra | lia]).
      assert (Epred := pow_pred 2 e ltac:(lra)).
      change (2 ^ prec) with (2 ^ (prec - 1) * 2) in Hm'.
      assert (Hp1 := pow_pos 2 (e - 1) ltac:(lra)).
      assert (Hp2 := pow_pos 2 (prec - 1) ltac:(lra)).
      nra. }
    eapply Qle_trans; [apply (Hint (2 ^ (prec - 1))%Z) |].
    rewrite inject_pow by (unfold prec; lia). change (inject_Z 2) with 2.
    apply Qabs_case; intros; apply Qabs_case; intros; lra.
Qed.

Lemma Qlog2_compat (q q' : Q) : 0 < q -> q == q' -> Qlog2 q = Qlog2 q'.
Proof.
  intros Hq E. assert (Hq' : 0 < q') by now rewrite <- E.
  apply (pow_interval_unique 2 q); [lra | now apply Qlog2_spec |].
  rewrite E. now apply Qlog2_spec.
Qed.

(** Rounding depends on the value only, not on how the rational is
    written. *)
Lemma RN_compat (s : bool) (q q' : Q) : 0 < q -> q == q' -> RN s q = RN s q'.
Proof.
  intros Hq E. unfold RN. rewrite (Qlog2_compat q q' Hq E).
  set (e := Z.max emin (Qlog2 q' - (prec - 1))).
  assert (E' : q / 2 ^ e == q' / 2 ^ e) by now rewrite E.
  now rewrite (round_half_even_compat _ _ E').
Qed.
Lemma inject_lt_inv (a b : Z) : inject_Z a < inject_Z b -> (a < b)%Z.
Proof. unfold Qlt. simpl. lia. Qed.

Lemma inject_le_inv (a b : Z) : inject_Z a <= inject_Z b -> (a <= b)%Z.
Proof. unfold Qle. simpl. lia. Qed.

Lemma inject_pow10 (k : Z) : (0 <= k)%Z -> inject_Z (10 ^ k) == 10 ^ k.
Proof. intros Hk. now rewrite inject_pow. Qed.

End RoundingFacts.

(** ** Strings *)

Module TextFacts.

Import Text.
Local Open Scope string_scope.

Lemma app_assoc (a b c : string) : (a ++ b) ++ c = a ++ (b ++ c).
Proof. induction a as [| x a IH]; simpl; [reflexivity | now rewrite IH]. Qed.

Lemma app_nil_r (a : string) : a ++ "" = a.
Proof. induction a as [| x a IH]; simpl; [reflexivity | now rewrite IH]. Qed.

Lemma length_app (a b : string) :
  String.length (a ++ b) = (String.length a + String.length b)%nat.
Proof. induction a as [| x a IH]; simpl; [reflexivity | now rewrite IH]. Qed.

Lemma all_app (p : ascii -> bool) (a b : string) :
  all p (a ++ b) = all p a && all p b.
Proof.
  induction a as [| x a IH]; simpl; [reflexivity |].
  rewrite IH. now rewrite andb_assoc.
Qed.

Lemma all_weaken (p q : ascii -> bool) (t : string) :
  (forall c, p c = true -> q c = true) -> all p t = true -> all q t = true.
Proof.
  intros Hpq. induction t as [| c t IH]; simpl; [reflexivity |].
  intros Hc. apply andb_prop in Hc as [Hc Ht].
  now rewrite (Hpq _ Hc), (IH Ht).
Qed.

Lemma substring_0_app (a b : string) :
  substring 0 (String.length a) (a ++ b) = a.
Proof. induction a as [| x a IH]; simpl; [now destruct b | now rewrite IH]. Qed.

Lemma strip_prefix_app (t s : string) : strip_prefix t (t ++ s) = Some s.
Proof.
  induction t as [| x t IH]; simpl; [reflexivity |].
  now rewrite Ascii.eqb_refl.
Qed.

Lemma strip_prefix_some (t s s' : string) :
  strip_prefix t s = Some s' -> s = t ++ s'.
Proof.
  revert s. induction t as [| x t IH]; intros s; simpl.
  - now intros [= ->].
  - destruct s as [| y s]; [discriminate |].
    destruct (Ascii.eqb_spec x y) as [-> | _]; [| discriminate].
    intros Hs. now rewrite (IH _ Hs).
Qed.

(** A character that [p] rejects occurs at the same place in two strings
    that agree and whose parts before it satisfy [p]. *)
Lemma split_at_stop (p : ascii -> bool) (a b a' b' : string) (c : ascii) :
  p c = false -> all p a = true -> all p a' = true ->
  a ++ String c b = a' ++ String c b' -> a = a' /\ b = b'.
Proof.
  intros Hc. revert a'.
  induction a as [| x a IH]; intros [| y a']; simpl; intros Ha Ha' E.
  - now injection E.
  - injection E as -> _. apply andb_prop in Ha' as [Hy _]. congruence.
  - injection E as -> _. apply andb_prop in Ha as [Hx _]. congruence.
  - injection E as -> E.
    apply andb_prop in Ha as [_ Ha]. apply andb_prop in Ha' as [_ Ha'].
    destruct (IH a' Ha Ha' E) as [-> ->]. now split.
Qed.

End TextFacts.

(** ** Decimal digits *)

Module DigitFacts.

Import Text TextFacts.
Local Open Scope string_scope.
Local Open Scope Z_scope.

Lemma digit_char_spec (d : Z) :
  0 <= d <= 9 -> is_digit (digit_char d) = true /\ digit_val (digit_char d) = d.
Proof.
  intros Hd.
  assert (H : d = 0 \/ d = 1 \/ d = 2 \/ d = 3 \/ d = 4 \/ d = 5 \/ d = 6
              \/ d = 7 \/ d = 8 \/ d = 9) by lia.
  repeat (destruct H as [-> | H]; [split; reflexivity |]).
  subst. split; reflexivity.
Qed.

Lemma len_app (a b : string) : len (a ++ b) = len a + len b.
Proof. unfold len. rewrite length_app. lia. Qed.

Lemma len_nonneg (a : string) : 0 <= len a.
Proof. unfold len. lia. Qed.

Lemma len_cons (c : ascii) (a : string) : len (String c a) = len a + 1.
Proof. unfold len. simpl String.length. lia. Qed.

Lemma digits_val_acc_value (s : string) :
  forall a, digits_val_acc a s = a * 10 ^ len s + digits_val s.
Proof.
  unfold digits_val.
  induction s as [| c s IH]; intros a; cbn [digits_val_acc].
  - change (len "") with 0. lia.
  - rewrite (IH (10 * a + digit_val c)), (IH (10 * 0 + digit_val c)).
    rewrite len_cons, Z.pow_add_r by (try apply len_nonneg; lia). lia.
Qed.

Lemma digits_val_app (a b : string) :
  digits_val (a ++ b) = digits_val a * 10 ^ len b + digits_val b.
Proof.
  unfold digits_val at 1. revert b.
  assert (H : forall acc b, digits_val_acc acc (a ++ b)
                            = digits_val_acc (digits_val_acc acc a) b).
  { induction a as [| c a IH]; intros acc b; simpl; [reflexivity | apply IH]. }
  intros b. rewrite H. now rewrite digits_val_acc_value.
Qed.

Lemma all_repeat (p : ascii -> bool) (c : ascii) (n : nat) :
  p c = true -> all p (repeat c n) = true.
Proof. intros Hc. induction n; simpl; [reflexivity | now rewrite Hc]. Qed.

Lemma zeros_spec (k : Z) :
  0 <= k ->
  all is_digit (zeros k) = true /\ len (zeros k) = k /\ digits_val (zeros k) = 0.
Proof.
  intros Hk. unfold zeros. split; [now apply all_repeat |].
  rewrite <- (Z2Nat.id k) at 2 by assumption.
  generalize (Z.to_nat k). intros n. unfold len, digits_val.
  induction n as [| n [IH1 IH2]]; simpl; [split; reflexivity |].
  split; [lia |]. exact IH2.
Qed.

(** The digits that [digits_fuel] puts in front of [acc]. *)
Lemma digits_fuel_spec (fuel : nat) :
  forall n acc,
    0 <= n < 10 ^ Z.of_nat (S fuel) ->
    exists ds,
      digits_fuel (S fuel) n acc = ds ++ acc
      /\ all is_digit ds = true
      /\ digits_val ds = n
      /\ 1 <= len ds
      /\ n < 10 ^ len ds
      /\ (0 < n -> 10 ^ (len ds - 1) <= n).
Proof.
  induction fuel as [| fuel IH]; intros n acc Hn;
    assert (Hmod := Z.mod_pos_bound n 10 ltac:(lia));
    assert (Hdiv := Z.div_mod n 10 ltac:(lia));
    destruct (digit_char_spec (n mod 10) ltac:(lia)) as [Hd1 Hd2].
  - change (10 ^ Z.of_nat 1) with 10 in Hn.
    assert (Hz : n / 10 = 0) by (apply Z.div_small; lia).
    simpl digits_fuel. rewrite Hz. simpl.
    exists (String (digit_char (n mod 10)) ""). simpl.
    rewrite Hd1. unfold digits_val. simpl. rewrite Hd2.
    change (len (String (digit_char (n mod 10)) "")) with 1.
    repeat split; lia.
  - change (digits_fuel (S (S fuel)) n acc)
      with (if n / 10 =? 0
            then String (digit_char (n mod 10)) acc
            else digits_fuel (S fuel) (n / 10)
                   (String (digit_char (n mod 10)) acc)).
    destruct (Z.eqb_spec (n / 10) 0) as [Hz | Hnz].
    + exists (String (digit_char (n mod 10)) ""). simpl.
      rewrite Hd1. unfold digits_val. simpl. rewrite Hd2.
      change (len (String (digit_char (n mod 10)) "")) with 1.
      repeat split; lia.
    + assert (Hq : 0 <= n / 10 < 10 ^ Z.of_nat (S fuel)).
      { split; [apply Z.div_pos; lia |].
        apply Z.div_lt_upper_bound; [lia |].
        rewrite <- Z.pow_succ_r by lia.
        now rewrite <- Nat2Z.inj_succ. }
      destruct (IH (n / 10) (String (digit_char (n mod 10)) acc) Hq)
        as (ds & E & Hall & Hval & Hlen & Hhi & Hlo).
      exists (ds ++ String (digit_char (n mod 10)) "").
      rewrite E, app_assoc. simpl.
      rewrite all_app, Hall. simpl. rewrite Hd1.
      rewrite digits_val_app, Hval, len_app.
      change (len (String (digit_char (n mod 10)) "")) with 1.
      unfold digits_val at 1. simpl. rewrite Hd2.
      replace (len ds + 1 - 1) with (len ds) by lia.
      rewrite Z.pow_add_r by lia.
      specialize (Hlo ltac:(lia)).
      assert (Hpow : 10 ^ len ds = 10 * 10 ^ (len ds - 1)).
      { rewrite <- Z.pow_succ_r by lia. f_equal. lia. }
      repeat split; try lia.
Qed.

Lemma Z_to_digits_spec (n : Z) :
  0 <= n ->
  all is_digit (Z_to_digits n) = true
  /\ digits_val (Z_to_digits n) = n
  /\ 1 <= len (Z_to_digits n)
  /\ n < 10 ^ len (Z_to_digits n)
  /\ (0 < n -> 10 ^ (len (Z_to_digits n) - 1) <= n).
Proof.
  intros Hn. unfold Z_to_digits.
  assert (Hfuel : 0 <= n < 10 ^ Z.of_nat (S (Z.to_nat (Z.log2 n)))).
  { split; [assumption |].
    rewrite Nat2Z.inj_succ, Z2Nat.id by apply Z.log2_nonneg.
    destruct (Z.eq_dec n 0) as [-> | Hnz]; [reflexivity |].
    destruct (Z.log2_spec n ltac:(lia)) as [_ Hlt].
    eapply Z.lt_le_trans; [exact Hlt |].
    apply Z.pow_le_mono_l. split; [lia | lia]. }
  destruct (digits_fuel_spec _ n "" Hfuel) as (ds & -> & H).
  now rewrite app_nil_r.
Qed.

(** The number of digits of [n]. *)
Lemma Z_to_digits_len (n k : Z) :
  10 ^ (k - 1) <= n < 10 ^ k -> 1 <= k -> len (Z_to_digits n) = k.
Proof.
  intros [Hlo Hhi] Hk.
  assert (Hpos : 0 < n).
  { assert (0 < 10 ^ (k - 1)) by (apply Z.pow_pos_nonneg; lia). lia. }
  destruct (Z_to_digits_spec n ltac:(lia)) as (_ & _ & Hl & Hhi' & Hlo').
  specialize (Hlo' Hpos). set (l := len (Z_to_digits n)) in *.
  assert (k - 1 < l).
  { apply (Z.pow_lt_mono_r_iff 10); lia. }
  assert (l - 1 < k).
  { apply (Z.pow_lt_mono_r_iff 10); lia. }
  lia.
Qed.

Lemma substring_all (s : string) : substring 0 (String.length s) s = s.
Proof. induction s as [| c s IH]; simpl; [reflexivity | now rewrite IH]. Qed.

Lemma take_drop_nat (s : string) :
  forall n, (n <= String.length s)%nat ->
    substring 0 n s ++ substring n (String.length s - n) s = s
    /\ String.length (substring 0 n s) = n.
Proof.
  induction s as [| c s IH]; intros [| n] Hn; simpl in *; try lia.
  - split; reflexivity.
  - split; [| reflexivity]. now rewrite substring_all.
  - destruct (IH n ltac:(lia)) as [E1 E2]. rewrite E2. split; [| reflexivity].
    now rewrite E1.
Qed.

Lemma take_drop (n : Z) (s : string) :
  0 <= n <= len s ->
  take n s ++ drop n s = s /\ len (take n s) = n /\ len (drop n s) = len s - n.
Proof.
  intros Hn. unfold take, drop.
  destruct (take_drop_nat s (Z.to_nat n)) as [E1 E2];
    [unfold len in Hn; lia |].
  split; [exact E1 |].
  assert (Hl : len (substring 0 (Z.to_nat n) s) = n).
  { unfold len. rewrite E2. lia. }
  split; [exact Hl |].
  assert (H := len_app (substring 0 (Z.to_nat n) s)
                 (substring (Z.to_nat n) (String.length s - Z.to_nat n) s)).
  rewrite E1 in H. lia.
Qed.

Lemma span_app (p : ascii -> bool) (ds rest : string) :
  all p ds = true -> stops p rest = true -> span p (ds ++ rest) = (ds, rest).
Proof.
  intros Hds Hr. induction ds as [| c ds IH]; simpl in *.
  - destruct rest as [| c rest]; simpl in *; [reflexivity |].
    apply negb_true_iff in Hr. now rewrite Hr.
  - apply andb_prop in Hds as [Hc Hds]. now rewrite Hc, (IH Hds).
Qed.

End DigitFacts.

(** ** [parseFloat], [toFixed] and number-to-string *)

Module BuiltinFacts.

Import Number Text Builtin Spec NumberFacts RoundingFacts TextFacts DigitFacts.
Local Open Scope string_scope.
Local Open Scope Z_scope.

(** What a digit is not. *)
Lemma digit_first (c : ascii) :
  is_digit c = true ->
  is_space c = false
  /\ is_digit_or_dot c = true
  /\ (forall r, read_sign (String c r) = (false, String c r))
  /\ (forall r, prefix "Infinity" (String c r) = false).
Proof.
  intros H.
  destruct c as [b0 b1 b2 b3 b4 b5 b6 b7].
  destruct b0, b1, b2, b3, b4, b5, b6, b7;
    try (vm_compute in H; discriminate H);
    repeat split; reflexivity.
Qed.

Lemma digits_digit_or_dot (t : string) :
  all is_digit t = true -> all is_digit_or_dot t = true.
Proof.
  apply all_weaken. intros c Hc. now destruct (digit_first c Hc) as (_ & H & _).
Qed.

Lemma parseFloat_decimal (ip fp : string) :
  all is_digit ip = true -> ip <> "" -> all is_digit fp = true ->
  parseFloat (ip ++ "." ++ fp) = decimal (digits_val (ip ++ fp)) (len fp).
Proof.
  intros Hip Hne Hfp. destruct ip as [| c ip]; [congruence |].
  simpl in Hip. apply andb_prop in Hip as [Hc Hip].
  destruct (digit_first c Hc) as (Hsp & _ & Hsign & Hinf).
  unfold parseFloat.
  change ((String c ip ++ "." ++ fp)) with (String c (ip ++ "." ++ fp)).
  cbn [span]. rewrite Hsp, Hsign, Hinf.
  change (String c (ip ++ "." ++ fp)) with (String c ip ++ "." ++ fp).
  rewrite (span_app is_digit (String c ip) ("." ++ fp));
    [| simpl; now rewrite Hc, Hip | reflexivity].
  change (read_fraction ("." ++ fp)) with (span is_digit fp).
  rewrite <- (app_nil_r fp) at 1.
  rewrite (span_app is_digit fp "" Hfp eq_refl).
  reflexivity.
Qed.

Lemma parseFloat_integer (ip : string) :
  all is_digit ip = true -> ip <> "" ->
  parseFloat ip = decimal (digits_val ip) 0.
Proof.
  intros Hip Hne. destruct ip as [| c ip]; [congruence |].
  assert (Hall := Hip).
  simpl in Hip. apply andb_prop in Hip as [Hc Hip].
  destruct (digit_first c Hc) as (Hsp & _ & Hsign & Hinf).
  unfold parseFloat. cbn [span]. rewrite Hsp, Hsign, Hinf.
  rewrite <- (app_nil_r (String c ip)) at 1.
  rewrite (span_app is_digit (String c ip) "" Hall eq_refl).
  cbn [read_fraction]. rewrite app_nil_r. reflexivity.
Qed.

Lemma round_half_up_spec (q : Q) :
  (inject_Z (round_half_up q) - (1 # 2) <= q
   /\ q < inject_Z (round_half_up q) + (1 # 2))%Q.
Proof.
  unfold round_half_up. destruct (floor_bounds (q + (1 # 2))) as [H1 H2].
  split; lra.
Qed.

Lemma round_half_up_nonneg (q : Q) : (0 <= q)%Q -> 0 <= round_half_up q.
Proof.
  intros Hq. unfold round_half_up. rewrite <- (Qfloor_Z 0).
  apply Qfloor_resp_le. change (inject_Z 0) with 0%Q. lra.
Qed.

(** The text that [toFixed] produces for a finite number below 10^21 in
    magnitude: a sign, digits, a dot and exactly [f] digits. *)
Lemma toFixed_shape (x : number) (f : Z) :
  is_finite x = true -> (Qabs (toQ x) < 10 ^ 21)%Q -> 0 < f <= 100 ->
  exists ip fp,
    toFixed x f
    = Normal ((if Qlt_le_dec (toQ x) 0 then "-" else "") ++ ip ++ "." ++ fp)
    /\ all is_digit ip = true /\ ip <> ""
    /\ all is_digit fp = true /\ len fp = f
    /\ digits_val (ip ++ fp) = round_half_up (Qabs (toQ x) * 10 ^ f).
Proof.
  intros Hfin Hlt Hf. unfold toFixed.
  destruct (Z.ltb_spec f 0); [lia |].
  destruct (Z.ltb_spec 100 f); [lia |].
  rewrite Hfin. cbn [orb negb].
  destruct (Qle_bool (10 ^ 21) (Qabs (toQ x))) eqn:Hbig.
  { apply Qle_bool_iff in Hbig. lra. }
  set (n := round_half_up (Qabs (toQ x) * 10 ^ f)).
  assert (Hn : 0 <= n).
  { apply round_half_up_nonneg. apply Qmult_le_0_compat; [apply Qabs_nonneg |].
    apply Qlt_le_weak, pow_pos. reflexivity. }
  set (m0 := if n =? 0 then "0" else Z_to_digits n).
  assert (Hm0 : all is_digit m0 = true /\ digits_val m0 = n /\ 1 <= len m0).
  { unfold m0. destruct (Z.eqb_spec n 0) as [-> | Hnz].
    - repeat split. reflexivity.
    - destruct (Z_to_digits_spec n Hn) as (H1 & H2 & H3 & _). auto. }
  destruct Hm0 as (Hall & Hval & Hlen).
  destruct (Z.eqb_spec f 0); [lia |].
  set (k := len m0) in *.
  set (m := if k <=? f then zeros (f + 1 - k) ++ m0 else m0).
  set (k' := if k <=? f then f + 1 else k).
  assert (Hm : all is_digit m = true /\ digits_val m = n /\ len m = k'
               /\ f < k').
  { unfold m, k'. destruct (Z.leb_spec k f) as [Hle | Hgt].
    - destruct (zeros_spec (f + 1 - k) ltac:(lia)) as (Hz1 & Hz2 & Hz3).
      rewrite all_app, Hz1, Hall, digits_val_app, Hz3, len_app, Hz2.
      fold k. repeat split; lia.
    - repeat split; auto; lia. }
  destruct Hm as (Hmall & Hmval & Hmlen & Hk').
  destruct (take_drop (k' - f) m ltac:(lia)) as (E & Ht & Hd).
  exists (take (k' - f) m), (drop (k' - f) m).
  assert (Hsplit : all is_digit (take (k' - f) m) = true
                   /\ all is_digit (drop (k' - f) m) = true).
  { rewrite <- E, all_app in Hmall. now apply andb_prop in Hmall. }
  destruct Hsplit as [Hta Hda].
  repeat split; auto.
  - intros Hempty. rewrite Hempty in Ht. change (len "") with 0 in Ht. lia.
  - lia.
  - now rewrite E.
Qed.

Local Open Scope Q_scope.

Lemma Qle_bool_false (a b : Q) : Qle_bool a b = false -> b < a.
Proof.
  intros H. apply Qnot_le_lt. intros Hle. apply Qle_bool_iff in Hle. congruence.
Qed.

Lemma scan_up_spec (fuel : nat) :
  forall (k : Z) (q : Q),
    q < 10 ^ (k + Z.of_nat fuel) ->
    let k' := scan_up fuel k q in
    (k <= k')%Z /\ q < 10 ^ k' /\ ((k < k')%Z -> 10 ^ (k' - 1) <= q).
Proof.
  induction fuel as [| fuel IH]; intros k q Hq; simpl.
  - replace (k + Z.of_nat 0)%Z with k in Hq by lia.
    repeat split; [lia | assumption | lia].
  - destruct (Qle_bool (10 ^ k) q) eqn:Hc.
    + apply Qle_bool_iff in Hc.
      destruct (IH (k + 1)%Z q) as (H1 & H2 & H3).
      { now replace (k + 1 + Z.of_nat fuel)%Z with (k + Z.of_nat (S fuel))%Z
          by lia. }
      repeat split; [lia | assumption |].
      intros _. destruct (Z.eq_dec (scan_up fuel (k + 1) q) (k + 1)) as [E | NE].
      * rewrite E. now replace (k + 1 - 1)%Z with k by lia.
      * apply H3. lia.
    + apply Qle_bool_false in Hc. repeat split; [lia | assumption | lia].
Qed.

Lemma scan_down_spec (fuel : nat) :
  forall (k : Z) (q : Q),
    10 ^ (k - Z.of_nat fuel) <= q -> q < 10 ^ (k + 1) ->
    let k' := scan_down fuel k q in
    10 ^ k' <= q /\ q < 10 ^ (k' + 1).
Proof.
  induction fuel as [| fuel IH]; intros k q Hlo Hhi; simpl.
  - replace (k - Z.of_nat 0)%Z with k in Hlo by lia. split; assumption.
  - destruct (Qle_bool (10 ^ k) q) eqn:Hc.
    + apply Qle_bool_iff in Hc. split; assumption.
    + apply Qle_bool_false in Hc. apply IH.
      * now replace (k - 1 - Z.of_nat fuel)%Z with (k - Z.of_nat (S fuel))%Z
          by lia.
      * now replace (k - 1 + 1)%Z with k by lia.
Qed.

(** [Qlog10 q] is floor (log10 q), on a range that covers every positive
    binary64 number. *)
Lemma Qlog10_spec (q : Q) :
  10 ^ (-340) <= q -> q < 10 ^ 340 ->
  10 ^ Qlog10 q <= q /\ q < 10 ^ (Qlog10 q + 1).
Proof.
  intros Hlo Hhi. unfold Qlog10.
  assert (Hq : 0 < q).
  { assert (H := pow_pos 10 (-340) ltac:(lra)). lra. }
  destruct (Qlog2_spec q Hq) as [Hl1 Hl2].
  assert (Hk1 : (Qlog2 q < 1130)%Z).
  { apply (Qpower_lt_compat_l_inv 2); [| lra].
    assert (H : 10 ^ 340 < 2 ^ 1130) by reflexivity. lra. }
  assert (Hk2 : (-1131 < Qlog2 q)%Z).
  { assert (-1130 < Qlog2 q + 1)%Z; [| lia].
    apply (Qpower_lt_compat_l_inv 2); [| lra].
    assert (H : 2 ^ (-1130) < 10 ^ (-340)) by reflexivity. lra. }
  set (k0 := (Qlog2 q * 1233 / 4096)%Z).
  assert (Hk0 : (-341 <= k0 <= 340)%Z).
  { unfold k0. split.
    - apply Z.div_le_lower_bound; lia.
    - apply Z.div_le_upper_bound; lia. }
  destruct (scan_up_spec 700 k0 q) as (Hu1 & Hu2 & Hu3).
  { eapply Qlt_le_trans; [exact Hhi |]. apply pow_le; [lra | lia]. }
  set (k1 := scan_up 700 k0 q) in *.
  assert (Hk1' : (k1 <= 341)%Z).
  { destruct (Z.eq_dec k1 k0) as [E | NE]; [lia |].
    specialize (Hu3 ltac:(lia)).
    assert (k1 - 1 < 340)%Z; [| lia].
    apply (Qpower_lt_compat_l_inv 10); lra. }
  apply scan_down_spec.
  - eapply Qle_trans; [| exact Hlo]. apply pow_le; [lra | lia].
  - now replace (k1 - 1 + 1)%Z with k1 by lia.
Qed.

Section Shortest.

Variable x : number.
Variable n : Z.
Let q := toQ x.
Hypothesis Hlo : 10 ^ (n - 1) <= q.
Hypothesis Hhi : q < 10 ^ n.

Lemma digits_below_spec (k : Z) :
  (1 <= k)%Z ->
  (10 ^ (k - 1) <= digits_below q n k < 10 ^ k)%Z
  /\ value (digits_below q n k) n k <= q
  /\ q < value (digits_below q n k + 1) n k.
Proof.
  intros Hk. unfold value, digits_below.
  set (g := 10 ^ (n - k)). assert (Hg : 0 < g) by (apply pow_pos; lra).
  set (y := q / g).
  assert (Hy : y * g == q) by (unfold y; field; lra).
  destruct (floor_bounds y) as [Hf1 Hf2].
  assert (E1 : 10 ^ (k - 1) * g == 10 ^ (n - 1)).
  { unfold g. rewrite <- pow_add by lra. now replace (k - 1 + (n - k))%Z with (n - 1)%Z by lia. }
  assert (E2 : 10 ^ k * g == 10 ^ n).
  { unfold g. rewrite <- pow_add by lra. now replace (k + (n - k))%Z with n by lia. }
  assert (Hp1 := pow_pos 10 (k - 1) ltac:(lra)).
  assert (Hy1 : 10 ^ (k - 1) <= y) by nra.
  assert (Hy2 : y < 10 ^ k) by nra.
  rewrite inject_Z_plus. change (inject_Z 1) with 1.
  repeat split; try nra.
  - rewrite <- (Qfloor_Z (10 ^ (k - 1))). apply Qfloor_resp_le.
    now rewrite inject_pow10 by lia.
  - apply inject_lt_inv. rewrite inject_pow10 by lia. lra.
Qed.

Lemma nearer_spec (k : Z) :
  (1 <= k)%Z ->
  (nearer q n k = digits_below q n k
   \/ nearer q n k = (digits_below q n k + 1)%Z)
  /\ Qabs (value (nearer q n k) n k - q) <= (1 # 2) * 10 ^ (n - k).
Proof.
  intros Hk. destruct (digits_below_spec k Hk) as (_ & H1 & H2).
  unfold nearer, value in *. unfold digits_below in *.
  set (g := 10 ^ (n - k)) in *. assert (Hg : 0 < g) by (apply pow_pos; lra).
  set (y := q / g) in *.
  assert (Hy : y * g == q) by (unfold y; field; lra).
  clearbody y.
  rewrite inject_Z_plus in H2. change (inject_Z 1) with 1 in H2.
  destruct (floor_bounds y) as [Hf1 Hf2].
  assert (Hscale : forall a, Qabs (a - y) <= 1 # 2 ->
                             Qabs (a * g - q) <= (1 # 2) * g).
  { intros a Ha.
    setoid_replace (a * g - q) with ((a - y) * g) by (rewrite <- Hy; ring).
    rewrite Qabs_Qmult, (Qabs_pos g) by lra.
    apply Qmult_le_compat_r; lra. }
  assert (Hup : 1 # 2 <= y - inject_Z (Qfloor y) ->
                Qabs (inject_Z (Qfloor y + 1) * g - q) <= (1 # 2) * g).
  { intros Hc. apply Hscale. rewrite inject_Z_plus.
    change (inject_Z 1) with 1. clear - Hf1 Hf2 Hc.
    apply Qabs_case; intros; lra. }
  assert (Hdown : y - inject_Z (Qfloor y) <= 1 # 2 ->
                  Qabs (inject_Z (Qfloor y) * g - q) <= (1 # 2) * g).
  { intros Hc. apply Hscale. clear - Hf1 Hf2 Hc.
    apply Qabs_case; intros; lra. }
  destruct (y - inject_Z (Qfloor y) ?= 1 # 2) eqn:Hc.
  - apply Qeq_alt in Hc. destruct (Z.even (Qfloor y)).
    + split; [now left |]. apply Hdown. lra.
    + split; [now right |]. apply Hup. lra.
  - apply Qlt_alt in Hc. split; [now left |]. apply Hdown. lra.
  - apply Qgt_alt in Hc. split; [now right |]. apply Hup. lra.
Qed.

Lemma candidate_spec (k s : Z) :
  (1 <= k)%Z -> candidate x n k = Some s ->
  (s = digits_below q n k \/ s = (digits_below q n k + 1)%Z)
  /\ same_value (RN false (value s n k)) x = true.
Proof.
  intros Hk. unfold candidate. fold q. unfold digits_above.
  destruct (nearer_spec k Hk) as [Hn _].
  set (lo := digits_below q n k) in *.
  fold (value lo n k). fold (value (lo + 1) n k).
  destruct ((0 <? lo)%Z); cbn [andb];
    destruct (same_value (RN false (value lo n k)) x) eqn:Hclo;
    destruct (same_value (RN false (value (lo + 1) n k)) x) eqn:Hchi;
    intros [= <-]; try (split; [auto | assumption]).
  destruct Hn as [-> | ->]; split; auto.
Qed.

(** Either the decimal found rounds to [x], or all the digits were used
    and it is the nearest decimal with that many digits. *)
Lemma shortest_from_spec (fuel : nat) :
  forall k : Z,
    (1 <= k)%Z ->
    let (s, k') := shortest_from fuel x n k in
    (k <= k' <= k + Z.of_nat fuel)%Z
    /\ (10 ^ (k' - 1) <= s <= 10 ^ k')%Z
    /\ (same_value (RN false (value s n k')) x = true
        \/ (k' = (k + Z.of_nat fuel)%Z
            /\ Qabs (value s n k' - q) <= (1 # 2) * 10 ^ (n - k'))).
Proof.
  induction fuel as [| fuel IH]; intros k Hk; cbn [shortest_from].
  - destruct (nearer_spec k Hk) as [Hn He].
    destruct (digits_below_spec k Hk) as (Hb & _).
    fold q. split; [lia |].
    split; [destruct Hn as [-> | ->]; lia |].
    right. split; [lia | assumption].
  - destruct (candidate x n k) as [s |] eqn:Hc.
    + destruct (candidate_spec k s Hk Hc) as [Hs Hv].
      destruct (digits_below_spec k Hk) as (Hb & _).
      split; [lia |].
      split; [destruct Hs as [-> | ->]; lia |].
      now left.
    + specialize (IH (k + 1)%Z ltac:(lia)).
      destruct (shortest_from fuel x n (k + 1)) as [s k'].
      destruct IH as (H1 & H2 & H3).
      split; [lia |]. split; [lia |].
      destruct H3 as [H3 | [H3 H4]]; [now left | right].
      split; [lia | assumption].
Qed.

End Shortest.

Local Open Scope string_scope.

Lemma decimal_value (d f : Z) :
  (0 < d)%Z -> decimal d f = RN false (value d 0 f).
Proof.
  intros Hd. unfold decimal, value.
  destruct (Z.eqb_spec d 0); [lia | reflexivity].
Qed.

Lemma value_pos (s n k : Z) : (0 < s)%Z -> 0 < value s n k.
Proof.
  intros Hs. unfold value.
  apply Qmult_lt_0_compat; [| apply pow_pos; lra].
  change 0 with (inject_Z 0). now apply inject_lt.
Qed.

(** Inside the range where no exponent is written, the text of the digits
    reads back as the decimal they stand for. *)
Lemma render_parse (s k n : Z) :
  (1 <= k)%Z -> (10 ^ (k - 1) <= s < 10 ^ k)%Z -> (-6 < n <= 21)%Z ->
  all is_digit_or_dot (render s k n) = true
  /\ render s k n <> ""
  /\ parseFloat (render s k n) = RN false (value s n k).
Proof.
  intros Hk Hs Hn.
  assert (Hpos : (0 < s)%Z).
  { assert (0 < 10 ^ (k - 1))%Z by (apply Z.pow_pos_nonneg; lia). lia. }
  destruct (Z_to_digits_spec s ltac:(lia)) as (Hall & Hval & _).
  assert (Hlen := Z_to_digits_len s k Hs Hk).
  unfold render. set (ds := Z_to_digits s) in *.
  destruct (Z.leb_spec k n) as [Hkn | Hkn];
    [destruct (Z.leb_spec n 21); [| lia] | destruct (Z.leb_spec n 21); [| lia]];
    cbn [andb].
  - (* digits, then zeros *)
    destruct (zeros_spec (n - k) ltac:(lia)) as (Hz1 & Hz2 & Hz3).
    assert (Hd : all is_digit (ds ++ zeros (n - k)) = true)
      by now rewrite all_app, Hall, Hz1.
    assert (Hne : ds ++ zeros (n - k) <> "").
    { destruct ds; [change (len "") with 0%Z in Hlen; lia | discriminate]. }
    split; [now apply digits_digit_or_dot |]. split; [assumption |].
    rewrite parseFloat_integer by assumption.
    rewrite digits_val_app, Hval, Hz2, Hz3, Z.add_0_r.
    assert (Hp : (0 < 10 ^ (n - k))%Z) by (apply Z.pow_pos_nonneg; lia).
    rewrite decimal_value by nia.
    apply RN_compat; [apply value_pos; nia |].
    unfold value. rewrite inject_Z_mult, inject_pow10 by lia.
    change (10 ^ (0 - 0))%Q with 1%Q. ring.
  - destruct (Z.ltb_spec 0 n) as [H0n | H0n]; cbn [andb].
    + (* the point inside the digits *)
      destruct (take_drop n ds ltac:(lia)) as (E & Ht & Hd).
      assert (Hsplit : all is_digit (take n ds) = true
                       /\ all is_digit (drop n ds) = true).
      { rewrite <- E, all_app in Hall. now apply andb_prop in Hall. }
      destruct Hsplit as [Hta Hda].
      assert (Hne : take n ds <> "").
      { intros Hempty. rewrite Hempty in Ht. change (len "") with 0%Z in Ht. lia. }
      split.
      { rewrite all_app. rewrite (digits_digit_or_dot _ Hta).
        change ("." ++ drop n ds) with (String "." (drop n ds)).
        cbn [all]. now rewrite (digits_digit_or_dot _ Hda). }
      split; [destruct (take n ds); [congruence | discriminate] |].
      rewrite parseFloat_decimal by assumption.
      rewrite E, Hval, Hd, decimal_value by lia.
      unfold value. now replace (0 - (len ds - n))%Z with (n - k)%Z by lia.
    + (* zeros after the point, then the digits *)
      destruct (Z.ltb_spec (-6) n); [| lia].
      destruct (Z.leb_spec n 0); [| lia]. cbn [andb].
      destruct (zeros_spec (- n) ltac:(lia)) as (Hz1 & Hz2 & Hz3).
      assert (Hfp : all is_digit (zeros (- n) ++ ds) = true)
        by now rewrite all_app, Hz1, Hall.
      change ("0." ++ zeros (- n) ++ ds) with ("0" ++ "." ++ zeros (- n) ++ ds).
      split.
      { change ("0" ++ "." ++ zeros (- n) ++ ds)
          with (String "0" (String "." (zeros (- n) ++ ds))).
        cbn [all]. now rewrite (digits_digit_or_dot _ Hfp). }
      split; [discriminate |].
      rewrite parseFloat_decimal by (auto; discriminate).
      rewrite !digits_val_app, Hval, Hz3, len_app, Hz2.
      change (digits_val "0") with 0%Z.
      rewrite decimal_value by lia.
      unfold value. f_equal.
      replace (0 - (- n + len ds))%Z with (n - k)%Z by lia.
      now replace (0 * 10 ^ (- n + len ds) + (0 * 10 ^ len ds + s))%Z
        with s by lia.
Qed.

Local Open Scope Q_scope.

Lemma fcompare_finite (a b : number) :
  is_finite a = true -> is_finite b = true ->
  fcompare a b = Some (toQ a ?= toQ b).
Proof.
  destruct a as [sa | sa | | sa ma ea], b as [sb | sb | | sb mb eb];
    simpl; try discriminate; reflexivity.
Qed.

Lemma same_value_toQ (a b : number) :
  is_finite b = true -> same_value a b = true ->
  is_finite a = true /\ toQ a == toQ b.
Proof.
  intros Hb. unfold same_value.
  destruct a as [sa | sa | | sa ma ea], b as [sb | sb | | sb mb eb];
    simpl in *; try discriminate;
    try (destruct sa; discriminate);
    try (intros _; split; reflexivity).
  - destruct (0 ?= (if sb then _ else _)) eqn:Hc; try discriminate.
    intros _. split; [reflexivity |]. now apply Qeq_alt.
  - destruct ((if sa then _ else _) ?= 0) eqn:Hc; try discriminate.
    intros _. split; [reflexivity |]. now apply Qeq_alt.
  - destruct ((if sa then _ else _) ?= (if sb then _ else _)) eqn:Hc;
      try discriminate.
    intros _. split; [reflexivity |]. now apply Qeq_alt.
Qed.

Lemma value_below (s n k : Z) : (0 < s <= 10 ^ k)%Z -> (0 <= k)%Z -> value s n k <= 10 ^ n.
Proof.
  intros Hs Hk. unfold value.
  assert (Hg := pow_pos 10 (n - k) ltac:(lra)).
  assert (E : 10 ^ k * 10 ^ (n - k) == 10 ^ n).
  { rewrite <- pow_add by lra. now replace (k + (n - k))%Z with n by lia. }
  rewrite <- E. apply Qmult_le_compat_r; [| lra].
  rewrite <- inject_pow10 by lia. apply inject_le. lia.
Qed.

(** The digits that [shortest] finds for a number between 10^-6 and 1. *)
Lemma shortest_spec (x : number) :
  10 ^ (-6) <= toQ x -> toQ x <= 1 ->
  exists s k n,
    shortest x = (s, k, n)
    /\ (1 <= k)%Z /\ (10 ^ (k - 1) <= s < 10 ^ k)%Z /\ (-6 < n <= 2)%Z
    /\ (same_value (RN false (value s n k)) x = true
        \/ Qabs (value s n k - toQ x) <= 10 ^ (-16)).
Proof.
  intros Hlo Hhi. unfold shortest.
  destruct (Qlog10_spec (toQ x)) as [Hl1 Hl2].
  { eapply Qle_trans; [| exact Hlo]. apply pow_le; [lra | lia]. }
  { eapply Qle_lt_trans; [exact Hhi |]. reflexivity. }
  set (j := Qlog10 (toQ x)) in *.
  assert (Hj1 : (j < 1)%Z).
  { apply (Qpower_lt_compat_l_inv 10); [| lra].
    change (10 ^ 1) with 10. lra. }
  assert (Hj2 : (-7 < j)%Z).
  { assert (-6 < j + 1)%Z; [| lia].
    apply (Qpower_lt_compat_l_inv 10); lra. }
  replace j with (j + 1 - 1)%Z in Hl1 by lia.
  assert (Hspec := shortest_from_spec x (j + 1) Hl1 Hl2 16 1 ltac:(lia)).
  destruct (shortest_from 16 x (j + 1) 1) as [s k].
  destruct Hspec as (Hk & Hs & Hv).
  assert (Hp : (0 < 10 ^ (k - 1))%Z) by (apply Z.pow_pos_nonneg; lia).
  assert (Hclose : same_value (RN false (value s (j + 1) k)) x = true
                   \/ Qabs (value s (j + 1) k - toQ x) <= 10 ^ (-16)).
  { destruct Hv as [Hv | [Hk' Hv]]; [now left | right].
    eapply Qle_trans; [exact Hv |].
    assert (Hle : 10 ^ (j + 1 - k) <= 10 ^ (-16)) by (apply pow_le; [lra | lia]).
    assert (Hg := pow_pos 10 (j + 1 - k) ltac:(lra)). lra. }
  destruct (Z.eqb_spec s (10 ^ k)) as [E | NE].
  - exists 1%Z, 1%Z, (j + 1 + 1)%Z.
    assert (Ev : value 1 (j + 1 + 1) 1 == value s (j + 1) k).
    { unfold value. rewrite E, inject_pow10 by lia.
      rewrite <- pow_add by lra.
      replace (j + 1 + 1 - 1)%Z with (k + (j + 1 - k))%Z by lia.
      change (inject_Z 1) with 1. ring. }
    split; [reflexivity |].
    split; [lia |]. split; [split; [reflexivity | reflexivity] |].
    split; [lia |].
    rewrite (RN_compat false _ _ (value_pos 1 _ _ ltac:(lia)) Ev).
    now rewrite Ev.
  - exists s, k, (j + 1)%Z.
    split; [reflexivity |].
    split; [lia |]. split; [lia |]. split; [lia | assumption].
Qed.

Local Open Scope string_scope.

(** A number that is 0, or between 10^-6 and 1, is written without an
    exponent, and reading its text gives the number back. *)
Lemma ToString_round_trip (x : number) :
  is_double x = true -> is_finite x = true ->
  (toQ x == 0 \/ 10 ^ (-6) <= toQ x <= 1)%Q ->
  all is_digit_or_dot (ToString x) = true
  /\ ToString x <> ""
  /\ is_finite (parseFloat (ToString x)) = true
  /\ (Qabs (toQ (parseFloat (ToString x)) - toQ x) <= 10 ^ (-15))%Q.
Proof.
  intros Hd Hf Hx. destruct x as [sg | sg | | sg m e]; try discriminate.
  - repeat split; try discriminate.
  - assert (Hm : (0 < inject_Z (Z.pos m) * 2 ^ e)%Q).
    { apply Qmult_lt_0_compat; [reflexivity | apply pow_pos; lra]. }
    assert (Hpos : (10 ^ (-6) <= toQ (Fin sg m e) <= 1)%Q).
    { destruct Hx as [Hx | Hx]; [| exact Hx].
      cbn [toQ] in Hx. destruct sg; lra. }
    assert (Hsg : sg = false).
    { destruct sg; [| reflexivity]. cbn [toQ] in Hpos.
      assert (H := pow_pos 10 (-6) ltac:(lra)). lra. }
    subst sg. destruct Hpos as [Hlo Hhi].
    unfold ToString. cbn [fabs].
    destruct (shortest_spec _ Hlo Hhi)
      as (s & k & n & -> & Hk & Hs & Hn & Hv).
    change ("" ++ render s k n) with (render s k n).
    destruct (render_parse s k n Hk Hs ltac:(lia)) as (Hall & Hne & Hparse).
    rewrite Hparse.
    assert (Hsp : (0 < s)%Z).
    { assert (0 < 10 ^ (k - 1))%Z by (apply Z.pow_pos_nonneg; lia). lia. }
    assert (Hv0 := value_pos s n k Hsp).
    assert (Hv1 : (value s n k < 2 ^ 1023)%Q).
    { eapply Qle_lt_trans; [apply value_below; lia |].
      eapply Qle_lt_trans; [apply (pow_le 10 n 2); [lra | lia] |].
      reflexivity. }
    destruct (RN_value false _ Hv0 Hv1) as (Hfin & _).
    repeat split; try assumption.
    destruct Hv as [Hv | Hv].
    + destruct (same_value_toQ _ _ Hf Hv) as [_ E]. rewrite E.
      apply Qabs_case; intros; lra.
    + assert (Hnear := RN_nearest _ (Fin false m e) Hv0 Hv1 Hd).
      set (r := toQ (RN false (value s n k))) in *.
      set (q := toQ (Fin false m e)) in *.
      set (v := value s n k) in *.
      assert (Hsym : (Qabs (q - v) == Qabs (v - q))%Q).
      { now rewrite Qabs_Qminus. }
      assert (Htri : (Qabs (r - q) <= Qabs (r - v) + Qabs (v - q))%Q).
      { setoid_replace (r - q)%Q with ((r - v) + (v - q))%Q by ring.
        apply Qabs_triangle. }
      assert (E15 : (10 ^ (-15) == 10 * 10 ^ (-16))%Q) by reflexivity.
      assert (Hp := pow_pos 10 (-16) ltac:(lra)).
      clearbody r q v. rewrite E15. lra.
Qed.

End BuiltinFacts.

(** ** The matcher *)

Module RegexFacts.

Import Text Regex Spec TextFacts.
Local Open Scope string_scope.

Lemma star_sound {R} (p : ascii -> bool) (s : string)
  (k : string -> option R) (r : R) :
  star p s k = Some r ->
  exists t s', s = t ++ s' /\ all p t = true /\ k s' = Some r.
Proof.
  induction s as [| c s IH]; simpl; intros Hs.
  - exists "", "". auto.
  - destruct (p c) eqn:Hc.
    + destruct (star p s k) as [r' |] eqn:Hst.
      * injection Hs as ->.
        destruct (IH eq_refl) as (t & s' & -> & Ht & Hk).
        exists (String c t), s'. simpl. rewrite Hc, Ht. auto.
      * exists "", (String c s). auto.
    + exists "", (String c s). auto.
Qed.

Lemma plus_sound {R} (p : ascii -> bool) (s : string)
  (k : string -> option R) (r : R) :
  plus p s k = Some r ->
  exists t s', s = t ++ s' /\ all p t = true /\ t <> "" /\ k s' = Some r.
Proof.
  destruct s as [| c s]; simpl; [discriminate |].
  destruct (p c) eqn:Hc; [| discriminate].
  intros Hs. destruct (star_sound _ _ _ _ Hs) as (t & s' & -> & Ht & Hk).
  exists (String c t), s'. simpl. rewrite Hc, Ht.
  repeat split; auto. discriminate.
Qed.

Lemma consumed_app (t s : string) : consumed (t ++ s) s = t.
Proof.
  unfold consumed. rewrite length_app.
  replace (String.length t + String.length s - String.length s)%nat
    with (String.length t) by lia.
  apply substring_0_app.
Qed.

(** What the matcher accepts is a match. *)
Lemma exec_sound (r : regex) :
  forall s m k res,
    exec r s m k = Some res ->
    exists t s' m', s = t ++ s' /\ matches r t m m' /\ k s' m' = Some res.
Proof.
  induction r as [t | p | p | r IH | r1 IH1 r2 IH2 | i r IH];
    intros s m k res; simpl; intros He.
  - destruct (strip_prefix t s) as [s' |] eqn:Hp; [| discriminate].
    apply strip_prefix_some in Hp. exists t, s', m.
    repeat split; auto. constructor.
  - destruct (star_sound _ _ _ _ He) as (t & s' & -> & Ht & Hk).
    exists t, s', m. repeat split; auto. now constructor.
  - destruct (plus_sound _ _ _ _ He) as (t & s' & -> & Ht & Hne & Hk).
    exists t, s', m. repeat split; auto. now constructor.
  - destruct (exec r s m k) as [m1 |] eqn:Hr.
    + injection He as ->.
      destruct (IH _ _ _ _ Hr) as (t & s' & m' & -> & Hm & Hk).
      exists t, s', m'. repeat split; auto. now constructor.
    + exists "", s, m. repeat split; auto. apply m_opt_none.
  - destruct (IH1 _ _ _ _ He) as (t1 & s1 & m1 & -> & Hm1 & He2).
    destruct (IH2 _ _ _ _ He2) as (t2 & s2 & m2 & -> & Hm2 & Hk).
    exists (t1 ++ t2), s2, m2. rewrite app_assoc.
    repeat split; auto. econstructor; eauto.
  - destruct (IH _ _ _ _ He) as (t & s' & m' & -> & Hm & Hk).
    rewrite consumed_app in Hk.
    exists t, s', ((i, t) :: m'). repeat split; auto. now constructor.
Qed.

(** A successful search found a match somewhere in the string. *)
Lemma search_sound (r : regex) (s : string) (m : captures) :
  search r s = Some m ->
  exists pre t post, s = pre ++ t ++ post /\ matches r t [] m.
Proof.
  induction s as [| c s IH]; simpl.
  - destruct (exec r "" [] (fun _ m0 => Some m0)) as [m0 |] eqn:He;
      [| discriminate].
    intros [= ->].
    destruct (exec_sound _ _ _ _ _ He) as (t & s' & m' & E & Hm & [= ->]).
    exists "", t, s'. auto.
  - destruct (exec r (String c s) [] (fun _ m0 => Some m0)) as [m0 |] eqn:He.
    + intros [= ->].
      destruct (exec_sound _ _ _ _ _ He) as (t & s' & m' & E & Hm & [= ->]).
      exists "", t, s'. auto.
    + intros Hs. destruct (IH Hs) as (pre & t & post & -> & Hm).
      exists (String c pre), t, post. auto.
Qed.

(** When the rest does not go on with [p], the greedy repetition takes
    the whole run. *)
Lemma star_greedy {R} (p : ascii -> bool) (t s : string)
  (k : string -> option R) (r : R) :
  all p t = true -> stops p s = true -> k s = Some r ->
  star p (t ++ s) k = Some r.
Proof.
  intros Ht Hs Hk. induction t as [| c t IH]; simpl in *.
  - destruct s as [| c s]; simpl in *; [exact Hk |].
    apply negb_true_iff in Hs. now rewrite Hs.
  - apply andb_prop in Ht as [Hc Ht]. now rewrite Hc, (IH Ht).
Qed.

Lemma plus_greedy {R} (p : ascii -> bool) (t s : string)
  (k : string -> option R) (r : R) :
  all p t = true -> t <> "" -> stops p s = true -> k s = Some r ->
  plus p (t ++ s) k = Some r.
Proof.
  intros Ht Hne Hs Hk. destruct t as [| c t]; [congruence |].
  simpl in *. apply andb_prop in Ht as [Hc Ht]. rewrite Hc.
  now apply star_greedy.
Qed.

Lemma search_here (r : regex) (s : string) (m : captures) :
  exec r s [] (fun _ m0 => Some m0) = Some m -> search r s = Some m.
Proof. intros H. destruct s; simpl; now rewrite H. Qed.

Lemma opt_first {T} (e d : option T) (r : T) :
  e = Some r ->
  match e with Some m' => Some m' | None => d end = Some r.
Proof. now intros ->. Qed.

End RegexFacts.

Module ThemeColorsFacts.

Import Number Text Builtin Regex ThemeColors Spec.
Import NumberFacts RoundingFacts TextFacts DigitFacts BuiltinFacts RegexFacts.
Local Open Scope string_scope.

(** ** The pattern of [parseOklch] *)

Lemma space_pattern_char c : is_space c = true -> pattern_char c = true.
Proof. unfold pattern_char. now intros ->. Qed.

Lemma digit_dot_pattern_char c :
  is_digit_or_dot c = true -> pattern_char c = true.
Proof. unfold pattern_char. intros ->. now rewrite orb_true_r. Qed.

Ltac invert_matches :=
  repeat match goal with
    | H : matches (Seq _ _) _ _ _ |- _ => inversion H; subst; clear H
    | H : matches (Str _) _ _ _ |- _ => inversion H; subst; clear H
    | H : matches (Star _) _ _ _ |- _ => inversion H; subst; clear H
    | H : matches (Plus _) _ _ _ |- _ => inversion H; subst; clear H
    | H : matches (Cap _ _) _ _ _ |- _ => inversion H; subst; clear H
    | H : matches (Opt _) _ _ _ |- _ => inversion H; subst; clear H
    end.

Ltac solve_all_pattern :=
  match goal with
  | |- all pattern_char (_ ++ _) = true =>
      rewrite all_app; apply andb_true_intro; split; solve_all_pattern
  | |- all pattern_char (String ?c ?s) = true =>
      change (pattern_char c && all pattern_char s = true);
      apply andb_true_intro; split; [vm_compute; reflexivity | solve_all_pattern]
  | |- all pattern_char EmptyString = true => reflexivity
  | H : all is_space ?t = true |- all pattern_char ?t = true =>
      exact (all_weaken _ _ t space_pattern_char H)
  | H : all is_digit_or_dot ?t = true |- all pattern_char ?t = true =>
      exact (all_weaken _ _ t digit_dot_pattern_char H)
  end.

(** A match of the pattern is "oklch(", then characters of the pattern,
    then ")"; groups 1 to 3 are captured, and are not empty. *)
Lemma oklch_match_shape (t : string) (m : captures) :
  matches oklch_pattern t [] m ->
  exists body l c h a,
    t = "oklch(" ++ body ++ ")"
    /\ all pattern_char body = true
    /\ m = oklch_captures l c h a
    /\ l <> "" /\ c <> "" /\ h <> ""
    /\ (forall t4, a = Some t4 -> t4 <> "").
Proof.
  unfold oklch_pattern. intros Hm. invert_matches;
    match goal with
    | |- context [ "oklch(" ++ ?w0 ++ ?l ++ ?pc ++ ?w1 ++ ?c ++ ?w2 ++ ?h
                   ++ ?w3 ++ ?al ++ ?w4 ++ ")" ] =>
        exists (w0 ++ l ++ pc ++ w1 ++ c ++ w2 ++ h ++ w3 ++ al ++ w4), l, c, h
    end;
    match goal with
    | |- context [ (4%nat, ?a) :: _ ] => exists (Some a)
    | |- _ => exists None
    end;
    (repeat split;
     [ repeat (progress (simpl; rewrite ?app_assoc)); reflexivity
     | solve_all_pattern
     | assumption | assumption | assumption
     | first [discriminate | intros ? [= <-]; assumption] ]).
Qed.

Lemma search_oklch_sound (s : string) (m : captures) :
  search oklch_pattern s = Some m ->
  exists pre body post l c h a,
    s = pre ++ "oklch(" ++ body ++ ")" ++ post
    /\ all pattern_char body = true
    /\ m = oklch_captures l c h a
    /\ l <> "" /\ c <> "" /\ h <> ""
    /\ (forall t4, a = Some t4 -> t4 <> "").
Proof.
  intros Hs.
  destruct (search_sound _ _ _ Hs) as (pre & t & post & -> & Hm).
  destruct (oklch_match_shape _ _ Hm)
    as (body & l & c & h & a & -> & Hb & Hc & Hne).
  exists pre, body, post, l, c, h, a. repeat split; try tauto.
  simpl. now rewrite app_assoc.
Qed.

Lemma pattern_char_inner c : pattern_char c = true -> negb (Ascii.eqb c ")") = true.
Proof.
  destruct (Ascii.eqb_spec c ")") as [-> | _]; [vm_compute; discriminate | reflexivity].
Qed.

Lemma pattern_char_not_minus c :
  pattern_char c = true -> negb (Ascii.eqb c "-") = true.
Proof.
  destruct (Ascii.eqb_spec c "-") as [-> | _]; [vm_compute; discriminate | reflexivity].
Qed.

Lemma single_term_parse (body : string) (m : captures) :
  all inner_char body = true ->
  search oklch_pattern ("oklch(" ++ body ++ ")") = Some m ->
  all pattern_char body = true.
Proof.
  intros Hin Hs.
  destruct (search_oklch_sound _ _ Hs)
    as (pre & b & post & l & c & h & a & E & Hb & _).
  assert (Hno : all (fun c => negb (Ascii.eqb c "o")) ("klch(" ++ body ++ ")") = true).
  { simpl. rewrite all_app. simpl. rewrite andb_true_r.
    apply (all_weaken inner_char); [| exact Hin].
    intros x Hx. unfold inner_char in Hx. now apply andb_prop in Hx. }
  destruct pre as [| x pre].
  - simpl in E. injection E as E.
    destruct (split_at_stop (fun c => negb (Ascii.eqb c ")")) body "" b post ")")
      as [-> _]; auto.
    + apply (all_weaken inner_char); [| exact Hin].
      intros x Hx. unfold inner_char in Hx. now apply andb_prop in Hx.
    + apply (all_weaken pattern_char); [exact pattern_char_inner | exact Hb].
  - simpl in E. injection E as _ E.
    change ("klch(" ++ body ++ ")" = pre ++ "oklch(" ++ b ++ ")" ++ post) in E.
    rewrite E, all_app in Hno. simpl in Hno.
    now rewrite andb_false_r in Hno.
Qed.

Lemma derivations_fall_back (s : string) (isLight : bool) (a b : option number) :
  parseOklch s = None ->
  returned (generateCardColor s isLight a b) = Some s
  /\ returned (generateBorderColor s isLight a b) = Some s
  /\ returned (generateAccentColor s a b) = Some s
  /\ returned (generateButtonBorderColor s a b) = Some s.
Proof.
  intros Hnone.
  unfold generateCardColor, generateBorderColor, generateAccentColor,
    generateButtonBorderColor.
  rewrite Hnone. repeat split.
Qed.

(** A text of digits and dots stops a run of white space, and the
    separators of the canonical form stop a run of digits and dots. *)
Lemma stops_space (t rest : string) :
  all is_digit_or_dot t = true -> t <> "" -> stops is_space (t ++ rest) = true.
Proof.
  intros Ht Hne. destruct t as [| c t]; [congruence |].
  simpl in *. apply andb_prop in Ht as [Hc _].
  destruct c as [b0 b1 b2 b3 b4 b5 b6 b7].
  destruct b0, b1, b2, b3, b4, b5, b6, b7;
    try (vm_compute in Hc; discriminate Hc); reflexivity.
Qed.

Lemma strip_prefix_char (x : ascii) (s : string) :
  strip_prefix (String x "") (String x s) = Some s.
Proof. simpl. now rewrite Ascii.eqb_refl. Qed.

(** The canonical form that [formatOklch] writes matches the pattern, and
    the four numerals are the captures. *)
Lemma search_canonical (l c h a : string) :
  all is_digit_or_dot l = true -> l <> "" ->
  all is_digit_or_dot c = true -> c <> "" ->
  all is_digit_or_dot h = true -> h <> "" ->
  all is_digit_or_dot a = true -> a <> "" ->
  search oklch_pattern
    ("oklch(" ++ l ++ "% " ++ c ++ " " ++ h ++ " / " ++ a ++ ")")
  = Some (oklch_captures l c h (Some a)).
Proof.
  intros Hl Hln Hc Hcn Hh Hhn Ha Han.
  apply search_here. unfold oklch_pattern. cbn [exec].
  rewrite strip_prefix_app.
  apply (star_greedy is_space "" (l ++ _)); [reflexivity | now apply stops_space |].
  apply (plus_greedy is_digit_or_dot l); [assumption | assumption | reflexivity |].
  rewrite consumed_app.
  apply opt_first.
  cbn [append]. rewrite strip_prefix_char.
  apply (plus_greedy is_space " " (c ++ _));
    [reflexivity | discriminate | now apply stops_space |].
  apply (plus_greedy is_digit_or_dot c); [assumption | assumption | reflexivity |].
  rewrite consumed_app.
  apply (plus_greedy is_space " " (h ++ _));
    [reflexivity | discriminate | now apply stops_space |].
  apply (plus_greedy is_digit_or_dot h); [assumption | assumption | reflexivity |].
  rewrite consumed_app.
  apply (star_greedy is_space " " ("/ " ++ a ++ ")")); [reflexivity | reflexivity |].
  apply opt_first.
  cbn [append]. rewrite strip_prefix_char.
  apply (star_greedy is_space " " (a ++ _));
    [reflexivity | now apply stops_space |].
  apply (plus_greedy is_digit_or_dot a); [assumption | assumption | reflexivity |].
  rewrite consumed_app.
  apply (star_greedy is_space "" ")"); [reflexivity | reflexivity |].
  reflexivity.
Qed.

(** ** The fallback on a string that does not parse *)

(** C2: when [parseOklch] does not match the input, each of the four
    derivation functions completes normally (nothing is thrown) and returns
    the input string itself, whatever the other arguments are. *)
Theorem unparseable_returned_unchanged :
  forall (s : string) (isLight : bool) (a b : option number),
    parseOklch s = None ->
    returned (generateCardColor s isLight a b) = Some s
    /\ returned (generateBorderColor s isLight a b) = Some s
    /\ returned (generateAccentColor s a b) = Some s
    /\ returned (generateButtonBorderColor s a b) = Some s.
Proof.
  intros s isLight a b Hnone. now apply derivations_fall_back.
Qed.

Lemma unparseable_returned_unchanged_witness :
  parseOklch "not-a-color" = None
  /\ returned (generateCardColor "not-a-color" true None None)
     = Some "not-a-color"
  /\ returned (generateBorderColor "not-a-color" true None None)
     = Some "not-a-color"
  /\ returned (generateAccentColor "not-a-color" None None)
     = Some "not-a-color"
  /\ returned (generateButtonBorderColor "not-a-color" None None)
     = Some "not-a-color".
Proof.
  split; [reflexivity |].
  apply (unparseable_returned_unchanged "not-a-color" true None None).
  reflexivity.
Defined.

(** ** Accent and button border *)

(** C8: [generateAccentColor] and [generateButtonBorderColor] return the
    same string for every input and every pair of coefficients, and both
    default to lightnessReduction = 0.25 and chromaBoost = 0.05. *)
Theorem accent_and_button_border_agree :
  (forall (s : string) (lightnessReduction chromaBoost : option number),
      returned (generateAccentColor s lightnessReduction chromaBoost)
      = returned (generateButtonBorderColor s lightnessReduction chromaBoost))
  /\ (forall s : string,
         generateAccentColor s None None
         = generateAccentColor s (Some (num 0.25)) (Some (num 0.05)))
  /\ (forall s : string,
         generateButtonBorderColor s None None
         = generateButtonBorderColor s (Some (num 0.25)) (Some (num 0.05))).
Proof.
  split; [| split; reflexivity].
  intros s lr cb.
  unfold generateAccentColor, generateButtonBorderColor.
  destruct (parseOklch s) as [p |]; reflexivity.
Qed.

(** ** The card and border formulas *)

(** C5: on a base colour that parses to L, C, H, A, [generateCardColor]
    formats, for a light theme, lightness
    max(0, L - (1 - L + 0.12) * lightnessBoost * 5) and, for a dark theme,
    lightness min(1, L + L * lightnessBoost); in both cases chroma
    min(0.37, C * chromaMultiplier), with H and A as parsed.  The
    coefficients default to 0.2 and 1.2. *)
Theorem card_formula :
  forall (s : string) (p : oklch) (lb cm : option number),
    parseOklch s = Some p ->
    let lightnessBoost := match lb with Some v => v | None => num 0.2 end in
    let chromaMultiplier := match cm with Some v => v | None => num 1.2 end in
    generateCardColor s true lb cm
    = lift (formatOklch
              (Math_max (num 0)
                 (fsub (L p)
                    (fmul (fmul (fadd (fsub (num 1) (L p)) (num 0.12))
                             lightnessBoost) (num 5))))
              (Math_min (num 0.37) (fmul (C p) chromaMultiplier))
              (H p) (A p))
    /\ generateCardColor s false lb cm
       = lift (formatOklch
                 (Math_min (num 1) (fadd (L p) (fmul (L p) lightnessBoost)))
                 (Math_min (num 0.37) (fmul (C p) chromaMultiplier))
                 (H p) (A p)).
Proof.
  intros s [l c h a] lb cm Hp. cbn zeta.
  unfold generateCardColor. rewrite Hp.
  destruct lb, cm; split; reflexivity.
Qed.

Lemma card_formula_witness :
  generateCardColor "oklch(100% 0 0)" true None None
  = (Normal "oklch(88.00% 0.0000 0.00 / 1)", [])
  /\ generateCardColor "oklch(0% 0 0)" false None None
     = (Normal "oklch(0.00% 0.0000 0.00 / 1)", []).
Proof.
  assert (Hp : parseOklch "oklch(100% 0 0)"
               = Some {| L := num 1; C := Zero false; H := Zero false;
                         A := num 1 |}) by (vm_compute; reflexivity).
  assert (Hq : parseOklch "oklch(0% 0 0)"
               = Some {| L := Zero false; C := Zero false; H := Zero false;
                         A := num 1 |}) by (vm_compute; reflexivity).
  split.
  - rewrite (proj1 (card_formula "oklch(100% 0 0)" _ None None Hp)).
    vm_compute. reflexivity.
  - rewrite (proj2 (card_formula "oklch(0% 0 0)" _ None None Hq)).
    vm_compute. reflexivity.
Defined.

(** C6: on a base colour that parses to L, C, H, A, [generateBorderColor]
    formats, for a light theme, lightness
    max(0, L - (1 - L + 0.15) * lightnessBoost * 2) and, for a dark theme,
    lightness min(1, L + L * lightnessBoost); the coefficients default to
    lightnessBoost = 0.75 and chromaMultiplier = 1.85. *)
Theorem border_formula :
  forall (s : string) (p : oklch) (lb cm : option number),
    parseOklch s = Some p ->
    let lightnessBoost := match lb with Some v => v | None => num 0.75 end in
    let chromaMultiplier :=
      match cm with Some v => v | None => num 1.85 end in
    generateBorderColor s true lb cm
    = lift (formatOklch
              (Math_max (num 0)
                 (fsub (L p)
                    (fmul (fmul (fadd (fsub (num 1) (L p)) (num 0.15))
                             lightnessBoost) (num 2))))
              (Math_min (num 0.37) (fmul (C p) chromaMultiplier))
              (H p) (A p))
    /\ generateBorderColor s false lb cm
       = lift (formatOklch
                 (Math_min (num 1) (fadd (L p) (fmul (L p) lightnessBoost)))
                 (Math_min (num 0.37) (fmul (C p) chromaMultiplier))
                 (H p) (A p)).
Proof.
  intros s [l c h a] lb cm Hp. cbn zeta.
  unfold generateBorderColor. rewrite Hp.
  destruct lb, cm; split; reflexivity.
Qed.

Lemma border_formula_witness :
  generateBorderColor "oklch(74.61% 0.1715 51.56 / 1)" true None None
  = (Normal "oklch(14.02% 0.3173 51.56 / 1)", [])
  /\ generateBorderColor "oklch(74.61% 0.1715 51.56 / 1)" false None None
     = (Normal "oklch(100.00% 0.3173 51.56 / 1)", []).
Proof.
  assert (Hp : parseOklch "oklch(74.61% 0.1715 51.56 / 1)"
               = Some {| L := num 0.7461; C := num 0.1715; H := num 51.56;
                         A := num 1 |}) by (vm_compute; reflexivity).
  split.
  - rewrite (proj1 (border_formula _ _ None None Hp)).
    vm_compute. reflexivity.
  - rewrite (proj2 (border_formula _ _ None None Hp)).
    vm_compute. reflexivity.
Defined.

(** ** What a successful parse returns *)

Lemma group_captures (l c h : string) (a : option string) :
  group (oklch_captures l c h a) 1 = Some l
  /\ group (oklch_captures l c h a) 2 = Some c
  /\ group (oklch_captures l c h a) 3 = Some h
  /\ group (oklch_captures l c h a) 4 = a.
Proof. destruct a; repeat split. Qed.

(** C9: on a successful parse the lightness is the lightness literal
    divided by 100 when the literal exceeds 1, and the literal itself
    otherwise; alpha is 1 when the alpha group is absent.  Both
    "oklch(50% 0.1 200)" and "oklch(0.5 0.1 200)" parse to L = 0.5. *)
Theorem parse_lightness_and_alpha :
  (forall (s : string) (p : oklch),
      parseOklch s = Some p ->
      exists (l c h : string) (a : option string),
        search oklch_pattern s = Some (oklch_captures l c h a)
        /\ L p = (if fgt (parseFloat l) (num 1)
                  then fdiv (parseFloat l) (num 100) else parseFloat l)
        /\ A p = match a with Some t => parseFloat t | None => num 1 end)
  /\ (exists p, parseOklch "oklch(50% 0.1 200)" = Some p /\ L p = num 0.5)
  /\ (exists p, parseOklch "oklch(0.5 0.1 200)" = Some p /\ L p = num 0.5).
Proof.
  split; [| split].
  - intros s p. unfold parseOklch.
    destruct (search oklch_pattern s) as [m |] eqn:Hs; [| discriminate].
    destruct (search_oklch_sound _ _ Hs)
      as (pre & body & post & l & c & h & a & _ & _ & -> & _ & _ & _ & Ha).
    intros [= <-]. exists l, c, h, a. split; [reflexivity |].
    unfold parseFloat_group.
    destruct (group_captures l c h a) as (-> & _ & _ & ->). simpl.
    split; [reflexivity |].
    destruct a as [[| x t] |]; simpl; try reflexivity.
    now destruct (Ha "" eq_refl).
  - eexists. split; [vm_compute; reflexivity | vm_compute; reflexivity].
  - eexists. split; [vm_compute; reflexivity | vm_compute; reflexivity].
Qed.

Lemma parse_lightness_and_alpha_witness :
  exists (l c h : string) (a : option string),
    search oklch_pattern "oklch(74.61% 0.1715 51.56)"
    = Some (oklch_captures l c h a)
    /\ num 0.7461 = (if fgt (parseFloat l) (num 1)
                     then fdiv (parseFloat l) (num 100) else parseFloat l)
    /\ num 1 = match a with Some t => parseFloat t | None => num 1 end.
Proof.
  apply (proj1 parse_lightness_and_alpha "oklch(74.61% 0.1715 51.56)"
           {| L := num 0.7461; C := num 0.1715; H := num 51.56;
              A := num 1 |}).
  vm_compute. reflexivity.
Defined.

(** ** The clamps *)










(** ** Fixed precision *)

Lemma unsigned_digit (c : ascii) (r : string) :
  is_digit c = true -> unsigned (String c r) = String c r.
Proof.
  intros H. destruct c as [b0 b1 b2 b3 b4 b5 b6 b7].
  destruct b0, b1, b2, b3, b4, b5, b6, b7;
    try (vm_compute in H; discriminate H); reflexivity.
Qed.

Lemma is_fixed_intro (f : Z) (neg : bool) (ip fp : string) :
  all is_digit ip = true -> ip <> "" -> all is_digit fp = true -> len fp = f ->
  is_fixed f ((if neg then "-" else "") ++ ip ++ "." ++ fp) = true.
Proof.
  intros Hip Hne Hfp Hlen. unfold is_fixed.
  assert (E : unsigned ((if neg then "-" else "") ++ ip ++ "." ++ fp)
              = ip ++ "." ++ fp).
  { destruct neg; [reflexivity |].
    destruct ip as [| c ip]; [congruence |].
    simpl in Hip. apply andb_prop in Hip as [Hc _].
    now apply unsigned_digit. }
  rewrite E, (span_app is_digit ip ("." ++ fp) Hip eq_refl).
  destruct ip as [| c ip]; [congruence |].
  change ("." ++ fp) with (String "." fp). cbn iota.
  rewrite Hfp. apply Z.eqb_eq. exact Hlen.
Qed.

Lemma toFixed_is_fixed (x : number) (f : Z) :
  below_1e21 x -> (0 < f <= 100)%Z ->
  exists t, toFixed x f = Normal t /\ is_fixed f t = true.
Proof.
  intros [Hfin Hlt] Hf.
  destruct (toFixed_shape x f Hfin Hlt Hf)
    as (ip & fp & E & Hip & Hne & Hfp & Hlen & _).
  eexists. split; [exact E |].
  destruct (Qlt_le_dec (toQ x) 0).
  - now apply (is_fixed_intro f true).
  - now apply (is_fixed_intro f false).
Qed.

(** C7, as stated, fails: a chroma of 10^21, which the data model allows,
    is written "1e+21", without decimal places. *)
Lemma fixed_precision_counterexample :
  ~ rendered_fixed (num 0.5) (num (10 ^ 21)) (num 0) (num 1).
Proof.
  intros (l & c & h & _ & Hc & _ & _ & Hfc & _).
  vm_compute in Hc. injection Hc as <-.
  vm_compute in Hfc. discriminate Hfc.
Qed.

Lemma fixed_precision_counterexample_text :
  formatOklch (num 0.5) (num (10 ^ 21)) (num 0) (num 1)
  = Normal "oklch(50.00% 1e+21 0.00 / 1)".
Proof. vm_compute. reflexivity. Qed.

(** C7, amended: formatOklch(0.7461, 0.1715, 51.56, 1) is exactly
    "oklch(74.61% 0.1715 51.56 / 1)"; and for all finite L, C, H with
    L * 100, C and H below 10^21 in magnitude, the formatter writes L * 100
    with exactly 2 decimal places and a percent sign, C with exactly 4, H
    with exactly 2, and A as number-to-string conversion gives it. *)
Theorem format_fixed_precision :
  formatOklch (num 0.7461) (num 0.1715) (num 51.56) (num 1)
  = Normal "oklch(74.61% 0.1715 51.56 / 1)"
  /\ forall L C H A : number,
       below_1e21 (fmul L (num 100)) -> below_1e21 C -> below_1e21 H ->
       rendered_fixed L C H A.
Proof.
  split; [vm_compute; reflexivity |].
  intros L C H A HL HC HH.
  destruct (toFixed_is_fixed _ 2 HL ltac:(lia)) as (l & El & Hl).
  destruct (toFixed_is_fixed _ 4 HC ltac:(lia)) as (c & Ec & Hc).
  destruct (toFixed_is_fixed _ 2 HH ltac:(lia)) as (h & Eh & Hh).
  exists l, c, h. unfold formatOklch. rewrite El, Ec, Eh.
  repeat split; assumption.
Qed.

Lemma format_fixed_precision_witness :
  rendered_fixed (num 0.7461) (num 0.1715) (num 51.56) (num 1).
Proof.
  apply (proj2 format_fixed_precision);
    split; vm_compute; reflexivity.
Defined.

(** ** Format, then parse *)

(** C1, as stated, fails: a lightness of 0.005 is written "0.50%" and
    reads back as 0.5; a negative hue, a chroma of 10^21 and an alpha of
    10^-7 are written in a form that the pattern does not match. *)
Lemma round_trip_counterexample :
  ~ round_trips (num 0.005) (num 0) (num 0) (num 1)
  /\ ~ round_trips (num 0.5) (num 0) (num (-30)) (num 1)
  /\ ~ round_trips (num 0.5) (num (10 ^ 21)) (num 0) (num 1)
  /\ ~ round_trips (num 0.5) (num 0) (num 0) (num (10 ^ (-7))).
Proof.
  split.
  { intros (s & p & Hs & Hp & [_ HL] & _).
    vm_compute in Hs. injection Hs as <-.
    vm_compute in Hp. injection Hp as <-.
    vm_compute in HL. apply HL. reflexivity. }
  repeat split;
    intros (s & p & Hs & Hp & _);
    vm_compute in Hs; injection Hs as <-;
    vm_compute in Hp; discriminate Hp.
Qed.

Local Open Scope Q_scope.

Lemma num_100 : num 100 = Fin false 7036874417766400 (-46).
Proof. vm_compute. reflexivity. Qed.

Lemma num_1 : num 1 = Fin false 4503599627370496 (-52).
Proof. vm_compute. reflexivity. Qed.

Lemma positive_finite (x : number) :
  is_finite x = true -> 0 < toQ x -> exists m e, x = Fin false m e.
Proof.
  destruct x as [s | s | | s m e]; cbn [is_finite toQ];
    try discriminate; intros _ H.
  assert (Hm : 0 < inject_Z (Z.pos m) * 2 ^ e).
  { apply Qmult_lt_0_compat; [reflexivity | apply pow_pos; lra]. }
  destruct s; [exfalso; lra |]. now exists m, e.
Qed.

(** Below 128 the rounding error is at most 2^-47. *)
Lemma RN_error_small (q : Q) :
  0 < q -> q < 128 -> Qabs (toQ (RN false q) - q) <= 2 ^ (-47).
Proof.
  intros Hq Hlt.
  assert (Hbig : q < 2 ^ 1023).
  { eapply Qlt_trans; [exact Hlt |]. reflexivity. }
  eapply Qle_trans; [apply RN_error; assumption |].
  destruct (Qlog2_spec q Hq) as [Hl _].
  assert (Hk : (Qlog2 q < 7)%Z).
  { apply (Qpower_lt_compat_l_inv 2); [| lra]. change (2 ^ 7) with 128. lra. }
  assert (He : (exponent_of q <= -46)%Z)
    by (unfold exponent_of, emin, prec; lia).
  assert (Hp := pow_le 2 _ _ ltac:(lra) He).
  assert (E : 2 ^ (-46) == 2 * 2 ^ (-47)) by reflexivity.
  assert (Hp' := pow_pos 2 (-47) ltac:(lra)).
  rewrite E in Hp. lra.
Qed.

(** What [toFixed] writes for a number between 0 and 10^21 reads back
    within 10^-f. *)
Lemma fixed_round_trip (x : number) (f : Z) :
  is_double x = true -> is_finite x = true ->
  0 <= toQ x -> toQ x < 10 ^ 21 -> (0 < f <= 100)%Z ->
  exists t,
    toFixed x f = Normal t
    /\ all is_digit_or_dot t = true /\ t <> ""%string
    /\ parseFloat t = decimal (round_half_up (toQ x * 10 ^ f)) f
    /\ within (10 ^ (- f)) (parseFloat t) x.
Proof.
  intros Hd Hfin H0 H21 Hf.
  assert (Habs : Qabs (toQ x) == toQ x) by now apply Qabs_pos.
  destruct (toFixed_shape x f Hfin ltac:(now rewrite Habs) Hf)
    as (ip & fp & E & Hip & Hne & Hfp & Hlen & Hval).
  destruct (Qlt_le_dec (toQ x) 0) as [Hneg | _]; [lra |].
  change ("" ++ ip ++ "." ++ fp)%string with (ip ++ "." ++ fp)%string in E.
  exists (ip ++ "." ++ fp)%string.
  assert (Hn : round_half_up (Qabs (toQ x) * 10 ^ f)
               = round_half_up (toQ x * 10 ^ f)).
  { unfold round_half_up. apply Qfloor_comp. now rewrite Habs. }
  rewrite Hn in Hval.
  assert (Hparse : parseFloat (ip ++ "." ++ fp)
                   = decimal (round_half_up (toQ x * 10 ^ f)) f).
  { rewrite parseFloat_decimal by assumption. now rewrite Hval, Hlen. }
  split; [exact E |]. split.
  { rewrite all_app, (digits_digit_or_dot _ Hip).
    change ("." ++ fp)%string with (String "." fp).
    cbn [all]. now rewrite (digits_digit_or_dot _ Hfp). }
  split; [destruct ip; [congruence | discriminate] |].
  split; [exact Hparse |].
  rewrite Hparse.
  set (n := round_half_up (toQ x * 10 ^ f)).
  destruct (round_half_up_spec (toQ x * 10 ^ f)) as [Hr1 Hr2]. fold n in Hr1, Hr2.
  assert (Hn0 : (0 <= n)%Z).
  { apply round_half_up_nonneg. apply Qmult_le_0_compat; [assumption |].
    apply Qlt_le_weak, pow_pos. reflexivity. }
  assert (Hg := pow_pos 10 (- f) ltac:(lra)).
  assert (Eg : 10 ^ f * 10 ^ (- f) == 1).
  { rewrite <- pow_add by lra. now replace (f + - f)%Z with 0%Z by lia. }
  assert (Hgf := pow_pos 10 f ltac:(lra)).
  assert (Hg1 : 10 ^ (- f) <= 1).
  { change 1 with (10 ^ 0). apply pow_le; [lra | lia]. }
  unfold decimal. destruct (Z.eqb_spec n 0) as [E0 | NE0].
  - split; [reflexivity |]. cbn [toQ]. rewrite E0 in Hr2.
    change (inject_Z 0) with 0 in Hr2.
    apply Qabs_case; intros; nra.
  - replace (0 - f)%Z with (- f)%Z by lia.
    set (v := inject_Z n * 10 ^ (- f)).
    assert (Hnpos : 1 <= inject_Z n).
    { change 1 with (inject_Z 1). apply inject_le. lia. }
    assert (Hv0 : 0 < v) by (unfold v; nra).
    assert (Hvx : Qabs (v - toQ x) <= (1 # 2) * 10 ^ (- f)).
    { setoid_replace (v - toQ x)
        with ((inject_Z n - toQ x * 10 ^ f) * 10 ^ (- f))
        by (unfold v; rewrite <- (Qmult_1_r (toQ x)) at 1; rewrite <- Eg; ring).
      rewrite Qabs_Qmult, (Qabs_pos (10 ^ (- f))) by lra.
      apply Qmult_le_compat_r; [| lra].
      apply Qabs_case; intros; lra. }
    assert (Hv1 : v < 2 ^ 1023).
    { assert (Hle : v <= toQ x + 1).
      { apply Qabs_Qle_condition in Hvx. lra. }
      assert (H : 10 ^ 21 + 1 < 2 ^ 1023) by reflexivity. lra. }
    destruct (RN_value false v Hv0 Hv1) as (Hfin' & _).
    split; [assumption |].
    assert (Hnear := RN_nearest v x Hv0 Hv1 Hd).
    set (r := toQ (RN false v)) in *. set (q := toQ x) in *.
    assert (Hsym : Qabs (q - v) == Qabs (v - q)) by now rewrite Qabs_Qminus.
    assert (Htri : Qabs (r - q) <= Qabs (r - v) + Qabs (v - q)).
    { setoid_replace (r - q) with ((r - v) + (v - q)) by ring.
      apply Qabs_triangle. }
    clearbody r q v. lra.
Qed.

Lemma RN_true_nonpositive (q : Q) : toQ (RN true q) <= 0.
Proof.
  unfold RN.
  destruct (_ =? 0)%Z; [cbn [toQ]; lra |].
  destruct (emax <? _)%Z; [cbn [toQ]; lra |].
  cbn [toQ].
  assert (H : 0 < inject_Z (Z.pos (Z.to_pos
    (if (round_half_even (q / 2 ^ Z.max emin (Qlog2 q - (prec - 1))) =? 2 ^ prec)%Z
     then (2 ^ (prec - 1))%Z
     else round_half_even (q / 2 ^ Z.max emin (Qlog2 q - (prec - 1)))))))
    by reflexivity.
  match goal with |- - (_ * 2 ^ ?e) <= 0 => assert (Hp := pow_pos 2 e ltac:(lra)) end.
  nra.
Qed.

Lemma toQ_100 : toQ (Fin false 7036874417766400 (-46)) == 100.
Proof. reflexivity. Qed.

Lemma toQ_1 : toQ (Fin false 4503599627370496 (-52)) == 1.
Proof. reflexivity. Qed.

Lemma abs_times_100 (a c : Q) :
  0 <= a -> Qabs c == 100 -> Qabs a * Qabs c == a * 100.
Proof. intros Ha Hc. rewrite Hc, (Qabs_pos a) by assumption. reflexivity. Qed.

Lemma abs_over_100 (a c : Q) :
  0 <= a -> Qabs c == 100 -> Qabs a / Qabs c * 100 == a.
Proof. intros Ha Hc. rewrite Hc, (Qabs_pos a) by assumption. field. Qed.

Lemma abs_100 : Qabs (toQ (Fin false 7036874417766400 (-46))) == 100.
Proof. vm_compute. reflexivity. Qed.

(** The percentage of a lightness that is at least 1.005 reads back above
    1, and is divided by 100 again. *)
Lemma lightness_round_trip (L : number) :
  is_finite L = true -> toQ L <= 1 ->
  1005 # 1000 <= toQ (fmul L (num 100)) ->
  exists t,
    toFixed (fmul L (num 100)) 2 = Normal t
    /\ all is_digit_or_dot t = true /\ t <> ""%string
    /\ fgt (parseFloat t) (num 1) = true
    /\ within (1 # 100) (fdiv (parseFloat t) (num 100)) L.
Proof.
  intros Hfin Hle Hpct. rewrite num_100, num_1 in *.
  (* L is positive *)
  assert (HL : exists m e, L = Fin false m e).
  { destruct L as [s | s | | s m e]; try discriminate.
    - cbn [fmul toQ] in Hpct. exfalso. lra.
    - destruct s; [| now exists m, e].
      cbn [fmul xorb] in Hpct.
      assert (H := RN_true_nonpositive
                     (Qabs (toQ (Fin true m e))
                      * Qabs (toQ (Fin false 7036874417766400 (-46))))).
      exfalso. lra. }
  destruct HL as (m & e & ->).
  cbn [fmul xorb] in *.
  set (l := toQ (Fin false m e)) in *.
  assert (Hl0 : 0 < l).
  { unfold l. cbn [toQ]. apply Qmult_lt_0_compat; [reflexivity | apply pow_pos; lra]. }
  set (q1 := Qabs l * Qabs (toQ (Fin false 7036874417766400 (-46)))) in *.
  assert (Eq1 : q1 == l * 100).
  { unfold q1. apply abs_times_100; [lra | exact abs_100]. }
  assert (Hq1 : 0 < q1 /\ q1 < 128) by (rewrite Eq1; lra).
  destruct Hq1 as [Hq1a Hq1b].
  assert (Hq1c : q1 < 2 ^ 1023).
  { eapply Qlt_trans; [exact Hq1b |]. reflexivity. }
  destruct (RN_value false q1 Hq1a Hq1c) as (Hf1 & Hd1 & _).
  assert (He1 := RN_error_small q1 Hq1a Hq1b).
  set (f1 := RN false q1) in *. clearbody f1.
  assert (E47 : 2 ^ (-47) == 1 # 140737488355328) by reflexivity.
  rewrite E47 in He1.
  assert (Hf1hi : toQ f1 < 10 ^ 21).
  { apply Qabs_Qle_condition in He1.
    assert (H : 128 + 1 < 10 ^ 21) by reflexivity. lra. }
  destruct (fixed_round_trip f1 2 Hd1 Hf1 ltac:(lra) Hf1hi ltac:(lia))
    as (t & Et & Hall & Hne & Hparse & _).
  exists t. split; [exact Et |]. split; [exact Hall |]. split; [exact Hne |].
  rewrite Hparse.
  set (n := round_half_up (toQ f1 * 10 ^ 2)) in *.
  destruct (round_half_up_spec (toQ f1 * 10 ^ 2)) as [Hr1 Hr2].
  fold n in Hr1, Hr2. change (10 ^ 2) with 100 in Hr1, Hr2.
  assert (Hn : (101 <= n)%Z).
  { assert (100 < n)%Z; [| lia]. apply inject_lt_inv.
    change (inject_Z 100) with 100. lra. }
  rewrite decimal_value by lia.
  set (q2 := value n 0 2).
  assert (Eq2 : q2 * 100 == inject_Z n).
  { unfold q2, value. change (10 ^ (0 - 2)) with (1 # 100). field. }
  assert (Hn' : 101 <= inject_Z n).
  { change 101 with (inject_Z 101). now apply inject_le. }
  assert (Hq2 : 0 < q2 /\ q2 < 128).
  { apply Qabs_Qle_condition in He1. split; lra. }
  destruct Hq2 as [Hq2a Hq2b].
  assert (Hq2c : q2 < 2 ^ 1023).
  { eapply Qlt_trans; [exact Hq2b |]. reflexivity. }
  destruct (RN_value false q2 Hq2a Hq2c) as (Hfp & _ & Hsp & _).
  assert (He2 := RN_error_small q2 Hq2a Hq2b). rewrite E47 in He2.
  set (p := RN false q2) in *. clearbody p.
  assert (Hp1 : 1 < toQ p).
  { apply Qabs_Qle_condition in He2. lra. }
  destruct (positive_finite p Hfp ltac:(lra)) as (mp & ep & Ep).
  split.
  - unfold fgt, flt. rewrite fcompare_finite by (auto; reflexivity).
    assert (Hc : (toQ (Fin false 4503599627370496 (-52)) ?= toQ p) = Lt).
    { apply Qlt_alt. rewrite toQ_1. exact Hp1. }
    now rewrite Hc.
  - rewrite Ep. cbn [fdiv xorb]. rewrite <- Ep.
    set (q3 := Qabs (toQ p) / Qabs (toQ (Fin false 7036874417766400 (-46)))).
    assert (Eq3 : q3 * 100 == toQ p).
    { unfold q3. apply abs_over_100; [lra | exact abs_100]. }
    assert (Hq3 : 0 < q3 /\ q3 < 128).
    { apply Qabs_Qle_condition in He2. split; lra. }
    destruct Hq3 as [Hq3a Hq3b].
    assert (Hq3c : q3 < 2 ^ 1023).
    { eapply Qlt_trans; [exact Hq3b |]. reflexivity. }
    destruct (RN_value false q3 Hq3a Hq3c) as (Hf3 & _).
    assert (He3 := RN_error_small q3 Hq3a Hq3b). rewrite E47 in He3.
    split; [exact Hf3 |].
    apply Qabs_Qle_condition in He1, He2, He3.
    apply Qabs_Qle_condition.
    set (r := toQ (RN false q3)) in *.
    set (vp := toQ p) in *. set (vf := toQ f1) in *.
    change (toQ (Fin false m e)) with l.
    clearbody r vp vf q3 q2 q1 l n. split; lra.
Qed.

Lemma RN_false_nonnegative (q : Q) : 0 <= toQ (RN false q).
Proof.
  unfold RN.
  destruct (_ =? 0)%Z; [cbn [toQ]; lra |].
  destruct (emax <? _)%Z; [cbn [toQ]; lra |].
  cbn [toQ].
  assert (H : 0 < inject_Z (Z.pos (Z.to_pos
    (if (round_half_even (q / 2 ^ Z.max emin (Qlog2 q - (prec - 1))) =? 2 ^ prec)%Z
     then (2 ^ (prec - 1))%Z
     else round_half_even (q / 2 ^ Z.max emin (Qlog2 q - (prec - 1)))))))
    by reflexivity.
  match goal with |- 0 <= _ * 2 ^ ?e => assert (Hp := pow_pos 2 e ltac:(lra)) end.
  nra.
Qed.

Ltac q_decide := vm_compute; first [reflexivity | discriminate].

(** The percentage of a lightness that is below 0.015 is written 0.00 or
    0.01, and reads back as it is. *)
Lemma small_lightness_round_trip (L : number) :
  is_finite L = true -> 0 <= toQ L -> toQ L <= 1 ->
  toQ (fmul L (num 100)) < 15 # 1000 ->
  exists t,
    toFixed (fmul L (num 100)) 2 = Normal t
    /\ all is_digit_or_dot t = true /\ t <> ""%string
    /\ fgt (parseFloat t) (num 1) = false
    /\ within (1 # 100) (parseFloat t) L.
Proof.
  intros Hfin H0 Hle Hpct. rewrite num_100 in *.
  destruct L as [s | s | | s m e]; try discriminate.
  - (* L is zero *)
    cbn [fmul] in *.
    assert (Hz0 : 0 <= toQ (Zero (xorb s false))) by (cbn [toQ]; lra).
    assert (Hz1 : toQ (Zero (xorb s false)) < 10 ^ 21) by reflexivity.
    destruct (fixed_round_trip (Zero (xorb s false)) 2
                eq_refl eq_refl Hz0 Hz1 ltac:(lia))
      as (t & Et & Hall & Hne & Hparse & _).
    exists t. split; [exact Et |]. split; [exact Hall |]. split; [exact Hne |].
    rewrite Hparse. cbn [toQ].
    change (decimal (round_half_up (0 * 10 ^ 2)) 2) with (Zero false).
    split; [reflexivity |]. split; [reflexivity |].
    cbn [toQ]. apply Qabs_case; intros; lra.
  - assert (Hm : 0 < inject_Z (Z.pos m) * 2 ^ e).
    { apply Qmult_lt_0_compat; [reflexivity | apply pow_pos; lra]. }
    destruct s; [cbn [toQ] in H0; exfalso; lra |].
    cbn [fmul xorb] in *.
    set (l := toQ (Fin false m e)) in *.
    assert (Hl0 : 0 < l) by exact Hm.
    set (q1 := Qabs l * Qabs (toQ (Fin false 7036874417766400 (-46)))) in *.
    assert (Eq1 : q1 == l * 100).
    { unfold q1. apply abs_times_100; [lra | exact abs_100]. }
    assert (Hq1 : 0 < q1 /\ q1 < 128) by (rewrite Eq1; lra).
    destruct Hq1 as [Hq1a Hq1b].
    assert (Hq1c : q1 < 2 ^ 1023).
    { eapply Qlt_trans; [exact Hq1b |]. reflexivity. }
    destruct (RN_value false q1 Hq1a Hq1c) as (Hf1 & Hd1 & _).
    assert (He1 := RN_error_small q1 Hq1a Hq1b).
    assert (Hf0 := RN_false_nonnegative q1).
    set (f1 := RN false q1) in *. clearbody f1.
    assert (E47 : 2 ^ (-47) == 1 # 140737488355328) by reflexivity.
    rewrite E47 in He1.
    assert (Hf1hi : toQ f1 < 10 ^ 21).
    { assert (H : 15 # 1000 < 10 ^ 21) by reflexivity. lra. }
    destruct (fixed_round_trip f1 2 Hd1 Hf1 Hf0 Hf1hi ltac:(lia))
      as (t & Et & Hall & Hne & Hparse & _).
    exists t. split; [exact Et |]. split; [exact Hall |]. split; [exact Hne |].
    rewrite Hparse.
    assert (Hn0 : (0 <= round_half_up (toQ f1 * 10 ^ 2))%Z).
    { apply round_half_up_nonneg. change (10 ^ 2) with 100. lra. }
    set (n := round_half_up (toQ f1 * 10 ^ 2)) in *.
    destruct (round_half_up_spec (toQ f1 * 10 ^ 2)) as [Hr1 Hr2].
    fold n in Hr1, Hr2. change (10 ^ 2) with 100 in Hr1, Hr2.
    assert (Hn : (n < 2)%Z).
    { apply inject_lt_inv. change (inject_Z 2) with 2. lra. }
    apply Qabs_Qle_condition in He1.
    assert (Hcases : n = 0%Z \/ n = 1%Z) by lia.
    destruct Hcases as [En | En]; rewrite En in *.
    + split; [q_decide |]. split; [q_decide |].
      change (toQ (decimal 0 2)) with 0.
      change (inject_Z 0) with 0 in Hr2.
      apply Qabs_Qle_condition. fold l.
      set (vf := toQ f1) in *. clearbody vf q1 l. split; lra.
    + split; [q_decide |]. split; [q_decide |].
      assert (Hv1 : 99 # 10000 <= toQ (decimal 1 2)) by q_decide.
      assert (Hv2 : toQ (decimal 1 2) <= 10001 # 1000000) by q_decide.
      change (inject_Z 1) with 1 in Hr1, Hr2.
      apply Qabs_Qle_condition. fold l.
      set (v := toQ (decimal 1 2)) in *.
      set (vf := toQ f1) in *. clearbody v vf q1 l. split; lra.
Qed.

Lemma within_weaken (tol tol' : Q) (a b : number) :
  tol <= tol' -> within tol a b -> within tol' a b.
Proof. intros Ht [Hf Hw]. split; [assumption | lra]. Qed.

(** C1, amended: for all finite binary64 numbers L in [0,1] whose
    percentage L * 100 is below 0.015 or at least 1.005, C and H in
    [0, 10^21), and A equal to 0 or in [10^-6, 1], parsing the string that
    the formatter produces succeeds and returns each of L, C, H, A within
    1e-2. *)
Theorem canonical_round_trip :
  forall L C H A : number,
    binary64 L -> binary64 C -> binary64 H -> binary64 A ->
    0 <= toQ L <= 1 ->
    (toQ (fmul L (num 100)) < 15 # 1000
     \/ 1005 # 1000 <= toQ (fmul L (num 100))) ->
    0 <= toQ C < 10 ^ 21 ->
    0 <= toQ H < 10 ^ 21 ->
    (toQ A == 0 \/ 10 ^ (-6) <= toQ A <= 1) ->
    round_trips L C H A.
Proof.
  intros L C H A [_ HLf] [HCd HCf] [HHd HHf] [HAd HAf] HL1 HLp HC HH HA.
  assert (HLt : exists l,
             toFixed (fmul L (num 100)) 2 = Normal l
             /\ all is_digit_or_dot l = true /\ l <> ""%string
             /\ within (1 # 100)
                  (if fgt (parseFloat l) (num 1)
                   then fdiv (parseFloat l) (num 100) else parseFloat l) L).
  { destruct HLp as [HLp | HLp].
    - destruct (small_lightness_round_trip L HLf (proj1 HL1) (proj2 HL1) HLp)
        as (l & El & Hl & Hln & Hgt & HwL).
      exists l. now rewrite Hgt.
    - destruct (lightness_round_trip L HLf (proj2 HL1) HLp)
        as (l & El & Hl & Hln & Hgt & HwL).
      exists l. now rewrite Hgt. }
  destruct HLt as (l & El & Hl & Hln & HwL).
  destruct (fixed_round_trip C 4 HCd HCf (proj1 HC) (proj2 HC) ltac:(lia))
    as (c & Ec & Hc & Hcn & _ & HwC).
  destruct (fixed_round_trip H 2 HHd HHf (proj1 HH) (proj2 HH) ltac:(lia))
    as (h & Eh & Hh & Hhn & _ & HwH).
  destruct (ToString_round_trip A HAd HAf HA) as (Ha & Han & HfA & HwA).
  exists ("oklch(" ++ l ++ "% " ++ c ++ " " ++ h ++ " / " ++ ToString A
          ++ ")")%string,
    {| ThemeColors.L := if fgt (parseFloat l) (num 1)
                        then fdiv (parseFloat l) (num 100) else parseFloat l;
       ThemeColors.C := parseFloat c;
       ThemeColors.H := parseFloat h;
       ThemeColors.A := parseFloat (ToString A) |}.
  split.
  { unfold formatOklch. now rewrite El, Ec, Eh. }
  split.
  { unfold parseOklch.
    rewrite (search_canonical l c h (ToString A)) by assumption.
    unfold parseFloat_group.
    destruct (group_captures l c h (Some (ToString A))) as (-> & -> & -> & ->).
    cbn [truthy].
    destruct (ToString A) as [| x a]; [congruence | reflexivity]. }
  cbn [ThemeColors.L ThemeColors.C ThemeColors.H ThemeColors.A].
  split; [exact HwL |].
  split; [apply (within_weaken (10 ^ (- (4)))); [discriminate | exact HwC] |].
  split; [apply (within_weaken (10 ^ (- (2)))); [discriminate | exact HwH] |].
  apply (within_weaken (10 ^ (-15))); [discriminate |].
  split; assumption.
Qed.

Lemma canonical_round_trip_witness :
  round_trips (num 0.7461) (num 0.1715) (num 51.56) (num 1).
Proof.
  apply canonical_round_trip;
    try (split; q_decide); try q_decide.
  - right. q_decide.
  - right. split; q_decide.
Defined.

(** ** Signed components *)

(** C10: the pattern admits only digits and dots in a component.  For every
    single term "oklch(...)" (no closing parenthesis and no letter o between
    the parentheses) whose text between the parentheses carries a minus
    sign (a negative hue, for instance), [parseOklch] returns no match, and
    each derivation function returns the string unchanged. *)
Theorem minus_sign_not_parsed :
  forall (body : string) (isLight : bool) (a b : option number),
    all inner_char body = true ->
    has_minus body = true ->
    let s := "oklch(" ++ body ++ ")" in
    parseOklch s = None
    /\ returned (generateCardColor s isLight a b) = Some s
    /\ returned (generateBorderColor s isLight a b) = Some s
    /\ returned (generateAccentColor s a b) = Some s
    /\ returned (generateButtonBorderColor s a b) = Some s.
Proof.
  intros body isLight a b Hin Hminus s.
  assert (Hnone : parseOklch s = None).
  { unfold parseOklch.
    destruct (search oklch_pattern s) as [m |] eqn:Hs; [| reflexivity].
    apply single_term_parse in Hs; [| exact Hin].
    unfold has_minus in Hminus. apply negb_true_iff in Hminus.
    rewrite (all_weaken _ _ _ pattern_char_not_minus Hs) in Hminus.
    discriminate. }
  split; [exact Hnone |]. now apply derivations_fall_back.
Qed.

Lemma minus_sign_not_parsed_witness :
  parseOklch "oklch(50% 0.1 -200)" = None
  /\ returned (generateCardColor "oklch(50% 0.1 -200)" true None None)
     = Some "oklch(50% 0.1 -200)"
  /\ returned (generateBorderColor "oklch(50% 0.1 -200)" true None None)
     = Some "oklch(50% 0.1 -200)"
  /\ returned (generateAccentColor "oklch(50% 0.1 -200)" None None)
     = Some "oklch(50% 0.1 -200)"
  /\ returned (generateButtonBorderColor "oklch(50% 0.1 -200)" None None)
     = Some "oklch(50% 0.1 -200)".
Proof.
  apply (minus_sign_not_parsed "50% 0.1 -200" true None None); reflexivity.
Defined.

End ThemeColorsFacts.

(** * Further properties *)

(** ** The grammar of [parseOklch] *)

Module GrammarFacts.

Import Number Text Builtin Regex ThemeColors Spec Grammar Ranges.
Import NumberFacts RoundingFacts TextFacts DigitFacts BuiltinFacts RegexFacts
  ThemeColorsFacts.
Local Open Scope string_scope.

(** A match of the pattern is the text of a well-formed term. *)
Lemma oklch_match_term (u : string) (m : captures) :
  matches oklch_pattern u [] m ->
  exists t, u = term_text t /\ well_formed t /\ m = captures_of t.
Proof.
  unfold oklch_pattern. intros Hm. invert_matches.
  - match goal with
    | |- context [ "oklch(" ++ ?w0 ++ ?l ++ "%" ++ ?w1 ++ ?c ++ ?w2 ++ ?h
                   ++ ?w3 ++ ("/" ++ ?w ++ ?a) ++ ?w4 ++ ")" ] =>
        exists {| lead := w0; lightness := l; percent := true; gap1 := w1;
                  chroma := c; gap2 := w2; hue := h; gap3 := w3;
                  alpha := Some (w, a); trail := w4 |}
    end.
    unfold term_text, well_formed, captures_of, literal, blank; cbn.
    repeat split; assumption.
  - match goal with
    | |- context [ "oklch(" ++ ?w0 ++ ?l ++ "" ++ ?w1 ++ ?c ++ ?w2 ++ ?h
                   ++ ?w3 ++ ("/" ++ ?w ++ ?a) ++ ?w4 ++ ")" ] =>
        exists {| lead := w0; lightness := l; percent := false; gap1 := w1;
                  chroma := c; gap2 := w2; hue := h; gap3 := w3;
                  alpha := Some (w, a); trail := w4 |}
    end.
    unfold term_text, well_formed, captures_of, literal, blank; cbn.
    repeat split; assumption.
  - match goal with
    | |- context [ "oklch(" ++ ?w0 ++ ?l ++ "%" ++ ?w1 ++ ?c ++ ?w2 ++ ?h
                   ++ ?w3 ++ "" ++ ?w4 ++ ")" ] =>
        exists {| lead := w0; lightness := l; percent := true; gap1 := w1;
                  chroma := c; gap2 := w2; hue := h; gap3 := w3;
                  alpha := None; trail := w4 |}
    end.
    unfold term_text, well_formed, captures_of, literal, blank; cbn.
    repeat split; assumption.
  - match goal with
    | |- context [ "oklch(" ++ ?w0 ++ ?l ++ "" ++ ?w1 ++ ?c ++ ?w2 ++ ?h
                   ++ ?w3 ++ "" ++ ?w4 ++ ")" ] =>
        exists {| lead := w0; lightness := l; percent := false; gap1 := w1;
                  chroma := c; gap2 := w2; hue := h; gap3 := w3;
                  alpha := None; trail := w4 |}
    end.
    unfold term_text, well_formed, captures_of, literal, blank; cbn.
    repeat split; assumption.
Qed.

Lemma reading_of_captures (t : oklch_term) :
  well_formed t ->
  {| L := if fgt (parseFloat_group (captures_of t) 1) (num 1)
          then fdiv (parseFloat_group (captures_of t) 1) (num 100)
          else parseFloat_group (captures_of t) 1;
     C := parseFloat_group (captures_of t) 2;
     H := parseFloat_group (captures_of t) 3;
     A := if truthy (group (captures_of t) 4)
          then parseFloat_group (captures_of t) 4 else num 1 |}
  = reading t.
Proof.
  intros Hw. unfold captures_of, reading, parseFloat_group.
  destruct (group_captures (lightness t) (chroma t) (hue t)
              (option_map snd (alpha t))) as (-> & -> & -> & ->).
  destruct Hw as (_ & _ & _ & _ & _ & _ & _ & _ & _ & Ha & _).
  destruct (alpha t) as [[w a] |]; cbn; [| reflexivity].
  destruct Ha as [_ [_ Hne]]. destruct a; [congruence | reflexivity].
Qed.

(** X1: when [parseOklch] accepts a string, the string holds a well-formed
    term: "oklch(", optional white space, the lightness literal, an
    optional percent sign, white space, the chroma literal, white space, the
    hue literal, optional white space, an optional "/" with optional white
    space and the alpha literal, optional white space, ")"; each literal is
    one or more digits and points.  The colour returned is the reading of
    that term. *)
Theorem parse_sound :
  forall (s : string) (p : oklch),
    parseOklch s = Some p ->
    exists (pre post : string) (t : oklch_term),
      s = pre ++ term_text t ++ post /\ well_formed t /\ p = reading t.
Proof.
  intros s p. unfold parseOklch.
  destruct (search oklch_pattern s) as [m |] eqn:Hs; [| discriminate].
  destruct (search_sound _ _ _ Hs) as (pre & u & post & -> & Hm).
  destruct (oklch_match_term _ _ Hm) as (t & -> & Hw & ->).
  intros [= <-]. exists pre, post, t.
  split; [reflexivity |]. split; [assumption |].
  now apply reading_of_captures.
Qed.

Lemma parse_sound_witness :
  exists (pre post : string) (t : oklch_term),
    "oklch(50% 0.1 200)" = pre ++ term_text t ++ post
    /\ well_formed t
    /\ {| L := num 0.5; C := num 0.1; H := num 200; A := num 1 |}
       = reading t.
Proof.
  apply (parse_sound "oklch(50% 0.1 200)"
           {| L := num 0.5; C := num 0.1; H := num 200; A := num 1 |}).
  vm_compute. reflexivity.
Defined.

(** ** Completeness *)

Lemma digit_or_dot_not_space (c : ascii) :
  is_digit_or_dot c = true -> is_space c = false.
Proof.
  destruct c as [b0 b1 b2 b3 b4 b5 b6 b7].
  destruct b0, b1, b2, b3, b4, b5, b6, b7; intros Hc;
    try (vm_compute in Hc; discriminate Hc); reflexivity.
Qed.

Lemma space_not_digit_or_dot (c : ascii) :
  is_space c = true -> is_digit_or_dot c = false.
Proof.
  intros Hc. destruct (is_digit_or_dot c) eqn:E; [| reflexivity].
  apply digit_or_dot_not_space in E. congruence.
Qed.

Lemma space_not_char (x c : ascii) :
  is_space x = false -> is_space c = true -> Ascii.eqb x c = false.
Proof.
  intros Hx Hc. destruct (Ascii.eqb_spec x c) as [-> |]; congruence.
Qed.

(** Blank text, then something that is no digit and no point. *)
Lemma stops_blank (t rest : string) :
  all is_space t = true -> stops is_digit_or_dot rest = true ->
  stops is_digit_or_dot (t ++ rest) = true.
Proof.
  intros Ht Hr. destruct t as [| c t]; [exact Hr |].
  simpl in *. apply andb_prop in Ht as [Hc _].
  now rewrite (space_not_digit_or_dot _ Hc).
Qed.

Lemma stops_gap (t rest : string) :
  all is_space t = true -> t <> "" -> stops is_digit_or_dot (t ++ rest) = true.
Proof.
  intros Ht Hne. destruct t as [| c t]; [congruence |].
  simpl in *. apply andb_prop in Ht as [Hc _].
  now rewrite (space_not_digit_or_dot _ Hc).
Qed.

Lemma strip_prefix_gap (x : ascii) (t rest : string) :
  is_space x = false -> all is_space t = true -> t <> "" ->
  strip_prefix (String x "") (t ++ rest) = None.
Proof.
  intros Hx Ht Hne. destruct t as [| c t]; [congruence |].
  simpl in *. apply andb_prop in Ht as [Hc _].
  now rewrite (space_not_char _ _ Hx Hc).
Qed.

Lemma term_text_app (t : oklch_term) (post : string) :
  term_text t ++ post
  = "oklch(" ++ lead t ++ lightness t ++ (if percent t then "%" else "")
    ++ gap1 t ++ chroma t ++ gap2 t ++ hue t ++ gap3 t
    ++ alpha_text (alpha t) ++ trail t ++ ")" ++ post.
Proof.
  unfold term_text. now rewrite !app_assoc.
Qed.

Lemma exec_term (t : oklch_term) (post : string) :
  well_formed t ->
  exec oklch_pattern (term_text t ++ post) [] (fun _ m => Some m)
  = Some (captures_of t).
Proof.
  intros (Hw0 & [Hl Hln] & Hw1 & Hw1n & [Hc Hcn] & Hw2 & Hw2n & [Hh Hhn]
          & Hw3 & Ha & Hw4).
  rewrite term_text_app. unfold captures_of, blank in *.
  destruct t as [w0 l pc w1 c w2 h w3 al w4]; cbn [lead lightness percent gap1
    chroma gap2 hue gap3 alpha trail] in *.
  unfold oklch_pattern. cbn [exec].
  rewrite strip_prefix_app.
  apply (star_greedy is_space w0 (l ++ _));
    [assumption | now apply stops_space |].
  apply (plus_greedy is_digit_or_dot l); [assumption | assumption | |].
  { destruct pc; [reflexivity |]. cbn [append]. now apply stops_gap. }
  rewrite consumed_app.
  assert (Hrest :
    plus is_space
      (w1 ++ c ++ w2 ++ h ++ w3 ++ alpha_text al ++ w4 ++ ")" ++ post)
      (fun s' =>
         exec (Cap 2 (Plus is_digit_or_dot)) s' [(1%nat, l)]
           (fun s1 m1 =>
              exec (Plus is_space) s1 m1
                (fun s2 m2 =>
                   exec (Cap 3 (Plus is_digit_or_dot)) s2 m2
                     (fun s3 m3 =>
                        exec (Star is_space) s3 m3
                          (fun s4 m4 =>
                             exec (Opt (Seq (Str "/") (Seq (Star is_space)
                                      (Cap 4 (Plus is_digit_or_dot))))) s4 m4
                               (fun s5 m5 =>
                                  exec (Star is_space) s5 m5
                                    (fun s6 m6 =>
                                       exec (Str ")") s6 m6
                                         (fun _ m => Some m))))))))
    = Some (oklch_captures l c h (option_map snd al))).
  { cbn [exec].
    apply (plus_greedy is_space w1 (c ++ _));
      [assumption | assumption | now apply stops_space |].
    apply (plus_greedy is_digit_or_dot c);
      [assumption | assumption | now apply stops_gap |].
    rewrite consumed_app.
    apply (plus_greedy is_space w2 (h ++ _));
      [assumption | assumption | now apply stops_space |].
    apply (plus_greedy is_digit_or_dot h); [assumption | assumption | |].
    { apply stops_blank; [assumption |].
      destruct al as [[w a] |]; [reflexivity |].
      cbn [alpha_text append]. now apply stops_blank. }
    rewrite consumed_app.
    destruct al as [[w a] |]; cbn [alpha_text option_map snd].
    - destruct Ha as [Hw [Ha Han]].
      change (("/" ++ w ++ a) ++ w4 ++ ")" ++ post)
        with (String "/" ((w ++ a) ++ w4 ++ ")" ++ post)).
      rewrite app_assoc.
      apply (star_greedy is_space w3 (String "/" _));
        [assumption | reflexivity |].
      apply opt_first. cbn [exec].
      rewrite strip_prefix_char.
      apply (star_greedy is_space w (a ++ _));
        [assumption | now apply stops_space |].
      apply (plus_greedy is_digit_or_dot a);
        [assumption | assumption | now apply stops_blank |].
      rewrite consumed_app.
      apply (star_greedy is_space w4 (")" ++ post));
        [assumption | reflexivity |].
      cbn [append]. rewrite strip_prefix_char. reflexivity.
    - cbn [append]. rewrite <- app_assoc.
      apply (star_greedy is_space (w3 ++ w4) (")" ++ post));
        [ rewrite all_app; now rewrite Hw3, Hw4 | reflexivity |].
      cbn [exec append].
      replace (strip_prefix "/" (String ")" post)) with (@None string)
        by reflexivity.
      cbn [star]. change (is_space ")") with false. cbn iota.
      rewrite strip_prefix_char. reflexivity. }
  destruct pc.
  - apply opt_first. cbn [append]. rewrite strip_prefix_char. exact Hrest.
  - cbn [append].
    rewrite (strip_prefix_gap "%" w1 _ eq_refl Hw1 Hw1n). exact Hrest.
Qed.

(** The word "oklch(" does not begin in a text that does not hold it and
    end in a following "oklch(". *)
Lemma strip_prefix_straddle (pre rest : string) :
  pre <> "" -> strip_prefix "oklch(" pre = None ->
  strip_prefix "oklch(" (pre ++ "oklch(" ++ rest) = None.
Proof.
  intros Hne H.
  destruct pre as [| c1 pre]; [congruence |]. clear Hne.
  cbn [append strip_prefix] in *.
  destruct (Ascii.eqb "o" c1); [| reflexivity].
  destruct pre as [| c2 pre]; [reflexivity |].
  cbn [append strip_prefix] in *.
  destruct (Ascii.eqb "k" c2); [| reflexivity].
  destruct pre as [| c3 pre]; [reflexivity |].
  cbn [append strip_prefix] in *.
  destruct (Ascii.eqb "l" c3); [| reflexivity].
  destruct pre as [| c4 pre]; [reflexivity |].
  cbn [append strip_prefix] in *.
  destruct (Ascii.eqb "c" c4); [| reflexivity].
  destruct pre as [| c5 pre]; [reflexivity |].
  cbn [append strip_prefix] in *.
  destruct (Ascii.eqb "h" c5); [| reflexivity].
  destruct pre as [| c6 pre]; [reflexivity |].
  cbn [append strip_prefix] in *.
  destruct (Ascii.eqb "(" c6); [discriminate | reflexivity].
Qed.

Lemma search_term (pre post : string) (t : oklch_term) :
  well_formed t -> occurs "oklch(" pre = false ->
  search oklch_pattern (pre ++ term_text t ++ post) = Some (captures_of t).
Proof.
  intros Hw. induction pre as [| c pre IH]; intros Hp.
  - apply search_here. now apply exec_term.
  - assert (Hs : strip_prefix "oklch(" (String c pre) = None).
    { cbn [occurs] in Hp.
      destruct (strip_prefix "oklch(" (String c pre));
        [discriminate | reflexivity]. }
    assert (Hp' : occurs "oklch(" pre = false).
    { cbn [occurs] in Hp. rewrite Hs in Hp. exact Hp. }
    change ((String c pre) ++ term_text t ++ post)
      with (String c (pre ++ term_text t ++ post)).
    cbn [search].
    change (String c (pre ++ term_text t ++ post))
      with ((String c pre) ++ term_text t ++ post).
    rewrite term_text_app.
    unfold oklch_pattern at 1. cbn [exec].
    rewrite (strip_prefix_straddle (String c pre) _ ltac:(discriminate) Hs).
    rewrite <- term_text_app. now apply IH.
Qed.

(** X2: a well-formed term is parsed wherever it stands.  When no "oklch("
    occurs in the text before it, [parseOklch] returns the reading of the
    term, whatever white space separates its parts and whatever text
    follows it. *)
Theorem parse_complete :
  forall (pre post : string) (t : oklch_term),
    well_formed t -> occurs "oklch(" pre = false ->
    parseOklch (pre ++ term_text t ++ post) = Some (reading t).
Proof.
  intros pre post t Hw Hp. unfold parseOklch.
  rewrite (search_term pre post t Hw Hp).
  f_equal. now apply reading_of_captures.
Qed.

Lemma parse_complete_witness :
  parseOklch
    ("color: "
     ++ term_text {| lead := " "; lightness := "74.61"; percent := true;
                     gap1 := " "; chroma := "0.1715"; gap2 := "  ";
                     hue := "51.56"; gap3 := "";
                     alpha := Some (" ", "0.5"); trail := " " |}
     ++ ";")
  = Some (reading {| lead := " "; lightness := "74.61"; percent := true;
                     gap1 := " "; chroma := "0.1715"; gap2 := "  ";
                     hue := "51.56"; gap3 := "";
                     alpha := Some (" ", "0.5"); trail := " " |}).
Proof.
  apply parse_complete.
  - unfold well_formed, literal, blank. cbn. repeat split; discriminate.
  - vm_compute. reflexivity.
Defined.

Lemma occurs_intro (n s r : string) :
  strip_prefix n s = Some r -> occurs n s = true.
Proof. destruct s; simpl; now intros ->. Qed.

Lemma occurs_here (n s : string) : occurs n (n ++ s) = true.
Proof. apply (occurs_intro n _ s), strip_prefix_app. Qed.

Lemma occurs_app (n pre s : string) : occurs n (pre ++ n ++ s) = true.
Proof.
  induction pre as [| c pre IH]; [exact (occurs_here n s) |].
  cbn [append occurs]. rewrite IH.
  now destruct (strip_prefix n (String c (pre ++ n ++ s))).
Qed.

Lemma search_needs_word (s : string) :
  occurs "oklch(" s = false -> search oklch_pattern s = None.
Proof.
  intros Hs. destruct (search oklch_pattern s) as [m |] eqn:E; [| reflexivity].
  destruct (search_oklch_sound _ _ E)
    as (pre & body & post & l & c & h & a & -> & _).
  now rewrite occurs_app in Hs.
Qed.

(** X3: a string in which "oklch(" does not occur (a colour in another
    notation, for instance) is not parsed, and each derivation function
    returns it unchanged. *)
Theorem other_notation_unchanged :
  forall (s : string) (isLight : bool) (a b : option number),
    occurs "oklch(" s = false ->
    parseOklch s = None
    /\ returned (generateCardColor s isLight a b) = Some s
    /\ returned (generateBorderColor s isLight a b) = Some s
    /\ returned (generateAccentColor s a b) = Some s
    /\ returned (generateButtonBorderColor s a b) = Some s.
Proof.
  intros s isLight a b Hs.
  assert (Hp : parseOklch s = None).
  { unfold parseOklch. now rewrite (search_needs_word s Hs). }
  split; [exact Hp |]. now apply derivations_fall_back.
Qed.

Lemma other_notation_unchanged_witness :
  parseOklch "#ff8800" = None
  /\ returned (generateCardColor "#ff8800" true None None) = Some "#ff8800"
  /\ returned (generateBorderColor "#ff8800" true None None) = Some "#ff8800"
  /\ returned (generateAccentColor "#ff8800" None None) = Some "#ff8800"
  /\ returned (generateButtonBorderColor "#ff8800" None None) = Some "#ff8800".
Proof.
  apply (other_notation_unchanged "#ff8800" true None None).
  vm_compute. reflexivity.
Defined.

(** A closing parenthesis after a text does not complete the word
    "oklch(". *)
Lemma strip_prefix_closed (u : string) :
  strip_prefix "oklch(" u = None -> strip_prefix "oklch(" (u ++ ")") = None.
Proof.
  intros H.
  destruct u as [| c1 u]; [reflexivity |].
  cbn [append strip_prefix] in *.
  destruct (Ascii.eqb "o" c1); [| reflexivity].
  destruct u as [| c2 u]; [reflexivity |].
  cbn [append strip_prefix] in *.
  destruct (Ascii.eqb "k" c2); [| reflexivity].
  destruct u as [| c3 u]; [reflexivity |].
  cbn [append strip_prefix] in *.
  destruct (Ascii.eqb "l" c3); [| reflexivity].
  destruct u as [| c4 u]; [reflexivity |].
  cbn [append strip_prefix] in *.
  destruct (Ascii.eqb "c" c4); [| reflexivity].
  destruct u as [| c5 u]; [reflexivity |].
  cbn [append strip_prefix] in *.
  destruct (Ascii.eqb "h" c5); [| reflexivity].
  destruct u as [| c6 u]; [reflexivity |].
  cbn [append strip_prefix] in *.
  destruct (Ascii.eqb "(" c6); [discriminate | reflexivity].
Qed.

Lemma occurs_closed (u : string) :
  occurs "oklch(" u = false -> occurs "oklch(" (u ++ ")") = false.
Proof.
  induction u as [| c u IH]; [reflexivity |].
  intros H. cbn [occurs] in H.
  destruct (strip_prefix "oklch(" (String c u)) eqn:E; [discriminate |].
  change (String c u ++ ")") with (String c (u ++ ")")).
  cbn [occurs].
  change (String c (u ++ ")")) with (String c u ++ ")").
  rewrite (strip_prefix_closed _ E). now apply IH.
Qed.

(** A single term that is parsed holds only characters of the pattern
    between its parentheses. *)
Lemma lone_term_parse (body : string) (m : captures) :
  unclosed body -> occurs "oklch(" body = false ->
  search oklch_pattern ("oklch(" ++ body ++ ")") = Some m ->
  all pattern_char body = true.
Proof.
  intros Hcl Hno Hs.
  destruct (search_oklch_sound _ _ Hs)
    as (pre & b & post & l & c & h & a & E & Hb & _).
  destruct pre as [| x pre].
  - simpl in E. injection E as E.
    destruct (split_at_stop (fun c => negb (Ascii.eqb c ")"))
                body "" b post ")") as [-> _]; auto.
    apply (all_weaken pattern_char); [exact pattern_char_inner | exact Hb].
  - exfalso.
    destruct (strip_prefix "oklch(" (String x pre)) as [pre' |] eqn:Ep.
    + apply strip_prefix_some in Ep. rewrite Ep in E.
      rewrite app_assoc in E.
      assert (E' : body ++ ")" = pre' ++ "oklch(" ++ b ++ ")" ++ post).
      { cbn [append] in E. now injection E. }
      assert (Ho := occurs_closed body Hno).
      rewrite E', occurs_app in Ho. discriminate.
    + assert (Hst := strip_prefix_straddle (String x pre) (b ++ ")" ++ post)
                       ltac:(discriminate) Ep).
      rewrite <- E, strip_prefix_app in Hst. discriminate.
Qed.

(** X4: the pattern admits only white space, digits, points, "%" and "/"
    between the parentheses.  A single term "oklch(...)" (no closing
    parenthesis and no further "oklch(" between the parentheses) that
    holds any other character there (a comma, a sign, a unit, the keyword
    none, an exponent) is not parsed, and each derivation function returns
    it unchanged. *)
Theorem foreign_character_not_parsed :
  forall (body : string) (isLight : bool) (a b : option number),
    unclosed body ->
    occurs "oklch(" body = false ->
    all pattern_char body = false ->
    let s := "oklch(" ++ body ++ ")" in
    parseOklch s = None
    /\ returned (generateCardColor s isLight a b) = Some s
    /\ returned (generateBorderColor s isLight a b) = Some s
    /\ returned (generateAccentColor s a b) = Some s
    /\ returned (generateButtonBorderColor s a b) = Some s.
Proof.
  intros body isLight a b Hcl Hno Hout s.
  assert (Hp : parseOklch s = None).
  { unfold parseOklch.
    destruct (search oklch_pattern s) as [m |] eqn:E; [| reflexivity].
    rewrite (lone_term_parse body m Hcl Hno E) in Hout. discriminate. }
  split; [exact Hp |]. now apply derivations_fall_back.
Qed.

Lemma foreign_character_not_parsed_witness :
  let s := "oklch(none 0.1, 200deg)" in
  parseOklch s = None
  /\ returned (generateCardColor s false None None) = Some s
  /\ returned (generateBorderColor s false None None) = Some s
  /\ returned (generateAccentColor s None None) = Some s
  /\ returned (generateButtonBorderColor s None None) = Some s.
Proof.
  apply (foreign_character_not_parsed "none 0.1, 200deg" false None None);
    vm_compute; reflexivity.
Defined.

(** ** Nothing is thrown *)





(** ** The percent sign *)

(** X6: the percent sign after the lightness does not change what is
    parsed: a well-formed term reads the same with it and without it. *)
Theorem percent_sign_ignored :
  forall (pre post : string) (t : oklch_term),
    well_formed t -> occurs "oklch(" pre = false ->
    parseOklch (pre ++ term_text (with_percent true t) ++ post)
    = parseOklch (pre ++ term_text (with_percent false t) ++ post).
Proof.
  intros pre post t Hw Hp. unfold parseOklch.
  rewrite (search_term pre post (with_percent true t) Hw Hp).
  rewrite (search_term pre post (with_percent false t) Hw Hp).
  reflexivity.
Qed.

Lemma percent_sign_ignored_witness :
  parseOklch
    ("" ++ term_text
             (with_percent true
                {| lead := ""; lightness := "50"; percent := false;
                   gap1 := " "; chroma := "0.1"; gap2 := " ";
                   hue := "200"; gap3 := ""; alpha := None; trail := "" |})
     ++ "")
  = parseOklch
      ("" ++ term_text
               (with_percent false
                  {| lead := ""; lightness := "50"; percent := false;
                     gap1 := " "; chroma := "0.1"; gap2 := " ";
                     hue := "200"; gap3 := ""; alpha := None; trail := "" |})
       ++ "").
Proof.
  apply percent_sign_ignored.
  - unfold well_formed, literal, blank. cbn. repeat split; discriminate.
  - vm_compute. reflexivity.
Defined.

End GrammarFacts.

(** ** The components of a parsed colour *)

Module ComponentFacts.

Import Number Text Builtin Regex ThemeColors Spec Grammar Ranges.
Import NumberFacts RoundingFacts TextFacts DigitFacts BuiltinFacts RegexFacts
  ThemeColorsFacts.
Import GrammarFacts.
Local Open Scope string_scope.
Local Open Scope Z_scope.
Local Open Scope Q_scope.

(** ** Rounding, beyond the finite range *)

Lemma RN_sign (s : bool) (q : Q) : sign_of (RN s q) = s.
Proof.
  unfold RN.
  repeat match goal with
         | |- context [if ?b then _ else _] => destruct b
         end; reflexivity.
Qed.

Lemma RN_is_double (s : bool) (q : Q) : 0 < q -> is_double (RN s q) = true.
Proof.
  intros Hq. unfold RN. fold (exponent_of q). fold (mantissa_of q).
  destruct (mantissa_bounds q Hq) as [Hm0 Hm1].
  assert (He0 : (emin <= exponent_of q)%Z) by (unfold exponent_of; lia).
  assert (Hn := mantissa_normal q Hq).
  set (e := exponent_of q) in *. set (m := mantissa_of q) in *.
  destruct (Z.eqb_spec m (2 ^ prec)) as [E | NE].
  - change (2 ^ (prec - 1) =? 0)%Z with false. cbv iota.
    destruct (Z.ltb_spec emax (e + 1)); [reflexivity |].
    apply is_double_intro; [unfold prec | | right]; lia.
  - destruct (Z.eqb_spec m 0) as [E0 | NE0]; [reflexivity |].
    destruct (Z.ltb_spec emax e); [reflexivity |].
    apply is_double_intro; [lia | lia |].
    destruct (Z.eq_dec e emin); [now left | right; auto].
Qed.

Lemma roundQ_is_double (q : Q) : is_double (roundQ q) = true.
Proof.
  unfold roundQ. destruct (q ?= 0) eqn:E; [reflexivity | |].
  - apply RN_is_double. rewrite <- Qlt_alt in E. lra.
  - apply RN_is_double. rewrite <- Qgt_alt in E. lra.
Qed.

Lemma abs_fin_pos (s : bool) (m : positive) (e : Z) :
  0 < Qabs (toQ (Fin s m e)).
Proof.
  assert (Hp : 0 < inject_Z (Z.pos m) * 2 ^ e).
  { apply Qmult_lt_0_compat; [reflexivity | apply pow_pos; lra]. }
  cbn [toQ]. destruct s.
  - rewrite Qabs_opp, Qabs_pos; lra.
  - rewrite Qabs_pos; lra.
Qed.

(** ** What [parseFloat] reads in a literal of the pattern *)

Lemma span_stops (p : ascii -> bool) (s : string) :
  stops p s = true -> span p s = ("", s)%string.
Proof.
  destruct s as [| c s]; [reflexivity |]. simpl.
  intros H. apply negb_true_iff in H. now rewrite H.
Qed.

Lemma span_parts (p q : ascii -> bool) (s : string) :
  all q s = true ->
  all p (fst (span p s)) = true /\ all q (snd (span p s)) = true.
Proof.
  induction s as [| c s IH]; [now split |].
  intros Hs. cbn [span]. destruct (p c) eqn:Hc.
  - simpl in Hs. apply andb_prop in Hs as [_ Hs].
    destruct (IH Hs) as [H1 H2]. destruct (span p s) as [a b].
    cbn [fst snd] in *. split; [| exact H2].
    simpl. now rewrite Hc.
  - now split.
Qed.

Lemma digits_val_acc_nonneg (s : string) :
  forall a, (0 <= a)%Z -> all is_digit s = true -> (0 <= digits_val_acc a s)%Z.
Proof.
  induction s as [| c s IH]; intros a Ha Hs; [exact Ha |].
  simpl in Hs. apply andb_prop in Hs as [Hc Hs].
  cbn [digits_val_acc]. apply IH; [| exact Hs].
  unfold is_digit in Hc. apply andb_prop in Hc as [Hc _].
  apply Z.leb_le in Hc. unfold digit_val. lia.
Qed.

Lemma digits_val_nonneg (s : string) :
  all is_digit s = true -> (0 <= digits_val s)%Z.
Proof. apply digits_val_acc_nonneg. lia. Qed.

Lemma read_exponent_literal (s : string) :
  all is_digit_or_dot s = true -> read_exponent s = 0%Z.
Proof.
  destruct s as [| c s]; [reflexivity |].
  simpl. intros H. apply andb_prop in H as [Hc _].
  destruct c as [b0 b1 b2 b3 b4 b5 b6 b7].
  destruct b0, b1, b2, b3, b4, b5, b6, b7;
    try (vm_compute in Hc; discriminate Hc); reflexivity.
Qed.

Lemma literal_first (c : ascii) :
  is_digit_or_dot c = true ->
  is_space c = false /\ Ascii.eqb c "-" = false /\ Ascii.eqb c "+" = false
  /\ Ascii.eqb "I" c = false.
Proof.
  destruct c as [b0 b1 b2 b3 b4 b5 b6 b7].
  destruct b0, b1, b2, b3, b4, b5, b6, b7; intros Hc;
    try (vm_compute in Hc; discriminate Hc); repeat split.
Qed.

Lemma parseFloat_literal (t : string) :
  all is_digit_or_dot t = true -> t <> ""%string ->
  parseFloat t = literal_value t.
Proof.
  intros Ht Hne. destruct t as [| c t]; [congruence |].
  assert (Hc : is_digit_or_dot c = true).
  { simpl in Ht. now apply andb_prop in Ht. }
  destruct (literal_first c Hc) as (Hsp & Hm & Hp & HI).
  unfold parseFloat, literal_value, literal_digits.
  rewrite span_stops by (simpl; now rewrite Hsp).
  assert (Hs : read_sign (String c t) = (false, String c t)).
  { unfold read_sign.
    destruct c as [b0 b1 b2 b3 b4 b5 b6 b7].
    destruct b0, b1, b2, b3, b4, b5, b6, b7;
      try (vm_compute in Hc; discriminate Hc); reflexivity. }
  rewrite Hs.
  assert (HInf : prefix "Infinity" (String c t) = false).
  { cbn [prefix]. destruct (ascii_dec "I" c) as [E |]; [| reflexivity].
    rewrite <- E in HI. discriminate HI. }
  rewrite HInf.
  destruct (span_parts is_digit is_digit_or_dot (String c t) Ht) as [_ Hr].
  destruct (span is_digit (String c t)) as [ip r]. cbn [snd] in Hr.
  assert (Hs3 : all is_digit_or_dot (snd (read_fraction r)) = true).
  { unfold read_fraction. destruct r as [| x r]; [reflexivity |].
    destruct (ascii_dec x ".") as [-> | Hx].
    - simpl in Hr. apply (span_parts is_digit is_digit_or_dot r Hr).
    - destruct x as [b0 b1 b2 b3 b4 b5 b6 b7].
      destruct b0, b1, b2, b3, b4, b5, b6, b7; try exact Hr.
      congruence. }
  destruct (read_fraction r) as [fp s3]. cbn [snd] in Hs3.
  rewrite (read_exponent_literal s3 Hs3).
  destruct (ip ++ fp)%string; reflexivity.
Qed.

Lemma decimal_unsigned (d f : Z) :
  (0 <= d)%Z ->
  is_double (decimal d f) = true /\ sign_of (decimal d f) = false.
Proof.
  intros Hd. unfold decimal.
  destruct (Z.eqb_spec d 0) as [_ | Hnz]; [now split |].
  split; [| apply RN_sign].
  apply RN_is_double. apply Qmult_lt_0_compat; [| apply pow_pos; lra].
  change 0 with (inject_Z 0). apply inject_lt. lia.
Qed.

Lemma literal_digits_spec (t : string) :
  all is_digit (fst (literal_digits t)) = true
  /\ all is_digit (snd (literal_digits t)) = true.
Proof.
  unfold literal_digits.
  assert (H1 := span_parts is_digit (fun _ => true) t).
  destruct (span is_digit t) as [ip r]. cbn [fst snd] in H1.
  assert (Hip : all is_digit ip = true).
  { apply H1. clear. induction t as [| c t IH]; [reflexivity | exact IH]. }
  unfold read_fraction.
  assert (Hsp : forall u, all is_digit (fst (span is_digit u)) = true).
  { intros u. apply (span_parts is_digit (fun _ => true)).
    induction u as [| c u IH]; [reflexivity | exact IH]. }
  destruct r as [| x r]; [now split |].
  destruct x as [b0 b1 b2 b3 b4 b5 b6 b7].
  destruct b0, b1, b2, b3, b4, b5, b6, b7; try (now split).
  specialize (Hsp r). destruct (span is_digit r) as [fp s3]. now split.
Qed.

Lemma literal_unsigned (t : string) :
  literal t ->
  is_double (parseFloat t) = true /\ sign_of (parseFloat t) = false.
Proof.
  intros [Ht Hne]. rewrite (parseFloat_literal t Ht Hne).
  unfold literal_value.
  destruct (literal_digits_spec t) as [Hip Hfp].
  destruct (literal_digits t) as [ip fp]. cbn [fst snd] in *.
  assert (Hds : all is_digit (ip ++ fp) = true)
    by (rewrite all_app; now rewrite Hip, Hfp).
  destruct (ip ++ fp)%string as [| c ds] eqn:E; [now split |].
  apply decimal_unsigned. now apply digits_val_nonneg.
Qed.

Lemma percent_unsigned (x : number) :
  sign_of x = false ->
  is_double (fdiv x (num 100)) = true /\ sign_of (fdiv x (num 100)) = false.
Proof.
  intros Hs. rewrite num_100.
  destruct x as [s | s | | s m e]; cbn [sign_of] in Hs; subst;
    cbn [fdiv xorb]; try (now split).
  split; [| apply RN_sign].
  apply RN_is_double. apply Qlt_shift_div_l; [apply abs_fin_pos |].
  rewrite Qmult_0_l. apply abs_fin_pos.
Qed.

Lemma reading_unsigned (t : oklch_term) :
  well_formed t ->
  let p := reading t in
  (is_double (L p) = true /\ sign_of (L p) = false)
  /\ (is_double (C p) = true /\ sign_of (C p) = false)
  /\ (is_double (H p) = true /\ sign_of (H p) = false)
  /\ (is_double (A p) = true /\ sign_of (A p) = false).
Proof.
  intros (_ & Hl & _ & _ & Hc & _ & _ & Hh & _ & Ha & _).
  unfold reading. cbn [L C H A].
  split; [| split; [| split]].
  - destruct (literal_unsigned _ Hl) as [Hd Hs].
    destruct (fgt (parseFloat (lightness t)) (num 1)); [| now split].
    now apply percent_unsigned.
  - now apply literal_unsigned.
  - now apply literal_unsigned.
  - destruct (alpha t) as [[w a] |].
    + apply literal_unsigned, Ha.
    + split; reflexivity.
Qed.

Lemma unsigned_not_negative (x : number) :
  is_double x = true /\ sign_of x = false -> not_negative x.
Proof.
  intros [Hd Hs]. split; [exact Hd |]. split; [exact Hs |].
  destruct x as [s | s | | s m e]; cbn [sign_of] in Hs; subst;
    try (now left); right; try reflexivity.
  unfold fle.
  rewrite (fcompare_finite (num 0) (Fin false m e) eq_refl eq_refl).
  assert (Hp : 0 < toQ (Fin false m e)).
  { cbn [toQ]. apply Qmult_lt_0_compat; [reflexivity | apply pow_pos; lra]. }
  change (toQ (num 0)) with 0.
  destruct (0 ?= toQ (Fin false m e)) eqn:E; try reflexivity.
  apply Qgt_alt in E. lra.
Qed.

(** X7: no component of a parsed colour is negative.  Each of L, C, H and
    A is a binary64 value that is NaN or at least 0, and none is -0. *)
Theorem parsed_components_not_negative :
  forall (s : string) (p : oklch),
    parseOklch s = Some p ->
    not_negative (L p) /\ not_negative (C p)
    /\ not_negative (H p) /\ not_negative (A p).
Proof.
  intros s p. unfold parseOklch.
  destruct (search oklch_pattern s) as [m |] eqn:Hs; [| discriminate].
  destruct (search_sound _ _ _ Hs) as (pre & u & post & -> & Hm).
  destruct (oklch_match_term _ _ Hm) as (t & -> & Hw & ->).
  rewrite (reading_of_captures t Hw). intros [= <-].
  destruct (reading_unsigned t Hw) as (HL & HC & HH & HA).
  repeat split; now apply unsigned_not_negative.
Qed.

Lemma parsed_components_not_negative_witness :
  not_negative (num 0.7461) /\ not_negative (num 0.1715)
  /\ not_negative (num 51.56) /\ not_negative (num 1).
Proof.
  apply (parsed_components_not_negative "oklch(74.61% 0.1715 51.56)"
           {| L := num 0.7461; C := num 0.1715; H := num 51.56;
              A := num 1 |}).
  vm_compute. reflexivity.
Defined.

(** X8: the number that a literal of a well-formed term denotes.  Each
    component is read from the digits of its literal up to the second
    point, as a decimal; a literal without a digit reads as NaN.  The
    lightness is divided by 100 when it exceeds 1, and a missing alpha
    is 1. *)
Theorem literals_read_as_decimals :
  forall (pre post : string) (t : oklch_term),
    well_formed t -> occurs "oklch(" pre = false ->
    parseOklch (pre ++ term_text t ++ post)
    = Some {| L := (let v := literal_value (lightness t) in
                    if fgt v (num 1) then fdiv v (num 100) else v);
              C := literal_value (chroma t);
              H := literal_value (hue t);
              A := match alpha t with
                   | Some (_, a) => literal_value a
                   | None => num 1
                   end |}.
Proof.
  intros pre post t Hw Hp. unfold parseOklch.
  rewrite (search_term pre post t Hw Hp), (reading_of_captures t Hw).
  destruct Hw as (_ & [Hl Hln] & _ & _ & [Hc Hcn] & _ & _ & [Hh Hhn] & _
                  & Ha & _).
  unfold reading.
  rewrite (parseFloat_literal _ Hl Hln), (parseFloat_literal _ Hc Hcn),
    (parseFloat_literal _ Hh Hhn).
  destruct (alpha t) as [[w a] |]; [| reflexivity].
  destruct Ha as [_ [Ha Han]]. now rewrite (parseFloat_literal _ Ha Han).
Qed.

Lemma literals_read_as_decimals_witness :
  parseOklch
    ("" ++ term_text {| lead := ""; lightness := "1.2.3"; percent := false;
                        gap1 := " "; chroma := "."; gap2 := " ";
                        hue := "200"; gap3 := ""; alpha := None;
                        trail := "" |} ++ "")
  = Some {| L := fdiv (num 1.2) (num 100); C := NaN; H := num 200;
            A := num 1 |}.
Proof.
  apply (literals_read_as_decimals "" ""
           {| lead := ""; lightness := "1.2.3"; percent := false;
              gap1 := " "; chroma := "."; gap2 := " ";
              hue := "200"; gap3 := ""; alpha := None; trail := "" |}).
  - unfold well_formed, literal, blank. cbn. repeat split; discriminate.
  - vm_compute. reflexivity.
Defined.

(** ** Rounding between two numbers *)

Lemma RN_below (q : Q) (b : number) :
  0 < q -> q < 2 ^ 1023 -> is_double b = true -> q <= toQ b ->
  toQ (RN false q) <= toQ b.
Proof.
  intros Hq Hlt Hb Hqb. assert (H := RN_nearest q b Hq Hlt Hb).
  rewrite (Qabs_pos (toQ b - q)) in H by lra.
  assert (H' := Qle_Qabs (toQ (RN false q) - q)). lra.
Qed.

Lemma RN_above (q : Q) (a : number) :
  0 < q -> q < 2 ^ 1023 -> is_double a = true -> toQ a <= q ->
  toQ a <= toQ (RN false q).
Proof.
  intros Hq Hlt Ha Haq. assert (H := RN_nearest q a Hq Hlt Ha).
  rewrite (Qabs_neg (toQ a - q)) in H by lra.
  assert (H' := Qle_Qabs (- (toQ (RN false q) - q))).
  rewrite Qabs_opp in H'. lra.
Qed.

Lemma RN_true_toQ (q : Q) : toQ (RN true q) == - toQ (RN false q).
Proof.
  unfold RN.
  destruct (_ =? 0)%Z; [reflexivity |].
  destruct (emax <? _)%Z; reflexivity.
Qed.

Lemma RN_finite (s : bool) (q : Q) :
  0 < q -> q < 2 ^ 1023 -> is_finite (RN s q) = true.
Proof. intros Hq Hlt. apply (RN_value s q Hq Hlt). Qed.

Lemma fopp_double (x : number) : is_double (fopp x) = is_double x.
Proof. now destruct x. Qed.

Lemma fopp_toQ (x : number) : toQ (fopp x) == - toQ x.
Proof.
  destruct x as [s | s | | s m e]; cbn [fopp toQ]; try reflexivity.
  destruct s; cbn [negb]; ring.
Qed.

Lemma fopp_finite (x : number) : is_finite (fopp x) = is_finite x.
Proof. now destruct x. Qed.

(** A rounded result stays between two numbers that enclose the exact
    one. *)
Lemma roundQ_between (q : Q) (a b : number) :
  - 2 ^ 1023 < q -> q < 2 ^ 1023 ->
  is_double a = true -> is_double b = true ->
  toQ a <= q -> q <= toQ b ->
  is_finite (roundQ q) = true
  /\ toQ a <= toQ (roundQ q) <= toQ b.
Proof.
  intros Hlo Hhi Ha Hb Haq Hqb. unfold roundQ.
  destruct (q ?= 0) eqn:E.
  - apply Qeq_alt in E. cbn [is_finite toQ]. split; [reflexivity | lra].
  - apply Qlt_alt in E.
    assert (Hq : 0 < - q) by lra. assert (Hlt : - q < 2 ^ 1023) by lra.
    split; [now apply RN_finite |].
    rewrite RN_true_toQ.
    assert (H1 := RN_above (- q) (fopp b) Hq Hlt).
    assert (H2 := RN_below (- q) (fopp a) Hq Hlt).
    rewrite fopp_double, fopp_toQ in H1, H2.
    specialize (H1 Hb ltac:(lra)). specialize (H2 Ha ltac:(lra)). lra.
  - apply Qgt_alt in E.
    split; [now apply RN_finite |].
    split; [apply RN_above | apply RN_below]; assumption.
Qed.

Lemma abs_fin (s : bool) (m : positive) (e : Z) :
  Qabs (toQ (Fin s m e)) == toQ (Fin false m e).
Proof.
  assert (Hp : 0 <= inject_Z (Z.pos m) * 2 ^ e).
  { apply Qmult_le_0_compat; [discriminate | apply Qlt_le_weak, pow_pos; lra]. }
  cbn [toQ]. destruct s.
  - rewrite Qabs_opp. now apply Qabs_pos.
  - now apply Qabs_pos.
Qed.

Lemma opp_neg (p : Q) : 0 < p -> - p < 0.
Proof. intros H. lra. Qed.

Lemma fin_opp (m : positive) (e : Z) :
  toQ (Fin true m e) == - toQ (Fin false m e).
Proof. reflexivity. Qed.

Lemma fin_pos (m : positive) (e : Z) : 0 < toQ (Fin false m e).
Proof.
  cbn [toQ]. apply Qmult_lt_0_compat; [reflexivity | apply pow_pos; lra].
Qed.

(** The product or quotient [q] of the magnitudes, with the sign of the
    operands, is the rounding of the signed result. *)
Lemma RN_signed (s : bool) (q r : Q) :
  0 < q -> (if s then r == - q else r == q) -> RN s q = roundQ r.
Proof.
  intros Hq Hr. unfold roundQ.
  destruct s.
  - assert (G : (r ?= 0) = Lt).
    { apply (proj1 (Qlt_alt _ _)). rewrite Hr. now apply opp_neg. }
    rewrite G. apply RN_compat; [exact Hq |]. rewrite Hr. ring.
  - assert (G : (r ?= 0) = Gt).
    { apply (proj1 (Qgt_alt _ _)). now rewrite Hr. }
    rewrite G. apply RN_compat; [exact Hq |]. now rewrite Hr.
Qed.

Lemma fmul_rounds (s1 s2 : bool) (m1 m2 : positive) (e1 e2 : Z) :
  fmul (Fin s1 m1 e1) (Fin s2 m2 e2)
  = roundQ (toQ (Fin s1 m1 e1) * toQ (Fin s2 m2 e2)).
Proof.
  cbn [fmul].
  assert (P1 := fin_pos m1 e1). assert (P2 := fin_pos m2 e2).
  apply RN_signed.
  - rewrite !abs_fin. now apply Qmult_lt_0_compat.
  - destruct s1, s2; cbn [xorb]; rewrite !abs_fin, ?fin_opp; ring.
Qed.

Lemma fdiv_rounds (s1 s2 : bool) (m1 m2 : positive) (e1 e2 : Z) :
  fdiv (Fin s1 m1 e1) (Fin s2 m2 e2)
  = roundQ (toQ (Fin s1 m1 e1) / toQ (Fin s2 m2 e2)).
Proof.
  cbn [fdiv].
  assert (P1 := fin_pos m1 e1). assert (P2 := fin_pos m2 e2).
  apply RN_signed.
  - rewrite !abs_fin. apply Qlt_shift_div_l; [exact P2 |].
    now rewrite Qmult_0_l.
  - destruct s1, s2; cbn [xorb]; rewrite !abs_fin, ?fin_opp; field; lra.
Qed.

(** *** Sums, differences and products between two numbers *)

Lemma fadd_between (x y a b : number) :
  is_finite x = true -> is_finite y = true ->
  is_double a = true -> is_double b = true ->
  - 2 ^ 1023 < toQ x + toQ y -> toQ x + toQ y < 2 ^ 1023 ->
  toQ a <= toQ x + toQ y -> toQ x + toQ y <= toQ b ->
  is_finite (fadd x y) = true /\ toQ a <= toQ (fadd x y) <= toQ b.
Proof.
  intros Hx Hy Ha Hb Hlo Hhi Hax Hxb.
  destruct x as [sx | sx | | sx mx ex]; try discriminate;
    destruct y as [sy | sy | | sy my ey]; try discriminate.
  - cbn [fadd is_finite toQ] in *. split; [reflexivity | lra].
  - cbn [fadd is_finite]. split; [reflexivity |].
    change (toQ (Zero sx)) with 0 in *. lra.
  - cbn [fadd is_finite]. split; [reflexivity |].
    change (toQ (Zero sy)) with 0 in *. lra.
  - cbn [fadd]. now apply roundQ_between.
Qed.

Lemma fsub_between (x y a b : number) :
  is_finite x = true -> is_finite y = true ->
  is_double a = true -> is_double b = true ->
  - 2 ^ 1023 < toQ x - toQ y -> toQ x - toQ y < 2 ^ 1023 ->
  toQ a <= toQ x - toQ y -> toQ x - toQ y <= toQ b ->
  is_finite (fsub x y) = true /\ toQ a <= toQ (fsub x y) <= toQ b.
Proof.
  intros Hx Hy Ha Hb Hlo Hhi Hax Hxb. unfold fsub.
  assert (E := fopp_toQ y).
  apply fadd_between; try assumption; try (rewrite fopp_finite; assumption);
    rewrite E; lra.
Qed.

Lemma fmul_between (x y a b : number) :
  is_finite x = true -> is_finite y = true ->
  is_double a = true -> is_double b = true ->
  - 2 ^ 1023 < toQ x * toQ y -> toQ x * toQ y < 2 ^ 1023 ->
  toQ a <= toQ x * toQ y -> toQ x * toQ y <= toQ b ->
  is_finite (fmul x y) = true /\ toQ a <= toQ (fmul x y) <= toQ b.
Proof.
  intros Hx Hy Ha Hb Hlo Hhi Hax Hxb.
  destruct x as [sx | sx | | sx mx ex]; try discriminate;
    destruct y as [sy | sy | | sy my ey]; try discriminate;
    try (rewrite fmul_rounds; now apply roundQ_between);
    cbn [fmul is_finite]; (split; [reflexivity |]).
  - change (toQ (Zero sx)) with 0 in *. change (toQ (Zero (xorb sx sy))) with 0.
    lra.
  - change (toQ (Zero sx)) with 0 in *. change (toQ (Zero (xorb sx sy))) with 0.
    lra.
  - change (toQ (Zero sy)) with 0 in *. change (toQ (Zero (xorb sx sy))) with 0.
    lra.
Qed.

End ComponentFacts.

(** ** The derived colours *)

Module DerivationFacts.

Import Number Text Builtin Regex ThemeColors Spec Grammar Ranges.
Import NumberFacts RoundingFacts TextFacts DigitFacts BuiltinFacts RegexFacts
  ThemeColorsFacts.
Import GrammarFacts ComponentFacts.
Local Open Scope string_scope.
Local Open Scope Z_scope.
Local Open Scope Q_scope.

Lemma pow2_toQ (e : Z) : toQ (pow2 e) == 2 ^ e.
Proof.
  unfold pow2. cbn [toQ].
  change (inject_Z (Z.pos 4503599627370496)) with (2 ^ 52).
  rewrite <- pow_add by lra. now replace (52 + (e - 52))%Z with e by lia.
Qed.

Lemma Math_min_finite (k x : number) :
  is_finite k = true -> is_finite x = true ->
  is_finite (Math_min k x) = true
  /\ toQ (Math_min k x) <= toQ k /\ toQ (Math_min k x) <= toQ x
  /\ (Math_min k x = k \/ Math_min k x = x).
Proof.
  intros Hk Hx. unfold Math_min. rewrite (fcompare_finite k x Hk Hx).
  destruct (toQ k ?= toQ x) eqn:E.
  - apply Qeq_alt in E. destruct (sign_of k); repeat split; auto; lra.
  - apply Qlt_alt in E. repeat split; auto; lra.
  - apply Qgt_alt in E. repeat split; auto; lra.
Qed.

Lemma Math_max_finite (k x : number) :
  is_finite k = true -> is_finite x = true ->
  is_finite (Math_max k x) = true
  /\ toQ k <= toQ (Math_max k x) /\ toQ x <= toQ (Math_max k x)
  /\ (Math_max k x = k \/ Math_max k x = x).
Proof.
  intros Hk Hx. unfold Math_max. rewrite (fcompare_finite k x Hk Hx).
  destruct (toQ k ?= toQ x) eqn:E.
  - apply Qeq_alt in E. destruct (sign_of k); repeat split; auto; lra.
  - apply Qlt_alt in E. repeat split; auto; lra.
  - apply Qgt_alt in E. repeat split; auto; lra.
Qed.

(** A number without sign that is at most a finite one is finite and not
    negative. *)
Lemma unsigned_le (x k : number) :
  sign_of x = false -> is_finite k = true -> fle x k = true ->
  is_finite x = true /\ 0 <= toQ x <= toQ k.
Proof.
  intros Hs Hk Hle. unfold fle in Hle.
  destruct x as [s | s | | s m e]; cbn [sign_of] in Hs; subst.
  - rewrite (fcompare_finite (Zero false) k eq_refl Hk) in Hle.
    split; [reflexivity |]. change (toQ (Zero false)) with 0 in *.
    destruct (0 ?= toQ k) eqn:E; try discriminate.
    + apply Qeq_alt in E. lra.
    + apply Qlt_alt in E. lra.
  - destruct k; discriminate.
  - destruct k; discriminate.
  - rewrite (fcompare_finite (Fin false m e) k eq_refl Hk) in Hle.
    split; [reflexivity |]. assert (Hp := fin_pos m e).
    destruct (toQ (Fin false m e) ?= toQ k) eqn:E; try discriminate.
    + apply Qeq_alt in E. lra.
    + apply Qlt_alt in E. lra.
Qed.

Lemma toQ_num_1 : toQ (num 1) == 1.
Proof. rewrite num_1. apply toQ_1. Qed.

Lemma toQ_num_100 : toQ (num 100) == 100.
Proof. rewrite num_100. apply toQ_100. Qed.

(** The lightness that is read from a literal of at most 100. *)
Lemma reading_lightness (v : number) :
  is_double v = true -> sign_of v = false -> fle v (num 100) = true ->
  let l := if fgt v (num 1) then fdiv v (num 100) else v in
  is_finite l = true /\ 0 <= toQ l <= 1.
Proof.
  intros Hd Hs Hle.
  destruct (unsigned_le v (num 100) Hs eq_refl Hle) as [Hf [H0 H100]].
  rewrite toQ_num_100 in H100.
  cbn zeta. unfold fgt, flt.
  rewrite (fcompare_finite (num 1) v eq_refl Hf). rewrite toQ_num_1.
  destruct (1 ?= toQ v) eqn:E.
  - apply Qeq_alt in E. split; [exact Hf | lra].
  - apply Qlt_alt in E.
    destruct v as [s | s | | s m e]; try discriminate.
    rewrite num_100, fdiv_rounds.
    assert (Hc := toQ_100).
    set (c := toQ (Fin false 7036874417766400 (-46))) in *.
    assert (Hb : toQ (Fin s m e) / c <= 1).
    { apply Qle_shift_div_r; lra. }
    assert (Ha : 0 <= toQ (Fin s m e) / c).
    { apply Qle_shift_div_l; lra. }
    clearbody c.
    destruct (roundQ_between (toQ (Fin s m e) / c) (Zero false) (num 1))
      as [Hfin [Hlo Hhi]]; try reflexivity.
    + assert (H := pow_pos 2 1023 ltac:(lra)). lra.
    + assert (H : 1 < 2 ^ 1023) by reflexivity. lra.
    + exact Ha.
    + now rewrite toQ_num_1.
    + rewrite toQ_num_1 in Hhi. cbn [toQ] in Hlo. now split.
  - apply Qgt_alt in E. split; [exact Hf | lra].
Qed.

(** X9: a lightness literal that reads as at most 100 gives a lightness
    in the unit range: the parsed L is finite, at least 0 and at most 1. *)
Theorem lightness_within_unit :
  forall (pre post : string) (t : oklch_term),
    well_formed t -> occurs "oklch(" pre = false ->
    fle (parseFloat (lightness t)) (num 100) = true ->
    exists p,
      parseOklch (pre ++ term_text t ++ post) = Some p
      /\ is_finite (L p) = true /\ 0 <= toQ (L p) <= 1.
Proof.
  intros pre post t Hw Hp Hle. exists (reading t).
  split.
  { unfold parseOklch. rewrite (search_term pre post t Hw Hp).
    f_equal. now apply reading_of_captures. }
  destruct Hw as (_ & Hl & _).
  destruct (literal_unsigned _ Hl) as [Hd Hs].
  exact (reading_lightness _ Hd Hs Hle).
Qed.

Lemma lightness_within_unit_witness :
  exists p,
    parseOklch
      ("" ++ term_text {| lead := ""; lightness := "74.61"; percent := true;
                          gap1 := " "; chroma := "0.1715"; gap2 := " ";
                          hue := "51.56"; gap3 := ""; alpha := None;
                          trail := "" |} ++ "")
    = Some p
    /\ is_finite (L p) = true /\ 0 <= toQ (L p) <= 1.
Proof.
  apply (lightness_within_unit "" ""
           {| lead := ""; lightness := "74.61"; percent := true;
              gap1 := " "; chroma := "0.1715"; gap2 := " ";
              hue := "51.56"; gap3 := ""; alpha := None; trail := "" |}).
  - unfold well_formed, literal, blank. cbn. repeat split; discriminate.
  - vm_compute. reflexivity.
  - vm_compute. reflexivity.
Defined.


(** *** The derived lightness *)

Ltac invert_parse H :=
  let m := fresh "m" in
  let Hs := fresh "Hs" in
  let Hm := fresh "Hm" in
  let pre := fresh "pre" in
  let post := fresh "post" in
  let u := fresh "u" in
  let t := fresh "t" in
  let Hw := fresh "Hw" in
  unfold parseOklch in H;
  destruct (search oklch_pattern _) as [m |] eqn:Hs in H; [| discriminate H];
  destruct (search_sound _ _ _ Hs) as (pre & u & post & -> & Hm);
  destruct (oklch_match_term _ _ Hm) as (t & -> & Hw & ->);
  rewrite (reading_of_captures t Hw) in H; injection H as <-;
  pose proof (reading_unsigned t Hw).

Lemma parsed_unsigned (s : string) (p : oklch) :
  parseOklch s = Some p ->
  (is_double (L p) = true /\ sign_of (L p) = false)
  /\ (is_double (C p) = true /\ sign_of (C p) = false)
  /\ (is_double (H p) = true /\ sign_of (H p) = false)
  /\ (is_double (A p) = true /\ sign_of (A p) = false).
Proof. intros Hp. invert_parse Hp. assumption. Qed.

Lemma big_pos (e : Z) : 0 < 2 ^ e.
Proof. apply pow_pos. lra. Qed.

Lemma toQ_zero : toQ (Zero false) == 0.
Proof. reflexivity. Qed.

Lemma accent_lightness (l r : number) :
  is_double l = true -> is_finite l = true -> 0 <= toQ l <= 1 ->
  is_finite r = true -> 0 <= toQ r <= 1 ->
  floored_below l (Math_max (num 0.05) (fsub l (fmul r l))).
Proof.
  intros Hd Hf [Hl0 Hl1] Hr [Hr0 Hr1].
  assert (HB : 1 < 2 ^ 1023) by reflexivity.
  assert (Z0 := toQ_zero).
  assert (Hp : 0 <= toQ r * toQ l <= toQ l) by nra.
  assert (X1 : is_finite (fmul r l) = true
               /\ toQ (Zero false) <= toQ (fmul r l) <= toQ l).
  { apply fmul_between; [assumption | assumption | reflexivity | assumption
                        | lra | lra | lra | lra]. }
  destruct X1 as [F1 [L1 U1]].
  assert (X2 : is_finite (fsub l (fmul r l)) = true
               /\ toQ (Zero false) <= toQ (fsub l (fmul r l)) <= toQ l).
  { apply fsub_between; [assumption | assumption | reflexivity | assumption
                        | lra | lra | lra | lra]. }
  destruct X2 as [F2 [L2 U2]].
  destruct (Math_max_finite (num 0.05) (fsub l (fmul r l)) eq_refl F2)
    as (F3 & G1 & G2 & [E | E]).
  - split; [exact F3 |]. split; [exact G1 |]. now right.
  - split; [exact F3 |]. split; [exact G1 |]. left. rewrite E. exact U2.
Qed.




Lemma boosted_chroma (c b : number) :
  is_double c = true -> is_finite c = true -> 0 <= toQ c <= 1 ->
  is_finite b = true -> 0 <= toQ b <= 10 ^ 300 ->
  capped_above c (Math_min (num 0.37) (fadd c b)).
Proof.
  intros Hd Hf [Hc0 Hc1] Hb [Hb0 Hb1].
  assert (HT : 10 ^ 300 <= 2 ^ 1000)
    by (apply (proj1 (Qle_bool_iff _ _)); vm_compute; reflexivity).
  assert (H1 := pow2_toQ 1001).
  assert (H3 : 2 ^ 1001 == 2 * 2 ^ 1000) by reflexivity.
  assert (H4 : 2 ^ 1023 == 8388608 * 2 ^ 1000) by reflexivity.
  assert (H5 : 1 <= 2 ^ 1000) by discriminate.
  assert (X1 : is_finite (fadd c b) = true
               /\ toQ c <= toQ (fadd c b) <= toQ (pow2 1001)).
  { apply fadd_between; [assumption | assumption | assumption | reflexivity
                        | lra | lra | lra | lra]. }
  destruct X1 as [F1 [L1 U1]].
  destruct (Math_min_finite (num 0.37) (fadd c b) eq_refl F1)
    as (F3 & G1 & G2 & [E | E]).
  - split; [exact F3 |]. split; [exact G1 |]. now right.
  - split; [exact F3 |]. split; [exact G1 |]. left. rewrite E. exact L1.
Qed.

Lemma coefficient_default (lo hi d : Q) (arg : option number) :
  coefficient lo hi arg ->
  binary64 (num d) /\ lo <= toQ (num d) <= hi ->
  binary64 (default d arg) /\ lo <= toQ (default d arg) <= hi.
Proof. destruct arg as [v |]; cbn [coefficient default]; auto. Qed.

Ltac default_ok :=
  split; [split; reflexivity | split; vm_compute; discriminate].

(** The parsed component [x] of at most 1. *)
Lemma component_unit (x : number) :
  is_double x = true /\ sign_of x = false -> fle x (num 1) = true ->
  is_double x = true /\ is_finite x = true /\ 0 <= toQ x <= 1.
Proof.
  intros [Hd Hs] Hle. split; [exact Hd |].
  destruct (unsigned_le x (num 1) Hs eq_refl Hle) as [Hf Hr].
  rewrite toQ_num_1 in Hr. now split.
Qed.









(** *** Results of the arithmetic are binary64 values *)

Lemma fadd_double (x y : number) :
  is_double x = true -> is_double y = true -> is_double (fadd x y) = true.
Proof.
  intros Hx Hy.
  destruct x as [sx | sx | | sx mx ex], y as [sy | sy | | sy my ey];
    try reflexivity; try assumption.
  - cbn [fadd]. destruct (Bool.eqb sx sy); reflexivity.
  - cbn [fadd]. apply roundQ_is_double.
Qed.

Lemma Math_min_double (k x : number) :
  is_double k = true -> is_double x = true -> is_double (Math_min k x) = true.
Proof.
  intros Hk Hx. unfold Math_min.
  destruct (fcompare k x) as [[| |] |]; try assumption; try reflexivity.
  now destruct (sign_of k).
Qed.

(** The formatter and the parser on a lightness of at least 1.005
    percent. *)
Lemma percent_round_trip (L C H A : number) :
  is_finite L = true -> toQ L <= 1 ->
  1005 # 1000 <= toQ (fmul L (num 100)) ->
  binary64 C -> 0 <= toQ C < 10 ^ 21 ->
  binary64 H -> 0 <= toQ H < 10 ^ 21 ->
  binary64 A -> (toQ A == 0 \/ 10 ^ (-6) <= toQ A <= 1) ->
  round_trips L C H A.
Proof.
  intros HLf HL1 HLp [HCd HCf] HC [HHd HHf] HH [HAd HAf] HA.
  destruct (lightness_round_trip L HLf HL1 HLp)
    as (l & El & Hl & Hln & Hgt & HwL).
  destruct (fixed_round_trip C 4 HCd HCf (proj1 HC) (proj2 HC) ltac:(lia))
    as (c & Ec & Hc & Hcn & _ & HwC).
  destruct (fixed_round_trip H 2 HHd HHf (proj1 HH) (proj2 HH) ltac:(lia))
    as (h & Eh & Hh & Hhn & _ & HwH).
  destruct (ToString_round_trip A HAd HAf HA) as (Ha & Han & HfA & HwA).
  exists ("oklch(" ++ l ++ "% " ++ c ++ " " ++ h ++ " / " ++ ToString A
          ++ ")")%string,
    {| ThemeColors.L := fdiv (parseFloat l) (num 100);
       ThemeColors.C := parseFloat c;
       ThemeColors.H := parseFloat h;
       ThemeColors.A := parseFloat (ToString A) |}.
  split.
  { unfold formatOklch. now rewrite El, Ec, Eh. }
  split.
  { unfold parseOklch.
    rewrite (search_canonical l c h (ToString A)) by assumption.
    unfold parseFloat_group.
    destruct (group_captures l c h (Some (ToString A))) as (-> & -> & -> & ->).
    cbn [truthy]. rewrite Hgt.
    destruct (ToString A) as [| x a]; [congruence | reflexivity]. }
  cbn [ThemeColors.L ThemeColors.C ThemeColors.H ThemeColors.A].
  split; [exact HwL |].
  split; [apply (within_weaken (10 ^ (- (4)))); [discriminate | exact HwC] |].
  split; [apply (within_weaken (10 ^ (- (2)))); [discriminate | exact HwH] |].
  apply (within_weaken (10 ^ (-15))); [discriminate |].
  split; assumption.
Qed.

(** The accent of a colour whose components are in range. *)
Lemma accent_round_trip (l c h a r b : number) :
  is_double l = true -> is_finite l = true -> 0 <= toQ l <= 1 ->
  is_double c = true -> is_finite c = true -> 0 <= toQ c <= 1 ->
  binary64 h -> 0 <= toQ h < 10 ^ 21 ->
  binary64 a -> (toQ a == 0 \/ 10 ^ (-6) <= toQ a <= 1) ->
  binary64 r -> 0 <= toQ r <= 1 ->
  binary64 b -> 0 <= toQ b <= 10 ^ 300 ->
  round_trips (Math_max (num 0.05) (fsub l (fmul r l)))
              (Math_min (num 0.37) (fadd c b)) h a.
Proof.
  intros Hld Hlf Hl Hcd Hcf Hc Hh Hhr Ha Har [Hrd Hrf] Hr [Hbd Hbf] Hb.
  destruct (accent_lightness l r Hld Hlf Hl Hrf Hr) as (F1 & G1 & G2).
  destruct (boosted_chroma c b Hcd Hcf Hc Hbf Hb) as (F2 & K1 & K2).
  assert (D2 : is_double (Math_min (num 0.37) (fadd c b)) = true).
  { apply Math_min_double; [reflexivity |]. now apply fadd_double. }
  set (l' := Math_max (num 0.05) (fsub l (fmul r l))) in *.
  set (c' := Math_min (num 0.37) (fadd c b)) in *.
  clearbody l' c'.
  assert (N5 : 5 # 100 <= toQ (num 0.05)) by (vm_compute; discriminate).
  assert (N5' : toQ (num 0.05) <= 1) by (vm_compute; discriminate).
  assert (N37 : toQ (num 0.37) <= 1) by (vm_compute; discriminate).
  assert (N37' : 0 <= toQ (num 0.37)) by (vm_compute; discriminate).
  assert (Hl1 : toQ l' <= 1).
  { destruct G2 as [G2 | ->]; lra. }
  assert (Hc0 : 0 <= toQ c').
  { destruct K2 as [K2 | ->]; lra. }
  assert (E100 := toQ_num_100).
  assert (P7 := pow2_toQ 7). assert (P7' : 2 ^ 7 == 128) by reflexivity.
  assert (N4 : toQ (num 4) == 4) by reflexivity.
  assert (HB : 128 < 2 ^ 1023) by reflexivity.
  assert (X : is_finite (fmul l' (num 100)) = true
              /\ toQ (num 4) <= toQ (fmul l' (num 100)) <= toQ (pow2 7)).
  { apply fmul_between; [assumption | reflexivity | reflexivity | reflexivity
                        | nra | nra | nra | nra]. }
  destruct X as [_ [X _]].
  apply percent_round_trip; try assumption.
  - lra.
  - now split.
  - split; [exact Hc0 |]. assert (H21 : 1 < 10 ^ 21) by reflexivity. lra.
Qed.

(** X14: an accent can be derived from again.  For an input that parses
    to L and C of at most 1, a hue below 10^21 and an alpha that is 0 or
    between 10^-6 and 1, and for coefficients in range, the string that
    [generateAccentColor] and [generateButtonBorderColor] return is parsed
    by [parseOklch], and each component read is within 1e-2 of the one
    that was formatted. *)
Theorem accent_output_parses :
  forall (s : string) (p : oklch) (k1 k2 : option number),
    parseOklch s = Some p ->
    fle (L p) (num 1) = true ->
    fle (C p) (num 1) = true ->
    below_1e21 (H p) ->
    is_finite (A p) = true ->
    (toQ (A p) == 0 \/ 10 ^ (-6) <= toQ (A p) <= 1) ->
    coefficient 0 1 k1 ->
    coefficient 0 (10 ^ 300) k2 ->
    exists accent button : oklch,
      generateAccentColor s k1 k2
      = lift (formatOklch (L accent) (C accent) (H accent) (A accent))
      /\ round_trips (L accent) (C accent) (H accent) (A accent)
      /\ generateButtonBorderColor s k1 k2
         = lift (formatOklch (L button) (C button) (H button) (A button))
      /\ round_trips (L button) (C button) (H button) (A button).
Proof.
  intros s p k1 k2 Hp HLle HCle [HHf HHr] HAf HAr Hk1 Hk2.
  destruct (parsed_unsigned s p Hp) as (HL & HC & [HHd HHs] & [HAd _]).
  destruct (component_unit _ HL HLle) as (Hld & Hlf & Hlr).
  destruct (component_unit _ HC HCle) as (Hcd & Hcf & Hcr).
  destruct (coefficient_default 0 1 0.25 k1 Hk1 ltac:(default_ok)) as [Br Rr].
  destruct (coefficient_default 0 (10 ^ 300) 0.05 k2 Hk2 ltac:(default_ok))
    as [Bb Rb].
  assert (HH : 0 <= toQ (H p) < 10 ^ 21).
  { destruct (H p) as [sg | sg | | sg m e]; try discriminate;
      cbn [sign_of] in HHs; subst sg.
    - cbn [toQ]. split; [lra | reflexivity].
    - assert (Hpos := fin_pos m e).
      rewrite Qabs_pos in HHr by lra. split; lra. }
  unfold generateAccentColor, generateButtonBorderColor. rewrite Hp.
  exists (accentComponents p (default 0.25 k1) (default 0.05 k2)),
    (buttonBorderComponents p (default 0.25 k1) (default 0.05 k2)).
  destruct p as [l c h a].
  cbn [L C H A accentComponents buttonBorderComponents] in *.
  split; [reflexivity |].
  split; [apply accent_round_trip; try assumption; now split |].
  split; [reflexivity |].
  apply accent_round_trip; try assumption; now split.
Qed.

Lemma accent_output_parses_witness :
  exists accent button : oklch,
    generateAccentColor "oklch(74.61% 0.1715 51.56 / 0.5)"
      (Some (num 0.5)) (Some (num 0.1))
    = lift (formatOklch (L accent) (C accent) (H accent) (A accent))
    /\ round_trips (L accent) (C accent) (H accent) (A accent)
    /\ generateButtonBorderColor "oklch(74.61% 0.1715 51.56 / 0.5)"
         (Some (num 0.5)) (Some (num 0.1))
       = lift (formatOklch (L button) (C button) (H button) (A button))
    /\ round_trips (L button) (C button) (H button) (A button).
Proof.
  apply (accent_output_parses "oklch(74.61% 0.1715 51.56 / 0.5)"
           {| L := num 0.7461; C := num 0.1715; H := num 51.56;
              A := num 0.5 |} (Some (num 0.5)) (Some (num 0.1))).
  - vm_compute. reflexivity.
  - vm_compute. reflexivity.
  - vm_compute. reflexivity.
  - split; [reflexivity | vm_compute; reflexivity].
  - reflexivity.
  - right. split; vm_compute; discriminate.
  - split; [split; reflexivity | split; vm_compute; discriminate].
  - split; [split; reflexivity | split; vm_compute; discriminate].
Defined.

(** *** A lightness between 0.015 and 1.005 percent *)

Lemma fmul_double (x y : number) : is_double (fmul x y) = true.
Proof.
  destruct x as [sx | sx | | sx mx ex], y as [sy | sy | | sy my ey];
    try reflexivity.
  cbn [fmul]. apply RN_is_double.
  apply Qmult_lt_0_compat; apply abs_fin_pos.
Qed.

(** The decimal n / 100 as a number, between two numbers. *)
Lemma hundredths_between (n : Z) (a b : number) :
  (0 < n)%Z ->
  is_double a = true -> is_double b = true ->
  toQ a <= inject_Z n * (1 # 100) -> inject_Z n * (1 # 100) <= toQ b ->
  toQ b < 2 ^ 1023 ->
  is_finite (decimal n 2) = true /\ toQ a <= toQ (decimal n 2) <= toQ b.
Proof.
  intros Hn Ha Hb Hlo Hhi Hb'. unfold decimal.
  destruct (Z.eqb_spec n 0) as [-> | _]; [lia |].
  assert (Hp : 0 < inject_Z n).
  { change 0 with (inject_Z 0). now apply inject_lt. }
  change (10 ^ (0 - 2)) with (1 # 100).
  set (q := inject_Z n * (1 # 100)) in *.
  assert (Hq : 0 < q) by (unfold q; lra).
  clearbody q.
  split; [apply RN_finite; lra |].
  split; [apply RN_above | apply RN_below]; try assumption; lra.
Qed.

(** What is read back when the percentage [x] of the lightness is between
    0.015 and 1.005: the percentage itself, not its hundredth. *)
Lemma low_percentage_read (x : number) :
  is_double x = true -> is_finite x = true ->
  15 # 1000 <= toQ x -> toQ x < 1005 # 1000 ->
  exists t,
    toFixed x 2 = Normal t
    /\ all is_digit_or_dot t = true /\ t <> ""%string
    /\ fgt (parseFloat t) (num 1) = false
    /\ is_finite (parseFloat t) = true
    /\ toQ (num 0.0199) <= toQ (parseFloat t)
    /\ (toQ (num 0.89) <= toQ x -> toQ (num 0.88) <= toQ (parseFloat t)).
Proof.
  intros Hd Hf Hlo Hhi.
  assert (H21 : toQ x < 10 ^ 21).
  { assert (1005 # 1000 < 10 ^ 21) by reflexivity. lra. }
  destruct (fixed_round_trip x 2 Hd Hf ltac:(lra) H21 ltac:(lia))
    as (t & Et & Ht & Hne & Hparse & _).
  exists t. split; [exact Et |]. split; [exact Ht |]. split; [exact Hne |].
  rewrite Hparse.
  destruct (round_half_up_spec (toQ x * 10 ^ 2)) as [R1 R2].
  set (n := round_half_up (toQ x * 10 ^ 2)) in *.
  change (10 ^ 2) with 100 in R1, R2.
  assert (Hn : (2 <= n <= 100)%Z).
  { split.
    - assert (H : inject_Z 1 < inject_Z n) by (change (inject_Z 1) with 1; lra).
      apply inject_lt_inv in H. lia.
    - assert (H : inject_Z n < inject_Z 101)
        by (change (inject_Z 101) with 101; lra).
      apply inject_lt_inv in H. lia. }
  assert (N2 : 2 <= inject_Z n).
  { change 2 with (inject_Z 2). apply inject_le. lia. }
  assert (N100 : inject_Z n <= 100).
  { change 100 with (inject_Z 100). apply inject_le. lia. }
  assert (A1 : toQ (num 0.0199) <= 2 * (1 # 100)) by q_decide.
  assert (A2 : toQ (num 1) == 1) by reflexivity.
  assert (A3 : toQ (num 1) < 2 ^ 1023) by reflexivity.
  destruct (hundredths_between n (num 0.0199) (num 1)) as [F [L1 U1]];
    [lia | reflexivity | reflexivity | lra | lra | exact A3 |].
  split.
  { unfold fgt, flt. rewrite (fcompare_finite (num 1) (decimal n 2) eq_refl F).
    destruct (toQ (num 1) ?= toQ (decimal n 2)) eqn:E; try reflexivity.
    apply Qlt_alt in E. lra. }
  split; [exact F |]. split; [exact L1 |].
  intros Hx.
  assert (A4 : 889 # 1000 <= toQ (num 0.89)) by q_decide.
  assert (A5 : toQ (num 0.88) <= 881 # 1000) by q_decide.
  assert (Hn' : (89 <= n)%Z).
  { assert (H : inject_Z 88 < inject_Z n)
      by (change (inject_Z 88) with 88; lra).
    apply inject_lt_inv in H. lia. }
  assert (N89 : 89 <= inject_Z n).
  { change 89 with (inject_Z 89). apply inject_le. lia. }
  destruct (hundredths_between n (num 0.88) (num 1)) as [_ [L2 _]];
    [lia | reflexivity | reflexivity | lra | lra | exact A3 |].
  exact L2.
Qed.

(** The lightness [L] whose percentage is below 1.005 and at least 0.015
    is positive and below 0.0101; when it is at least 0.009 its percentage
    is at least 0.89. *)
Lemma low_lightness_bounds (L : number) :
  is_finite L = true ->
  15 # 1000 <= toQ (fmul L (num 100)) ->
  toQ (fmul L (num 100)) < 1005 # 1000 ->
  is_finite (fmul L (num 100)) = true
  /\ toQ L < 101 # 10000
  /\ (9 # 1000 <= toQ L -> toQ (num 0.89) <= toQ (fmul L (num 100))).
Proof.
  intros Hf Hlo Hhi. rewrite num_100 in *.
  destruct L as [s | s | | s m e]; try discriminate.
  { cbn [fmul toQ] in Hlo. lra. }
  rewrite fmul_rounds in *.
  assert (E100 := toQ_100).
  set (c := toQ (Fin false 7036874417766400 (-46))) in *.
  set (l := toQ (Fin s m e)) in *.
  assert (B0 : 2 < 2 ^ 1023) by reflexivity.
  assert (A1 : 1005 # 1000 < toQ (num 1.0055)) by q_decide.
  assert (A2 : toQ (num 1.0055) <= 1006 # 1000) by q_decide.
  assert (A3 : toQ (num 0.89) <= 9 # 10) by q_decide.
  assert (A4 : toQ (num 2) == 2) by reflexivity.
  assert (A5 : toQ (fopp (num 2)) == - 2) by reflexivity.
  assert (Hl : l * c < 101 # 100).
  { destruct (Qlt_le_dec (l * c) (101 # 100)) as [H | H]; [exact H |].
    exfalso.
    destruct (Qlt_le_dec (l * c) 2) as [H2 | H2].
    - destruct (roundQ_between (l * c) (num 1.0055) (num 2)) as [_ [X _]];
        [lra | lra | reflexivity | reflexivity | lra | lra |]. lra.
    - destruct (Qlt_le_dec (l * c) (2 ^ 1023)) as [H3 | H3].
      + assert (X := RN_above (l * c) (num 1.0055) ltac:(lra) H3 eq_refl
                       ltac:(lra)).
        assert (G : (l * c ?= 0) = Gt) by (apply (proj1 (Qgt_alt _ _)); lra).
        unfold roundQ in Hhi. rewrite G in Hhi. lra.
      + (* the product overflows: its rounding is above 2^1023 or infinite *)
        assert (G : (l * c ?= 0) = Gt) by (apply (proj1 (Qgt_alt _ _)); lra).
        unfold roundQ in Hlo, Hhi. rewrite G in Hlo, Hhi.
        assert (Hq : 0 < l * c) by lra.
        assert (Hlog : (1023 <= Qlog2 (l * c))%Z).
        { destruct (Qlog2_spec (l * c) Hq) as [_ Hup].
          assert (1023 < Qlog2 (l * c) + 1)%Z; [| lia].
          apply (Qpower_lt_compat_l_inv 2); lra. }
        unfold RN in Hlo, Hhi. fold (exponent_of (l * c)) in Hlo, Hhi.
        fold (mantissa_of (l * c)) in Hlo, Hhi.
        assert (He : exponent_of (l * c) = (Qlog2 (l * c) - 52)%Z)
          by (unfold exponent_of, emin, prec; lia).
        assert (Hm := mantissa_normal (l * c) Hq
                        ltac:(rewrite He; unfold emin; lia)).
        destruct (mantissa_bounds (l * c) Hq) as [_ Hm1].
        set (mm := mantissa_of (l * c)) in *.
        set (ee := exponent_of (l * c)) in *.
        change (prec - 1)%Z with 52%Z in *. change prec with 53%Z in *.
        destruct (Z.eqb_spec mm (2 ^ 53)) as [E | NE].
        * change (2 ^ 52 =? 0)%Z with false in Hlo. cbv iota in Hlo.
          destruct (Z.ltb_spec emax (ee + 1)); [cbn [toQ] in Hlo; lra |].
          unfold emax in *. lia.
        * destruct (Z.eqb_spec mm 0) as [E0 | NE0]; [lia |].
          destruct (Z.ltb_spec emax ee); [cbn [toQ] in Hlo; lra |].
          cbn [toQ] in Hhi. rewrite Z2Pos.id in Hhi by lia.
          assert (P1 : 2 ^ 52 <= inject_Z mm).
          { rewrite <- (inject_pow 2 52) by lia. now apply inject_le. }
          assert (P2 : 2 ^ 971 <= 2 ^ ee).
          { apply pow_le; [lra | unfold emax in *; lia]. }
          assert (P3 : 0 < 2 ^ 971) by (apply pow_pos; lra).
          assert (P4 : 2 <= 2 ^ 52) by discriminate.
          assert (P5 : 1 <= 2 ^ 971) by discriminate.
          set (M := inject_Z mm) in *. set (P := 2 ^ ee) in *.
          clearbody M P. clear - Hhi P1 P2 P3 P4 P5. nra. }
  assert (Hc : c == 100) by exact E100.
  assert (Hpos : 0 < l * c).
  { destruct (Qlt_le_dec 0 (l * c)) as [H | H]; [exact H |]. exfalso.
    destruct (Qlt_le_dec (l * c) 0) as [Hn | Hn].
    - assert (G : (l * c ?= 0) = Lt)
        by (apply (proj1 (Qlt_alt _ _)); exact Hn).
      unfold roundQ in Hlo. rewrite G in Hlo.
      assert (X := RN_true_nonpositive (- (l * c))). lra.
    - assert (G : (l * c ?= 0) = Eq)
        by (apply (proj1 (Qeq_alt _ _)); lra).
      unfold roundQ in Hlo. rewrite G in Hlo. cbn [toQ] in Hlo. lra. }
  assert (Z0 := toQ_zero).
  split.
  { destruct (roundQ_between (l * c) (Zero false) (num 2)) as [F _];
      [lra | lra | reflexivity | reflexivity | lra | lra |]. exact F. }
  split.
  { rewrite Hc in Hl. lra. }
  intros H9.
  assert (H9' : 9 # 10 <= l * c) by (rewrite Hc; lra).
  destruct (roundQ_between (l * c) (num 0.89) (num 2)) as [_ [X _]];
    [lra | lra | reflexivity | reflexivity | lra | lra |].
  exact X.
Qed.

(** X15: a lightness between 0.015 and 1.005 percent does not survive the
    round trip.  For such an L (with C, H and A as in the round trip of
    the other lightnesses), the formatter writes a percentage of at most
    "1.00", the parser takes that text for a lightness that needs no
    division by 100, and the lightness read back exceeds L by more than
    1e-2. *)
Theorem low_lightness_misread :
  forall L C H A : number,
    binary64 L -> binary64 C -> binary64 H -> binary64 A ->
    15 # 1000 <= toQ (fmul L (num 100)) ->
    toQ (fmul L (num 100)) < 1005 # 1000 ->
    0 <= toQ C < 10 ^ 21 ->
    0 <= toQ H < 10 ^ 21 ->
    (toQ A == 0 \/ 10 ^ (-6) <= toQ A <= 1) ->
    exists (s : string) (p : oklch),
      formatOklch L C H A = Normal s
      /\ parseOklch s = Some p
      /\ is_finite (ThemeColors.L p) = true
      /\ 1 # 100 < toQ (ThemeColors.L p) - toQ L.
Proof.
  intros L C H A [_ HLf] [HCd HCf] HC' [HAd HAf] Hlo Hhi HC HH HA.
  destruct HC' as [HHd HHf].
  destruct (low_lightness_bounds L HLf Hlo Hhi) as (Fx & HL & H9).
  destruct (low_percentage_read (fmul L (num 100)) (fmul_double _ _) Fx
              Hlo Hhi) as (l & El & Hl & Hln & Hgt & Fv & V1 & V2).
  destruct (fixed_round_trip C 4 HCd HCf (proj1 HC) (proj2 HC) ltac:(lia))
    as (c & Ec & Hc & Hcn & _ & _).
  destruct (fixed_round_trip H 2 HHd HHf (proj1 HH) (proj2 HH) ltac:(lia))
    as (h & Eh & Hh & Hhn & _ & _).
  destruct (ToString_round_trip A HAd HAf HA) as (Ha & Han & _ & _).
  exists ("oklch(" ++ l ++ "% " ++ c ++ " " ++ h ++ " / " ++ ToString A
          ++ ")")%string,
    {| ThemeColors.L := parseFloat l;
       ThemeColors.C := parseFloat c;
       ThemeColors.H := parseFloat h;
       ThemeColors.A := parseFloat (ToString A) |}.
  split.
  { unfold formatOklch. now rewrite El, Ec, Eh. }
  split.
  { unfold parseOklch.
    rewrite (search_canonical l c h (ToString A)) by assumption.
    unfold parseFloat_group.
    destruct (group_captures l c h (Some (ToString A))) as (-> & -> & -> & ->).
    cbn [truthy]. rewrite Hgt.
    destruct (ToString A) as [| x a]; [congruence | reflexivity]. }
  cbn [ThemeColors.L].
  split; [exact Fv |].
  assert (A1 : 198 # 10000 <= toQ (num 0.0199)) by q_decide.
  assert (A2 : 879 # 1000 <= toQ (num 0.88)) by q_decide.
  destruct (Qlt_le_dec (toQ L) (9 # 1000)) as [Hs | Hb].
  - clear - V1 A1 Hs. lra.
  - specialize (V2 (H9 Hb)). clear - V2 A2 HL. lra.
Qed.

Lemma low_lightness_misread_witness :
  exists (s : string) (p : oklch),
    formatOklch (num 0.005) (num 0.1) (num 200) (num 1) = Normal s
    /\ parseOklch s = Some p
    /\ is_finite (ThemeColors.L p) = true
    /\ 1 # 100 < toQ (ThemeColors.L p) - toQ (num 0.005).
Proof.
  apply low_lightness_misread;
    try (split; q_decide); try q_decide.
  right. split; q_decide.
Defined.

End DerivationFacts.

(** ** The labels of the conjugation history *)

Module ConjugationHistoryFacts.

Import Number Text Builtin Regex ThemeColors Spec Grammar Ranges.
Import NumberFacts RoundingFacts TextFacts DigitFacts BuiltinFacts RegexFacts
  ThemeColorsFacts.
Import ConjugationHistory Elapsed.
Import GrammarFacts ComponentFacts DerivationFacts.
Local Open Scope string_scope.
Local Open Scope Z_scope.
Local Open Scope Q_scope.

(** *** Integers as numbers *)

Lemma roundQ_compat (q q' : Q) : q == q' -> roundQ q = roundQ q'.
Proof.
  intros E. unfold roundQ. rewrite <- (Qcompare_comp q q' E 0 0 (Qeq_refl 0)).
  destruct (q ?= 0) eqn:C; [reflexivity | |].
  - apply Qlt_alt in C. apply RN_compat; [lra | now rewrite E].
  - apply Qgt_alt in C. apply RN_compat; [lra | exact E].
Qed.

(** A positive integer below 2^53 is a binary64 number. *)
Lemma integer_double (z : Z) :
  (0 < z < 2 ^ 53)%Z ->
  exists y, is_double y = true /\ toQ y == inject_Z z.
Proof.
  intros [Hz0 Hz1].
  set (k := Z.log2 z).
  assert (Hk : (2 ^ k <= z < 2 ^ (k + 1))%Z).
  { unfold k. replace (Z.log2 z + 1)%Z with (Z.succ (Z.log2 z)) by lia.
    apply Z.log2_spec. exact Hz0. }
  assert (Hk0 : (0 <= k)%Z) by apply Z.log2_nonneg.
  assert (Hk1 : (k < 53)%Z).
  { apply (Z.pow_lt_mono_r_iff 2); lia. }
  exists (Fin false (Z.to_pos (z * 2 ^ (52 - k))) (k - 52)).
  assert (Hpow : (0 < 2 ^ (52 - k))%Z) by (apply Z.pow_pos_nonneg; lia).
  assert (E1 : (2 ^ k * 2 ^ (52 - k) = 2 ^ 52)%Z).
  { rewrite <- Z.pow_add_r by lia. f_equal. lia. }
  assert (E2 : (2 ^ (k + 1) * 2 ^ (52 - k) = 2 ^ 53)%Z).
  { rewrite <- Z.pow_add_r by lia. f_equal. lia. }
  split.
  - apply is_double_intro; unfold prec, emin, emax.
    + split; [lia |]. change (2 ^ 53)%Z with (2 ^ 53)%Z. nia.
    + lia.
    + right. change (53 - 1)%Z with 52%Z. nia.
  - cbn [toQ]. rewrite Z2Pos.id by lia.
    rewrite inject_Z_mult, inject_pow by lia. change (inject_Z 2) with 2.
    rewrite <- Qmult_assoc, <- pow_add by lra.
    replace (52 - k + (k - 52))%Z with 0%Z by lia.
    change (2 ^ 0) with 1. ring.
Qed.

Lemma inject_bound (z : Z) : (0 < z < 2 ^ 53)%Z -> 0 < inject_Z z < 2 ^ 1023.
Proof.
  intros [H0 H1]. split.
  - change 0 with (inject_Z 0). now apply inject_lt.
  - apply Qlt_trans with (inject_Z (2 ^ 53)); [now apply inject_lt |].
    reflexivity.
Qed.

Lemma RN_integer (z : Z) :
  (0 < z < 2 ^ 53)%Z -> toQ (RN false (inject_Z z)) == inject_Z z.
Proof.
  intros Hz. destruct (integer_double z Hz) as (y & Hy & Ey).
  destruct (inject_bound z Hz) as [H0 H1].
  assert (H := RN_nearest (inject_Z z) y H0 H1 Hy).
  rewrite Ey in H.
  setoid_replace (inject_Z z - inject_Z z) with 0 in H by ring.
  change (Qabs 0) with 0 in H.
  assert (H' := Qabs_nonneg (toQ (RN false (inject_Z z)) - inject_Z z)).
  assert (E : Qabs (toQ (RN false (inject_Z z)) - inject_Z z) == 0) by lra.
  revert E. apply Qabs_case; intros; lra.
Qed.

(** [of_Z] is exact on the integers of magnitude below 2^53. *)
Lemma of_Z_exact (z : Z) :
  (- 2 ^ 53 < z < 2 ^ 53)%Z ->
  is_finite (of_Z z) = true /\ toQ (of_Z z) == inject_Z z.
Proof.
  intros Hz. unfold of_Z, roundQ.
  destruct (inject_Z z ?= 0) eqn:C.
  - apply Qeq_alt in C. split; [reflexivity |]. cbn [toQ]. now rewrite C.
  - apply Qlt_alt in C.
    assert (Hn : (0 < - z < 2 ^ 53)%Z).
    { change 0 with (inject_Z 0) in C. apply inject_lt_inv in C. lia. }
    destruct (inject_bound _ Hn) as [H0 H1].
    rewrite (RN_compat true (- inject_Z z) (inject_Z (- z)))
      by (rewrite ?inject_Z_opp; try lra; reflexivity).
    split; [now apply RN_finite |].
    rewrite RN_true_toQ, (RN_integer _ Hn), inject_Z_opp. ring.
  - apply Qgt_alt in C.
    assert (Hn : (0 < z < 2 ^ 53)%Z).
    { change 0 with (inject_Z 0) in C. apply inject_lt_inv in C. lia. }
    destruct (inject_bound _ Hn) as [H0 H1].
    split; [now apply RN_finite | now apply RN_integer].
Qed.

Lemma of_Z_positive (z : Z) :
  (0 < z < 2 ^ 53)%Z -> exists m e, of_Z z = Fin false m e.
Proof.
  intros Hz. destruct (of_Z_exact z ltac:(lia)) as [Hf Hv].
  apply positive_finite; [exact Hf |].
  rewrite Hv. change 0 with (inject_Z 0). apply inject_lt. lia.
Qed.

Lemma of_Z_double (z : Z) : is_double (of_Z z) = true.
Proof. apply roundQ_is_double. Qed.

Lemma flt_of_Z (a b : Z) :
  (- 2 ^ 53 < a < 2 ^ 53)%Z -> (- 2 ^ 53 < b < 2 ^ 53)%Z ->
  flt (of_Z a) (of_Z b) = (a <? b)%Z.
Proof.
  intros Ha Hb.
  destruct (of_Z_exact a Ha) as [Fa Ea]. destruct (of_Z_exact b Hb) as [Fb Eb].
  unfold flt. rewrite (fcompare_finite _ _ Fa Fb).
  rewrite (Qcompare_comp _ _ Ea _ _ Eb).
  unfold Qcompare. cbn [Qnum Qden inject_Z]. rewrite !Z.mul_1_r.
  unfold Z.ltb. now destruct (a ?= b)%Z.
Qed.

(** *** The floor of a quotient of integers *)

Lemma roundQ_relative_error (q : Q) :
  2 ^ (-1022) <= Qabs q -> Qabs q < 2 ^ 1023 ->
  Qabs (toQ (roundQ q) - q) <= Qabs q * 2 ^ (-53).
Proof.
  intros Hlo Hhi. assert (Hp := big_pos (-1022)).
  unfold roundQ. destruct (q ?= 0) eqn:C.
  - apply Qeq_alt in C. rewrite C in Hlo. change (Qabs 0) with 0 in Hlo. lra.
  - apply Qlt_alt in C. rewrite (Qabs_neg q) in * by lra.
    assert (H := RN_relative_error (- q) Hlo Hhi).
    rewrite RN_true_toQ.
    setoid_replace (- toQ (RN false (- q)) - q)
      with (- (toQ (RN false (- q)) - - q)) by ring.
    now rewrite Qabs_opp.
  - apply Qgt_alt in C. rewrite (Qabs_pos q) in * by lra.
    now apply RN_relative_error.
Qed.

Lemma floor_unique (x : Q) (k : Z) :
  inject_Z k <= x -> x < inject_Z k + 1 -> Qfloor x = k.
Proof.
  intros H1 H2.
  assert (L := Qfloor_le x). assert (U := Qlt_floor x).
  rewrite inject_Z_plus in U. change (inject_Z 1) with 1 in U.
  assert (A : inject_Z k < inject_Z (Qfloor x) + 1) by lra.
  assert (B : inject_Z (Qfloor x) < inject_Z k + 1) by lra.
  change 1 with (inject_Z 1) in A, B. rewrite <- inject_Z_plus in A, B.
  apply inject_lt_inv in A. apply inject_lt_inv in B. lia.
Qed.

(** The quotient of two integers, between its floor and the next
    integer. *)
Lemma quotient_bounds (d c : Z) :
  (0 < c)%Z ->
  inject_Z (d / c) <= inject_Z d / inject_Z c
  /\ inject_Z d / inject_Z c <= inject_Z (d / c) + 1 - 1 / inject_Z c.
Proof.
  intros Hc.
  assert (HC : 0 < inject_Z c).
  { change 0 with (inject_Z 0). now apply inject_lt. }
  assert (Hm := Z.div_mod d c ltac:(lia)).
  assert (Hb := Z.mod_pos_bound d c Hc).
  assert (E : inject_Z d == inject_Z c * inject_Z (d / c) + inject_Z (d mod c)).
  { now rewrite <- inject_Z_mult, <- inject_Z_plus, <- Hm. }
  assert (M0 : 0 <= inject_Z (d mod c)).
  { change 0 with (inject_Z 0). apply inject_le. lia. }
  assert (M1 : inject_Z (d mod c) <= inject_Z c - 1).
  { assert (Ec : inject_Z (c - 1) == inject_Z c - 1)
      by (unfold Z.sub; rewrite inject_Z_plus; reflexivity).
    rewrite <- Ec. apply inject_le. lia. }
  set (K := inject_Z (d / c)) in *. set (C := inject_Z c) in *.
  set (D := inject_Z d) in *. set (M := inject_Z (d mod c)) in *.
  clearbody K C D M.
  split.
  - apply Qle_shift_div_l; [exact HC |]. nra.
  - apply Qle_shift_div_r; [exact HC |].
    setoid_replace ((K + 1 - 1 / C) * C) with (K * C + C - 1)
      by (field; lra).
    nra.
Qed.

Lemma abs_inject (z : Z) : Qabs (inject_Z z) == inject_Z (Z.abs z).
Proof. unfold Qabs, inject_Z. reflexivity. Qed.

Lemma div_magnitude (d c : Z) :
  (0 < c)%Z -> (- 2 ^ 53 < d < 2 ^ 53)%Z -> (- 2 ^ 53 < d / c < 2 ^ 53)%Z.
Proof.
  intros Hc Hd.
  assert (Hm := Z.div_mod d c ltac:(lia)).
  assert (Hb := Z.mod_pos_bound d c Hc).
  split; nia.
Qed.

Lemma quotient_arith (ad C iC aq t B : Q) :
  1 <= C -> C < B -> iC * C == 1 -> 0 < iC -> 1 <= ad -> ad < B ->
  aq == ad * iC -> t * B == 1 -> 0 < t ->
  aq <= ad /\ t < aq /\ aq * t < iC.
Proof.
  intros HC HC' I I0 HD0 HD1 Haq T T0.
  assert (I1 : iC <= 1).
  { assert (iC * 1 <= iC * C) by (apply Qmult_le_l; assumption). lra. }
  assert (B0 : 0 < B) by lra.
  assert (I2 : t < iC).
  { (* t*B = 1 = iC*C, C < B *)
    assert (S : iC * C < iC * B) by (apply Qmult_lt_l; assumption).
    assert (S' : t * B < iC * B) by lra.
    apply (Qmult_lt_r _ _ B B0). exact S'. }
  rewrite Haq. split; [| split].
  - assert (S : ad * iC <= ad * 1) by (apply Qmult_le_l; lra). lra.
  - assert (S : 1 * iC <= ad * iC) by (apply Qmult_le_compat_r; lra). lra.
  - assert (S1 : ad * t < 1).
    { assert (S : t * ad < t * B) by (apply Qmult_lt_l; assumption). lra. }
    assert (S2 := Qmult_lt_compat_r _ _ iC I0 S1).
    setoid_replace (ad * iC * t) with (ad * t * iC) by ring. lra.
Qed.

(** The rounded quotient of two integers has the floor of the exact
    quotient. *)
Lemma rounded_quotient (d c : Z) :
  (0 < c < 2 ^ 53)%Z -> (- 2 ^ 53 < d < 2 ^ 53)%Z -> d <> 0%Z ->
  let r := roundQ (inject_Z d / inject_Z c) in
  is_finite r = true /\ ~ toQ r == 0 /\ Qfloor (toQ r) = (d / c)%Z.
Proof.
  intros Hc Hd Hnz r.
  destruct (quotient_bounds d c ltac:(lia)) as [QL QU].
  assert (HC : 1 <= inject_Z c).
  { change 1 with (inject_Z 1). apply inject_le. lia. }
  assert (HC' : inject_Z c < 2 ^ 53).
  { change (2 ^ 53) with (inject_Z (2 ^ 53)). apply inject_lt. lia. }
  assert (HD : 1 <= Qabs (inject_Z d) /\ Qabs (inject_Z d) < 2 ^ 53).
  { rewrite abs_inject. split.
    - change 1 with (inject_Z 1). apply inject_le. lia.
    - change (2 ^ 53) with (inject_Z (2 ^ 53)). apply inject_lt. lia. }
  assert (EA : Qabs (inject_Z d / inject_Z c)
               == Qabs (inject_Z d) / inject_Z c).
  { unfold Qdiv. rewrite Qabs_Qmult.
    rewrite (Qabs_pos (/ inject_Z c)); [reflexivity |].
    apply Qlt_le_weak, Qinv_lt_0_compat. lra. }
  destruct (div_magnitude d c ltac:(lia) Hd) as [Hk0 Hk1].
  destruct (of_Z_exact (d / c) ltac:(lia)) as [Fk Ek].
  destruct (of_Z_exact (Z.abs d) ltac:(lia)) as [Fa Ea].
  rewrite <- abs_inject in Ea.
  assert (T : 2 ^ (-53) * 2 ^ 53 == 1) by reflexivity.
  assert (T0 : 0 < 2 ^ (-53)) by reflexivity.
  assert (T1 : 2 ^ 53 < 2 ^ 1023) by reflexivity.
  assert (T2 : 2 ^ (-1022) < 2 ^ (-53)) by reflexivity.
  assert (T3 : 0 < 2 ^ (-1022)) by reflexivity.
  assert (I : / inject_Z c * inject_Z c == 1) by (field; lra).
  assert (I0 : 0 < / inject_Z c) by (apply Qinv_lt_0_compat; lra).
  assert (EQ : inject_Z d / inject_Z c == inject_Z d * / inject_Z c)
    by reflexivity.
  assert (E1 : 1 / inject_Z c == / inject_Z c) by (field; lra).
  assert (EA' : Qabs (inject_Z d) / inject_Z c
                == Qabs (inject_Z d) * / inject_Z c) by reflexivity.
  set (q := inject_Z d / inject_Z c) in *.
  set (aq := Qabs q) in *.
  set (ad := Qabs (inject_Z d)) in *.
  set (C := inject_Z c) in *. set (iC := / C) in *.
  set (t := 2 ^ (-53)) in *. set (B := 2 ^ 53) in *.
  set (K := inject_Z (d / c)) in *.
  assert (Hcase : aq == q \/ aq == - q).
  { unfold aq. apply Qabs_case; intros; [left | right]; reflexivity. }
  assert (H : Qabs (toQ r - q) <= aq * t
              -> - (aq * t) <= toQ r - q <= aq * t).
  { intros Er. split.
    - revert Er. apply Qabs_case; intros; lra.
    - eapply Qle_trans; [apply Qle_Qabs | exact Er]. }
  assert (Er' : 2 ^ (-1022) <= aq -> aq < 2 ^ 1023
                -> Qabs (toQ r - q) <= aq * t).
  { intros. now apply roundQ_relative_error. }
  assert (X : - 2 ^ 1023 < q -> q < 2 ^ 1023 -> K <= q -> q <= ad ->
              is_finite r = true /\ K <= toQ r).
  { intros X1 X2 X3 X4.
    destruct (roundQ_between q (of_Z (d / c)) (of_Z (Z.abs d)))
      as [Fr [Lr _]]; [exact X1 | exact X2 | apply of_Z_double
                      | apply of_Z_double | now rewrite Ek | now rewrite Ea |].
    split; [exact Fr |]. now rewrite <- Ek. }
  assert (T4 : t < 1) by reflexivity.
  assert (FU : K <= toQ r -> toQ r < K + 1 -> Qfloor (toQ r) = (d / c)%Z)
    by apply floor_unique.
  destruct HD as [HD0 HD1].
  clearbody r. clearbody K iC. clearbody aq ad. clearbody q. clearbody C.
  clearbody t B.
  assert (Haq : aq == ad * iC) by (rewrite EA; exact EA').
  destruct (quotient_arith ad C iC aq t B HC HC' I I0 HD0 HD1 Haq T T0)
    as (Hqle & Hlow & Hsmall).
  assert (Hone : aq * t < aq * 1) by (apply Qmult_lt_l; lra).
  set (err := aq * t) in *. clearbody err.
  assert (Hq : - aq <= q /\ q <= aq) by (destruct Hcase; lra).
  destruct Hq as [Hq0 Hq1].
  rewrite E1 in QU. clear EA EA' E1 EQ Haq.
  assert (M1 : - 2 ^ 1023 < q).
  { clear - Hq0 Hqle HD1 T1. lra. }
  assert (M2 : q < 2 ^ 1023).
  { clear - Hq1 Hqle HD1 T1. lra. }
  destruct X as [Fr Lr]; [exact M1 | exact M2 | exact QL | lra |].
  assert (M3 : 2 ^ (-1022) <= aq) by (clear - T2 Hlow; lra).
  assert (M4 : aq < 2 ^ 1023) by (clear - Hqle HD1 T1; lra).
  destruct (H (Er' M3 M4)) as [R1 R2].
  split; [exact Fr |]. split.
  - intros Z. clear - Z Hcase R1 R2 Hone. destruct Hcase as [Hc' | Hc']; lra.
  - apply FU; [exact Lr |]. clear - R2 Hsmall QU. lra.
Qed.

Lemma finite_nonzero (x : number) :
  is_finite x = true -> ~ toQ x == 0 -> exists s m e, x = Fin s m e.
Proof.
  destruct x as [s | s | | s m e]; try discriminate; intros _ H.
  - exfalso. apply H. reflexivity.
  - now exists s, m, e.
Qed.

(** [Math.floor(d / c)] on integers is the quotient of the integer
    division. *)
Lemma floor_quotient (d c : Z) :
  (0 < c < 2 ^ 53)%Z -> (- 2 ^ 53 < d < 2 ^ 53)%Z ->
  Math_floor (fdiv (of_Z d) (of_Z c)) = of_Z (d / c).
Proof.
  intros Hc Hd.
  destruct (of_Z_positive c Hc) as (mc & ec & Ec).
  destruct (of_Z_exact c ltac:(lia)) as [_ Vc].
  destruct (Z.eq_dec d 0) as [-> | Hnz].
  - rewrite Ec. rewrite Z.div_0_l by lia. reflexivity.
  - destruct (of_Z_exact d Hd) as [Fd Vd].
    assert (Hd0 : ~ toQ (of_Z d) == 0).
    { rewrite Vd. intros E. apply Hnz.
      change 0 with (inject_Z 0) in E. unfold Qeq in E. simpl in E. lia. }
    destruct (finite_nonzero _ Fd Hd0) as (s & m & e & Ed).
    rewrite Ed, Ec, fdiv_rounds. rewrite Ed in Vd. rewrite Ec in Vc.
    assert (HC : ~ inject_Z c == 0).
    { intros E. change 0 with (inject_Z 0) in E. unfold Qeq in E.
      simpl in E. lia. }
    rewrite (roundQ_compat _ (inject_Z d / inject_Z c))
      by (rewrite Vd, Vc; reflexivity).
    destruct (rounded_quotient d c Hc Hd Hnz) as (Fr & Zr & Er).
    destruct (finite_nonzero _ Fr Zr) as (sr & mr & er & E).
    rewrite E in *. cbn [Math_floor]. rewrite Er. reflexivity.
Qed.

(** The difference of two times. *)
Lemma time_difference (a b : Z) :
  time_value a -> time_value b -> fsub (of_Z a) (of_Z b) = of_Z (a - b).
Proof.
  intros Ha Hb.
  destruct (of_Z_positive a Ha) as (ma & ea & Ea).
  destruct (of_Z_positive b Hb) as (mb & eb & Eb).
  destruct (of_Z_exact a ltac:(unfold time_value in Ha; lia)) as [_ Va].
  destruct (of_Z_exact b ltac:(unfold time_value in Hb; lia)) as [_ Vb].
  rewrite Ea, Eb in *. cbn [fsub fopp fadd negb].
  unfold of_Z. apply roundQ_compat.
  rewrite fin_opp, Va, Vb. unfold Z.sub.
  rewrite inject_Z_plus, inject_Z_opp. reflexivity.
Qed.

(** The numbers 1 to 59 as texts. *)
Lemma small_number_text (n : Z) :
  (1 <= n < 60)%Z -> ToString (of_Z n) = Z_to_digits n.
Proof.
  intros Hn.
  assert (H : forallb (fun k => String.eqb (ToString (of_Z k)) (Z_to_digits k))
                (map Z.of_nat (seq 1 59)) = true) by (vm_compute; reflexivity).
  rewrite forallb_forall in H.
  apply String.eqb_eq. apply H.
  apply in_map_iff. exists (Z.to_nat n). split; [lia |].
  apply in_seq. lia.
Qed.

(** X16: the label of a history entry is computed without rounding
    artefacts.  For times in whole milliseconds (positive, below 2^53),
    an entry that is less than a minute old, or lies in the future, reads
    "now"; one less than an hour old reads its age in whole minutes and
    "m", less than a day in whole hours and "h", less than a week in whole
    days and "d", each with the integer quotient of the age; an older
    entry reads as the date that [toLocaleDateString] gives. *)
Theorem relative_time_labels :
  forall (toLocaleDateString : number -> string) (now timestamp : Z),
    time_value now -> time_value timestamp ->
    formatTimestamp toLocaleDateString (of_Z now) (of_Z timestamp)
    = age_label (now - timestamp) (toLocaleDateString (of_Z timestamp)).
Proof.
  intros toLocaleDateString now timestamp Hn Ht.
  unfold formatTimestamp, age_label.
  rewrite (time_difference _ _ Hn Ht).
  set (d := (now - timestamp)%Z).
  assert (Hd : (- 2 ^ 53 < d < 2 ^ 53)%Z)
    by (unfold d, time_value in *; lia).
  change (num 60000) with (of_Z 60000).
  change (num 3600000) with (of_Z 3600000).
  change (num 86400000) with (of_Z 86400000).
  change (num 1) with (of_Z 1). change (num 60) with (of_Z 60).
  change (num 24) with (of_Z 24). change (num 7) with (of_Z 7).
  rewrite !floor_quotient by (try assumption; lia).
  destruct (div_magnitude d 60000 ltac:(lia) Hd).
  destruct (div_magnitude d 3600000 ltac:(lia) Hd).
  destruct (div_magnitude d 86400000 ltac:(lia) Hd).
  rewrite !flt_of_Z by lia.
  assert (D1 := Z.div_mod d 60000 ltac:(lia)).
  assert (B1 := Z.mod_pos_bound d 60000 ltac:(lia)).
  assert (D2 := Z.div_mod d 3600000 ltac:(lia)).
  assert (B2 := Z.mod_pos_bound d 3600000 ltac:(lia)).
  assert (D3 := Z.div_mod d 86400000 ltac:(lia)).
  assert (B3 := Z.mod_pos_bound d 86400000 ltac:(lia)).
  destruct (Z.ltb_spec (d / 60000) 1);
    destruct (Z.ltb_spec d 60000); try lia; [reflexivity |].
  destruct (Z.ltb_spec (d / 60000) 60);
    destruct (Z.ltb_spec d 3600000); try lia.
  { now rewrite small_number_text by lia. }
  destruct (Z.ltb_spec (d / 3600000) 24);
    destruct (Z.ltb_spec d 86400000); try lia.
  { now rewrite small_number_text by lia. }
  destruct (Z.ltb_spec (d / 86400000) 7);
    destruct (Z.ltb_spec d 604800000); try lia.
  { now rewrite small_number_text by lia. }
  reflexivity.
Qed.

Lemma relative_time_labels_witness :
  formatTimestamp (fun _ => "1/1/2024") (of_Z 1700000000000)
    (of_Z 1699990000000)
  = age_label (1700000000000 - 1699990000000) "1/1/2024".
Proof.
  apply (relative_time_labels (fun _ => "1/1/2024") 1700000000000
           1699990000000);
    unfold time_value; lia.
Defined.

(** The model of [Math.floor] on sample values. *)
Example floor_samples :
  Math_floor (num 2.7) = num 2
  /\ Math_floor (num (-0.5)) = num (-1)
  /\ Math_floor (num 0.5) = Zero false
  /\ Math_floor (Zero true) = Zero true
  /\ Math_floor NaN = NaN
  /\ Math_floor (num 9007199254740993) = num 9007199254740992.
Proof. repeat split; vm_compute; reflexivity. Qed.

End ConjugationHistoryFacts.
